(** * Grade Genius backend: OCR cascade, page segmentation and pack selection

    A shallow embedding of the grading backend's deterministic core:
    - the text helpers of [server.js] ([stripGarbage], [isMeaningful],
      [slugify], [cleanExtractedText]) and the sentinel names built inside
      [ocrWithOpenAIOCR];
    - the [/process-quiz/:id] handler with its engine cascade and the
      process-wide [CURRENT_OCR_CTX];
    - [green_page_map.ts] ([normalizeIndices], [evenSplit],
      [inferByPageTexts], [mapPagesToStudents]);
    - [SBAW.js] ([pickSolutionIndex], [selectFromFormattedAndBuild] and the
      role order of [buildSBABSingle]);
    - [forceSolutionFullMarks] of [grader.ts] and its call site;
    - around these: the header rules of the vision OCR prompts, the two
      builders of [green_graded.js] with [wrapLines], and [csvEscape] with
      the CSV export, [isUUID] and [stripCodeFences] of [grader.ts].

    JavaScript strings are lists of code units restricted to the range
    0..255 ([ascii]); numbers that the code uses as counts, indices and
    marks are integers ([Z]), except in [forceSolutionFullMarks], which
    adds marks up and is modelled over the doubles. *)

From Stdlib Require Import ZArith NArith List Ascii String Bool Lia.
From Stdlib Require Import Sorting.Sorted Sorting.Permutation.
From Stdlib Require Import Floats.PrimFloat.
Import ListNotations.

Local Open Scope Z_scope.
Local Open Scope list_scope.

(** ** JavaScript strings and the string primitives the code calls *)

Module JsText.

Definition jsstring := list ascii.

(** A string literal of the source. *)
Definition lit (s : string) : jsstring := list_ascii_of_string s.

Definition code (c : ascii) : N := N_of_ascii c.

Definition in_range (lo hi : N) (c : ascii) : bool :=
  ((lo <=? code c) && (code c <=? hi))%N.

(** The regular-expression class [\s] (also the set that [trim] removes),
    on code units 0..255: TAB, LF, VT, FF, CR, SPACE and NBSP. *)
Definition is_space (c : ascii) : bool :=
  in_range 9 13 c || (code c =? 32)%N || (code c =? 160)%N.

Definition is_newline (c : ascii) : bool := (code c =? 10)%N.

(** [[\x20-\x7E\n]]: the characters that the sanitisers keep. *)
Definition is_safe (c : ascii) : bool := in_range 32 126 c || is_newline c.

(** [[a-zA-Z0-9]]. *)
Definition is_alnum (c : ascii) : bool :=
  in_range 97 122 c || in_range 65 90 c || in_range 48 57 c.

(** [[a-z0-9_\-]]. *)
Definition is_slug_char (c : ascii) : bool :=
  in_range 97 122 c || in_range 48 57 c || (code c =? 95)%N || (code c =? 45)%N.

Definition is_underscore (c : ascii) : bool := (code c =? 95)%N.

(** [String.prototype.toLowerCase] on one code unit: A-Z and the Latin-1
    capitals U+00C0..U+00DE (without the multiplication sign U+00D7) move
    up by 32. *)
Definition lower_char (c : ascii) : ascii :=
  if in_range 65 90 c || (in_range 192 222 c && negb (code c =? 215)%N)
  then ascii_of_N (code c + 32) else c.

Definition toLowerCase (s : jsstring) : jsstring := map lower_char s.

Fixpoint dropWhile (p : ascii -> bool) (s : jsstring) : jsstring :=
  match s with
  | [] => []
  | c :: r => if p c then dropWhile p r else s
  end.

Definition dropWhileEnd (p : ascii -> bool) (s : jsstring) : jsstring :=
  rev (dropWhile p (rev s)).

(** [String.prototype.trim]. *)
Definition trim (s : jsstring) : jsstring :=
  dropWhileEnd is_space (dropWhile is_space s).

(** [s.replace(/[^C]/g, "")] for a character class [C]. *)
Definition keep_only (p : ascii -> bool) (s : jsstring) : jsstring := filter p s.

(** What a pending run of class characters becomes once it ends: a run of
    at least [k] characters is one match of [C{k,}] and is replaced. *)
Definition flush_run (k : nat) (rep run : jsstring) : jsstring :=
  if (k <=? List.length run)%nat then rep else run.

(** [s.replace(/C{k,}/g, rep)] for [k >= 1]: the greedy quantifier matches
    every maximal run of class characters of length at least [k]; shorter
    runs are copied.  [run] is the run read so far. *)
Fixpoint replace_runs_from (p : ascii -> bool) (k : nat) (rep run s : jsstring)
  : jsstring :=
  match s with
  | [] => flush_run k rep run
  | c :: r =>
      if p c then replace_runs_from p k rep (run ++ [c]) r
      else flush_run k rep run ++ c :: replace_runs_from p k rep [] r
  end.

Definition replace_runs (p : ascii -> bool) (k : nat) (rep s : jsstring) : jsstring :=
  replace_runs_from p k rep [] s.

(** [s.replace(/^_+|_+$/g, "")]. *)
Definition strip_underscores (s : jsstring) : jsstring :=
  dropWhileEnd is_underscore (dropWhile is_underscore s).

Fixpoint startsWith (pre s : jsstring) : bool :=
  match pre, s with
  | [], _ => true
  | _ :: _, [] => false
  | a :: pre', b :: s' => Ascii.eqb a b && startsWith pre' s'
  end.

(** [String.prototype.includes]. *)
Fixpoint includes (s sub : jsstring) : bool :=
  startsWith sub s ||
  match s with
  | [] => false
  | _ :: r => includes r sub
  end.

Definition space : jsstring := lit " ".
Definition LF : ascii := ascii_of_N 10.

End JsText.
Import JsText.

(** ** Helpers of [server.js] *)

(** [stripGarbage]: [(s || "")] is the identity on a string. *)
Definition stripGarbage (s : jsstring) : jsstring :=
  trim (replace_runs is_space 2 space (keep_only is_safe s)).

Definition isMeaningful (s : jsstring) : bool :=
  let clean := keep_only is_alnum s in
  (30 <=? List.length clean)%nat.

Definition slugify (s : jsstring) : jsstring :=
  keep_only is_slug_char
    (replace_runs is_space 1 (lit "_") (trim (toLowerCase s))).

(** [cleanExtractedText], local to the [/process-quiz/:id] handler. *)
Definition cleanExtractedText (text : jsstring) : jsstring :=
  trim
    (replace_runs is_newline 3 [LF; LF]
       (replace_runs is_space 2 space (keep_only is_safe text))).

(** ** JavaScript values that may be missing *)

Inductive jsopt (A : Type) : Type :=
| JUndefined
| JNull
| JValue (a : A).
Arguments JUndefined {A}.
Arguments JNull {A}.
Arguments JValue {A} a.

(** [x || d] on a string-valued field: [undefined], [null] and the empty
    string are falsy. *)
Definition str_or (x : jsopt jsstring) (d : jsstring) : jsstring :=
  match x with
  | JValue (c :: s) => c :: s
  | _ => d
  end.

(** [x || null] on a string-valued field. *)
Definition str_or_null (x : jsopt jsstring) : jsopt jsstring :=
  match x with
  | JValue (c :: s) => JValue (c :: s)
  | _ => JNull
  end.

(** [Number(x || d)] on an integer-valued field ([0] is falsy). *)
Definition num_or (x : jsopt Z) (d : Z) : Z :=
  match x with
  | JValue n => if n =? 0 then d else n
  | _ => d
  end.

(** [x !== false]. *)
Definition not_false (x : jsopt bool) : bool :=
  match x with
  | JValue false => false
  | _ => true
  end.

(** [x ?? d]. *)
Definition nullish_or {A} (x : option A) (d : A) : A :=
  match x with
  | Some a => a
  | None => d
  end.

(** ** The shared naming context and the sentinel names *)

Record OcrNamingContext : Type := mkCtx {
  firstIsSolution : bool;
  quizTitle : jsopt jsstring;
  section : jsopt jsstring;
  pagesPerStudent : Z
}.

(** [let CURRENT_OCR_CTX = { firstIsSolution: false, pagesPerStudent: 1 }]. *)
Definition initial_ctx : OcrNamingContext := mkCtx false JUndefined JUndefined 1.

(** The object assigned after the cascade. *)
Definition neutral_ctx : OcrNamingContext := mkCtx false JNull JNull 1.

(** The part after the prefix in the two template literals of
    [ocrWithOpenAIOCR]:
    [${titleSlug}${sectionSlug ? "_" + sectionSlug : ""}]. *)
Definition name_core (titleSlug sectionSlug : jsstring) : jsstring :=
  titleSlug ++
  match sectionSlug with
  | [] => []
  | _ :: _ => lit "_" ++ sectionSlug
  end.

Definition solutionName (ctx : OcrNamingContext) : jsstring :=
  let titleSlug := slugify (str_or (quizTitle ctx) []) in
  let sectionSlug := slugify (str_or (section ctx) []) in
  strip_underscores (lit "solution_paper_" ++ name_core titleSlug sectionSlug).

Definition unknownName (ctx : OcrNamingContext) : jsstring :=
  let titleSlug := slugify (str_or (quizTitle ctx) []) in
  let sectionSlug := slugify (str_or (section ctx) []) in
  strip_underscores (lit "unknown_" ++ name_core titleSlug sectionSlug).

(** The graded records ([Subpart], [Question], [StudentGraded]); every
    field is optional, as in the interfaces of [green_page_map.ts]. *)
Record Subpart : Type := mkSubpart {
  sp_label : option jsstring;
  sp_marks : option Z;
  sp_max_marks : option Z;
  sp_remarks : option jsstring
}.

Record Question : Type := mkQuestion {
  q_number : option Z;
  q_marks : option Z;
  q_max_marks : option Z;
  q_topic : option jsstring;
  q_remarks : option jsstring;
  q_subparts : option (list Subpart)
}.

(** An entry of a candidate [page_indices] array: an integer, some other
    number (a fraction, NaN, an infinity) or a value that is no number. *)
Inductive pageval : Type :=
| PInt (z : Z)
| POtherNumber
| PNotNumber.

Record StudentGraded : Type := mkStudent {
  student_name : option jsstring;
  roll_number : option jsstring;
  total_score : option Z;
  max_score : option Z;
  page_indices : option (list pageval);
  questions : option (list Question);
  remarks : option jsstring
}.

(** [{}]: what [graded[i] || {}] yields for a missing entry. *)
Definition empty_student : StudentGraded :=
  mkStudent None None None None None None None.

(** The quiz row as the handlers read it. *)
Record Quiz : Type := mkQuiz {
  title : jsopt jsstring;
  quiz_section : jsopt jsstring;
  no_of_pages : jsopt Z;
  read_first_paper_is_solution : jsopt bool;
  graded_json : option (list (option StudentGraded))
                                      (* [None]: not an array; an entry
                                         [None]: not an object *)
}.

(** ** The [/process-quiz/:id] handler of [server.js] *)

Module OcrProcess.

(** The six extraction engines behind [tryPdfParse], [tryVisionPdf],
    [tryOpenAIOCR], [tryGeminiOCR], [tryImages] and [tryTesseract]. *)
Inductive engine_id : Type :=
| PdfParse | VisionPdfNative | OpenAIOCR | GeminiOCR | VisionImages | Tesseract.

(** [null] and [undefined] as thrown values: the two values that have no
    property to read. *)
Inductive nullish : Type := ThrownNull | ThrownUndefined.

(** What a call into an engine or a collaborator does: it returns a value,
    throws a value whose [message] can be read (an [Error], as a rule), or
    throws [null] or [undefined]. *)
Inductive outcome (A : Type) : Type :=
| Returns (a : A)
| Throws (message : jsstring)
| ThrowsNullish (v : nullish).
Arguments Returns {A} a.
Arguments Throws {A} message.
Arguments ThrowsNullish {A} v.

(** The value bound by a [catch]. *)
Inductive thrown : Type :=
| ErrorValue (message : jsstring)
| NullishValue (v : nullish).

(** The message of the [TypeError] that reading [e.message] raises when
    [e] is [null] or [undefined]. *)
Definition cannot_read_message (v : nullish) : jsstring :=
  match v with
  | ThrownNull => lit "Cannot read properties of null (reading 'message')"
  | ThrownUndefined =>
      lit "Cannot read properties of undefined (reading 'message')"
  end.

(** Everything outside the handler that one request observes.  An engine
    may read the naming context that is current when it is called. *)
Record world : Type := mkWorld {
  quiz_lookup : option Quiz;          (* [None]: [quizError || !quiz] *)
  download_ok : bool;                 (* [false]: [downloadError || !file] *)
  write_temp : outcome unit;          (* [fs.writeFileSync] *)
  engine_run : engine_id -> OcrNamingContext -> outcome jsstring;
  update_error : option jsstring;     (* [updateError] of the final update *)
  unlink_temp : outcome unit          (* [fs.unlinkSync] *)
}.

(** Process state: the module-level context, the engines invoked so far and
    the [extracted_text] column of the quiz row. *)
Record server_state : Type := mkState {
  CURRENT_OCR_CTX : OcrNamingContext;
  calls : list engine_id;
  extracted_text : jsopt jsstring
}.

(** What the client gets; [NoResponse] when the handler's own promise
    rejects, so that nothing is sent. *)
Inductive response : Type :=
| Json404
| Json200 (text : jsstring)
| Json500 (error : jsstring)
| NoResponse.

(** State and exceptions. *)
Definition M (A : Type) : Type := server_state -> outcome A * server_state.

Definition ret {A} (a : A) : M A := fun st => (Returns a, st).

Definition bind {A B} (m : M A) (k : A -> M B) : M B :=
  fun st =>
    match m st with
    | (Returns a, st') => k a st'
    | (Throws e, st') => (Throws e, st')
    | (ThrowsNullish v, st') => (ThrowsNullish v, st')
    end.

Definition throw {A} (e : jsstring) : M A := fun st => (Throws e, st).

(** [try { m } catch (e) { h e }]. *)
Definition try_catch {A} (m : M A) (h : thrown -> M A) : M A :=
  fun st =>
    match m st with
    | (Returns a, st') => (Returns a, st')
    | (Throws e, st') => h (ErrorValue e) st'
    | (ThrowsNullish v, st') => h (NullishValue v) st'
    end.

(** [e.message]: a [TypeError] when [e] is [null] or [undefined]. *)
Definition read_message (e : thrown) : M jsstring :=
  match e with
  | ErrorValue message => ret message
  | NullishValue v => throw (cannot_read_message v)
  end.

Definition lift {A} (o : outcome A) : M A := fun st => (o, st).

Definition get_ctx : M OcrNamingContext :=
  fun st => (Returns (CURRENT_OCR_CTX st), st).

Definition set_ctx (c : OcrNamingContext) : M unit :=
  fun st => (Returns tt, mkState c (calls st) (extracted_text st)).

Definition log_call (e : engine_id) : M unit :=
  fun st =>
    (Returns tt,
     mkState (CURRENT_OCR_CTX st) (calls st ++ [e]) (extracted_text st)).

Definition store_text (t : jsstring) : M unit :=
  fun st => (Returns tt, mkState (CURRENT_OCR_CTX st) (calls st) (JValue t)).

Declare Scope ocr_scope.
Delimit Scope ocr_scope with ocr.
Notation "x <- m ;; k" := (bind m (fun x => k))
  (at level 61, m at next level, right associativity) : ocr_scope.
Notation "m ;;; k" := (bind m (fun _ => k))
  (at level 61, right associativity) : ocr_scope.
Local Open Scope ocr_scope.

(** The engine itself, started under the current context. *)
Definition invoke (w : world) (e : engine_id) : M jsstring :=
  log_call e ;;;
  c <- get_ctx ;;
  lift (engine_run w e c).

(** [catch (e) { console.warn("...", e.message); return ""; }]: the
    handler of the six [try...] closures reads [e.message] before it
    returns the empty string. *)
Definition warn_and_return_empty (e : thrown) : M jsstring :=
  read_message e ;;; ret [].

(** The six [try...] closures; [tryPdfParse] sanitises the embedded
    text. *)
Definition tryPdfParse (w : world) : M jsstring :=
  try_catch (t <- invoke w PdfParse ;; ret (stripGarbage t))
            warn_and_return_empty.

Definition tryVisionPdf (w : world) : M jsstring :=
  try_catch (invoke w VisionPdfNative) warn_and_return_empty.

Definition tryImages (w : world) : M jsstring :=
  try_catch (invoke w VisionImages) warn_and_return_empty.

Definition tryTesseract (w : world) : M jsstring :=
  try_catch (invoke w Tesseract) warn_and_return_empty.

Definition tryOpenAIOCR (w : world) : M jsstring :=
  try_catch (invoke w OpenAIOCR) warn_and_return_empty.

Definition tryGeminiOCR (w : world) : M jsstring :=
  try_catch (invoke w GeminiOCR) warn_and_return_empty.

(** [if (!isMeaningful(extractedText)) extractedText = await next();]. *)
Definition unless_meaningful (extractedText : jsstring) (next : M jsstring)
  : M jsstring :=
  if negb (isMeaningful extractedText) then next else ret extractedText.

Definition str_eqb (a b : jsstring) : bool :=
  if list_eq_dec ascii_dec a b then true else false.

(** The engine selection of the handler. *)
Definition run_engine (w : world) (engine : jsstring) : M jsstring :=
  if str_eqb engine (lit "vision-pdf") then
    t <- tryVisionPdf w ;;
    t <- unless_meaningful t (tryImages w) ;;
    unless_meaningful t (tryTesseract w)
  else if str_eqb engine (lit "images") then
    t <- tryImages w ;;
    unless_meaningful t (tryTesseract w)
  else if str_eqb engine (lit "tesseract") then
    tryTesseract w
  else if str_eqb engine (lit "openai-ocr") then
    t <- tryOpenAIOCR w ;;
    unless_meaningful t (tryTesseract w)
  else if str_eqb engine (lit "gemini-ocr") then
    t <- tryGeminiOCR w ;;
    unless_meaningful t (tryTesseract w)
  else
    t <- tryPdfParse w ;;
    t <- unless_meaningful t (tryVisionPdf w) ;;
    t <- unless_meaningful t (tryOpenAIOCR w) ;;
    t <- unless_meaningful t (tryGeminiOCR w) ;;
    t <- unless_meaningful t (tryImages w) ;;
    unless_meaningful t (tryTesseract w).

(** The context written before the cascade. *)
Definition populated_ctx (quiz : Quiz) : OcrNamingContext :=
  let pagesPerStudent := Z.max 1 (num_or (no_of_pages quiz) 1) in
  let firstIsSolutionFromDB := not_false (read_first_paper_is_solution quiz) in
  mkCtx firstIsSolutionFromDB (str_or_null (title quiz))
        (str_or_null (quiz_section quiz)) pagesPerStudent.

(** The body of the handler's [try]. *)
Definition handler_body (w : world) (engine : jsstring) : M response :=
  match quiz_lookup w with
  | None => ret Json404
  | Some quiz =>
      (if download_ok w then ret tt
       else throw (lit "Failed to download quiz PDF")) ;;;
      lift (write_temp w) ;;;
      set_ctx (populated_ctx quiz) ;;;
      extractedText <- run_engine w engine ;;
      set_ctx neutral_ctx ;;;
      let extractedText := cleanExtractedText extractedText in
      match update_error w with
      | Some e => throw e
      | None =>
          store_text extractedText ;;;
          lift (unlink_temp w) ;;;
          ret (Json200 extractedText)
      end
  end.

(** [catch (err) { console.error("...", err.message);
    res.status(500).json({ error: err.message }); }]. *)
Definition answer_500 (err : thrown) : M response :=
  message <- read_message err ;;
  ret (Json500 message).

(** The whole handler; when its [catch] throws in turn, nothing is sent. *)
Definition process_quiz (w : world) (engine : jsstring)
  : server_state -> response * server_state :=
  fun st =>
    match try_catch (handler_body w engine) answer_500 st with
    | (Returns r, st') => (r, st')
    | (Throws _, st') => (NoResponse, st')
    | (ThrowsNullish _, st') => (NoResponse, st')
    end.

(** Whether a request gets as far as writing the naming context. *)
Definition reaches_populate (w : world) : bool :=
  match quiz_lookup w, write_temp w with
  | Some _, Returns _ => download_ok w
  | _, _ => false
  end.

(** The order of the "auto" chain. *)
Definition auto_order : list engine_id :=
  [PdfParse; VisionPdfNative; OpenAIOCR; GeminiOCR; VisionImages; Tesseract].

(** What the [try...] closure of engine [e] hands back to the cascade;
    when the engine throws [null] or [undefined] the closure hands nothing
    back (see [rejection]) and the value here is of no account. *)
Definition adapter_result (w : world) (c : OcrNamingContext) (e : engine_id)
  : jsstring :=
  match engine_run w e c, e with
  | Returns t, PdfParse => stripGarbage t
  | Returns t, _ => t
  | Throws _, _ => []
  | ThrowsNullish _, _ => []
  end.

(** The [null] or [undefined] that engine [e] throws, if it does: the
    case in which the [catch] of its closure throws in turn. *)
Definition rejection (w : world) (c : OcrNamingContext) (e : engine_id)
  : option nullish :=
  match engine_run w e c with
  | ThrowsNullish v => Some v
  | _ => None
  end.

End OcrProcess.

(** ** Array helpers shared by the page mapper and the pack selection *)

Module JsArray.

(** [Array.prototype.sort(cmp)]: the sort is stable; written as insertion
    from the right, an element goes in front of the first later element
    that does not compare below it. *)
Fixpoint insert_by {A} (cmp : A -> A -> Z) (x : A) (l : list A) : list A :=
  match l with
  | [] => [x]
  | y :: r => if cmp x y <=? 0 then x :: y :: r else y :: insert_by cmp x r
  end.

Definition js_sort {A} (cmp : A -> A -> Z) (l : list A) : list A :=
  fold_right (insert_by cmp) [] l.

(** [Array.from(new Set(l))]: first occurrences, in order. *)
Fixpoint set_from (seen l : list Z) : list Z :=
  match l with
  | [] => []
  | x :: r =>
      if existsb (Z.eqb x) seen then set_from seen r
      else x :: set_from (x :: seen) r
  end.

(** [Array.from({ length: len }, (_, k) => s + k)]. *)
Definition range_from (s len : Z) : list Z :=
  map (fun k => s + Z.of_nat k) (seq 0 (Z.to_nat len)).

(** [l[i]] for a number [i]. *)
Definition js_nth {A} (l : list A) (i : Z) : option A :=
  if i <? 0 then None else nth_error l (Z.to_nat i).

(** [l.map((x, i) => f x i)]. *)
Fixpoint map_from {A B} (f : A -> nat -> B) (i : nat) (l : list A) : list B :=
  match l with
  | [] => []
  | x :: r => f x i :: map_from f (S i) r
  end.

Definition map_indexed {A B} (f : A -> nat -> B) (l : list A) : list B :=
  map_from f 0 l.

Fixpoint filter_map {A B} (f : A -> option B) (l : list A) : list B :=
  match l with
  | [] => []
  | x :: r =>
      match f x with
      | Some b => b :: filter_map f r
      | None => filter_map f r
      end
  end.

(** [x | 0]: the 32-bit signed integer of an integer-valued number. *)
Definition to_int32 (x : Z) : Z := (x + 2 ^ 31) mod 2 ^ 32 - 2 ^ 31.

End JsArray.
Import JsArray.

(** ** [green_page_map.ts] *)

Module PageMap.

(** Non-numbers become NaN in the first [map] of [normalizeIndices]. *)
Definition to_number (v : pageval) : pageval :=
  match v with
  | PNotNumber => POtherNumber
  | _ => v
  end.

(** [Number.isInteger(n) && n >= 0 && n < pageCount]. *)
Definition valid_index (pageCount : Z) (v : pageval) : option Z :=
  match v with
  | PInt n => if (0 <=? n) && (n <? pageCount) then Some n else None
  | _ => None
  end.

Definition normalizeIndices (indices : list pageval) (pageCount : Z) : list Z :=
  let nums := filter_map (valid_index pageCount) (map to_number indices) in
  js_sort (fun a b => a - b) (set_from [] nums).

(** The main loop of [evenSplit], with [k] iterations left. *)
Fixpoint evenSplit_loop (k : nat) (base remainder cursor : Z) : list (list Z) :=
  match k with
  | O => []
  | S k' =>
      let take := base + (if 0 <? remainder then 1 else 0) in
      let slice := range_from cursor take in
      slice ::
        evenSplit_loop k' base
          (if 0 <? remainder then remainder - 1 else remainder) (cursor + take)
  end.

Definition evenSplit (pageCount n : Z) : list (list Z) :=
  if (n <=? 0) || (pageCount <=? 0) then repeat [] (Z.to_nat (Z.max 0 n))
  else
    let base := pageCount / n in
    let remainder := pageCount - base * n in
    evenSplit_loop (Z.to_nat n) base remainder 0.

(** The test on one page text in [inferByPageTexts]. *)
Definition has_header (text : jsstring) : bool :=
  let t := toLowerCase text in
  includes t (lit "name:") && includes t (lit "roll:").

Fixpoint find_starts (i : Z) (page_texts : list jsstring) : list Z :=
  match page_texts with
  | [] => []
  | t :: r =>
      if has_header t then i :: find_starts (i + 1) r
      else find_starts (i + 1) r
  end.

(** Ranges [[start_i, start_{i+1})], the last one up to [total]. *)
Fixpoint build_ranges (starts : list Z) (total : Z) : list (list Z) :=
  match starts with
  | [] => []
  | s :: rest =>
      let e := match rest with
               | s' :: _ => s'
               | [] => total
               end in
      range_from s (Z.max 0 (e - s)) :: build_ranges rest total
  end.

Definition inferByPageTexts (page_texts : option (list jsstring))
    (expectedStudents : Z) : list (list Z) :=
  match page_texts with
  | None => []
  | Some texts =>
      if (Z.of_nat (List.length texts) =? 0) || (expectedStudents =? 0) then []
      else
        let starts := find_starts 0 texts in
        match starts with
        | [] => []
        | _ :: _ => build_ranges starts (Z.of_nat (List.length texts))
        end
  end.

(** [{ ...s, page_indices: l }]. *)
Definition with_pages (s : StudentGraded) (l : list Z) : StudentGraded :=
  mkStudent (student_name s) (roll_number s) (total_score s) (max_score s)
            (Some (map PInt l)) (questions s) (remarks s).

Definition provided (s : StudentGraded) : bool :=
  match page_indices s with
  | Some (_ :: _) => true
  | _ => false
  end.

(** The second loop of the unequal-count branch: student [min + j] takes
    the next [split[j].length] uncovered pages. *)
Fixpoint assign_remaining (rest : list StudentGraded) (j : nat)
    (split : list (list Z)) (remainingPages : list Z) (cursor : nat)
    (totalPages : Z) : list StudentGraded :=
  match rest with
  | [] => []
  | s :: rest' =>
      let take := nth j split [] in
      let indices :=
        filter_map (fun k => nth_error remainingPages (cursor + k))
                   (seq 0 (List.length take)) in
      with_pages s (normalizeIndices (map PInt indices) totalPages) ::
        assign_remaining rest' (S j) split remainingPages
          (cursor + List.length take) totalPages
  end.

Definition mapPagesToStudents (pageCount : Z) (students : list StudentGraded)
    (page_texts : option (list jsstring)) : list StudentGraded :=
  let totalPages := Z.max 0 (to_int32 pageCount) in
  let list := students in
  let n := List.length list in
  if (n =? 0)%nat then []
  else if forallb provided list then
    map (fun s => with_pages s
                    (normalizeIndices (nullish_or (page_indices s) []) totalPages))
        list
  else
    let inferredBlocks := inferByPageTexts page_texts (Z.of_nat n) in
    if (1 <=? List.length inferredBlocks)%nat then
      if (List.length inferredBlocks =? n)%nat then
        map_indexed
          (fun s i => with_pages s
             (normalizeIndices (map PInt (nth i inferredBlocks [])) totalPages))
          list
      else
        let min := Nat.min n (List.length inferredBlocks) in
        let out :=
          map_indexed
            (fun s i => with_pages s
               (normalizeIndices (map PInt (nth i inferredBlocks [])) totalPages))
            (firstn min list) in
        if (min <? n)%nat then
          let remaining := (n - min)%nat in
          let remainingPages :=
            filter (fun p => negb (existsb (fun blk => existsb (Z.eqb p) blk)
                                           inferredBlocks))
                   (range_from 0 totalPages) in
          let split := evenSplit (Z.of_nat (List.length remainingPages))
                                 (Z.of_nat remaining) in
          out ++ assign_remaining (skipn min list) 0 split remainingPages 0
                                  totalPages
        else out
    else
      let split := evenSplit totalPages (Z.of_nat n) in
      map_indexed
        (fun s i => with_pages s
           (normalizeIndices (map PInt (nth i split [])) totalPages))
        list.

End PageMap.

(** ** [SBAW.js]: the Solution / Best / Avg / Low pack *)

Module SBAW.

Record mapped_entry : Type := mkMapped {
  index : Z;
  pageIndex : Z;
  student : StudentGraded
}.

(** The predicate of the [find] in [pickSolutionIndex]:
    [/^unknown_/.test(n) || /^solution_paper_/.test(n)] on the lower-cased
    name ([student_name || ""]). *)
Definition sentinel_name (name : jsstring) : bool :=
  let n := toLowerCase name in
  startsWith (lit "unknown_") n || startsWith (lit "solution_paper_") n.

Definition looks_like_solution (m : mapped_entry) : bool :=
  sentinel_name (nullish_or (student_name (student m)) []).

Definition pickSolutionIndex (arr : list mapped_entry) : Z :=
  match find looks_like_solution arr with
  | Some cand => pageIndex cand
  | None =>
      match arr with
      | m :: _ => pageIndex m
      | [] => 0
      end
  end.

(** The block-start mapping: entry [i] is the first page of block [i]. *)
Definition build_mapped (pageCount pagesPerStudent : Z)
    (graded : list (option StudentGraded)) : list mapped_entry :=
  let maxStudentsByPages := pageCount / pagesPerStudent in
  let useStudents := Z.min (Z.of_nat (List.length graded)) maxStudentsByPages in
  map (fun i =>
         let firstPageOfBlock := Z.of_nat i * pagesPerStudent in
         mkMapped (Z.of_nat i) firstPageOfBlock
                  (nullish_or (nth i graded None) empty_student))
      (seq 0 (Z.to_nat useStudents)).

Record selection : Type := mkSelection {
  mapped : list mapped_entry;
  solutionIdx : option Z;              (* [None]: [null] *)
  bestIdx : Z;
  avgIdx : Z;
  lowIdx : Z
}.

Definition score (m : mapped_entry) : Z := nullish_or (total_score (student m)) 0.

(** [l[i]?.pageIndex]. *)
Definition page_at (l : list mapped_entry) (i : Z) : option Z :=
  option_map pageIndex (js_nth l i).

(** [[...pool].sort((a, b) => (b.student.total_score ?? 0) -
    (a.student.total_score ?? 0))]. *)
Definition rank (pool : list mapped_entry) : list mapped_entry :=
  js_sort (fun a b => score b - score a) pool.

(** [selectFromFormattedAndBuild] once the quiz row and the source document
    (of [pageCount] pages) are loaded. *)
Definition selectFromFormattedAndBuild (quiz : Quiz) (pageCount : Z) : selection :=
  let graded := nullish_or (graded_json quiz) [] in
  let pagesPerStudent := Z.max 1 (num_or (no_of_pages quiz) 1) in
  let mapped := build_mapped pageCount pagesPerStudent graded in
  let readFirstPaperIsSolution := not_false (read_first_paper_is_solution quiz) in
  let solutionIdx :=
    if readFirstPaperIsSolution then Some (pickSolutionIndex mapped) else None in
  let pool :=
    match solutionIdx with
    | Some sol => filter (fun m => negb (pageIndex m =? sol)) mapped
    | None => mapped
    end in
  let sorted := rank pool in
  let fallback := nullish_or (page_at pool 0) (nullish_or (page_at mapped 0) 0) in
  let len := Z.of_nat (List.length sorted) in
  mkSelection mapped solutionIdx
    (nullish_or (page_at sorted 0) fallback)
    (nullish_or (page_at sorted (len / 2)) fallback)
    (nullish_or (page_at sorted (len - 1)) fallback).

Inductive role : Type := Solution | Best | Avg | Low.

Definition label_text (r : role) : jsstring :=
  match r with
  | Solution => lit "Solution"
  | Best => lit "Best"
  | Avg => lit "Avg"
  | Low => lit "Low"
  end.

Record order_item : Type := mkItem {
  label : role;
  page : Z;
  item_student : StudentGraded
}.

(** [(mapped.find(m => m.pageIndex === p) || mapped[0]).student]; reading
    [.student] of [undefined] throws when [mapped] is empty. *)
Definition student_of_page (mapped : list mapped_entry) (p : Z)
  : option StudentGraded :=
  match find (fun m => pageIndex m =? p) mapped with
  | Some m => Some (student m)
  | None =>
      match mapped with
      | m :: _ => Some (student m)
      | [] => None
      end
  end.

Definition item_for (mapped : list mapped_entry) (r : role) (p : Z)
  : option order_item :=
  option_map (mkItem r p) (student_of_page mapped p).

Fixpoint all_some {A} (l : list (option A)) : option (list A) :=
  match l with
  | [] => Some []
  | None :: _ => None
  | Some a :: r => option_map (cons a) (all_some r)
  end.

(** The [order] array of [buildSBABSingle]; [None] when building it throws. *)
Definition build_order (sel : selection) : option (list order_item) :=
  let m := mapped sel in
  all_some
    (match solutionIdx sel with
     | Some sol => [item_for m Solution sol]
     | None => []
     end ++
     [item_for m Best (bestIdx sel);
      item_for m Avg (avgIdx sel);
      item_for m Low (lowIdx sel)]).

End SBAW.

(** ** [grader.ts]: the solution post-processor *)

Module Grader.

Definition question_note : jsstring := lit "Solution key (full marks)".
Definition paper_note : jsstring := lit "Solution paper (awarded full marks).".

(** The [remarks] update: a non-empty string gets [" | " + note] appended,
    anything else is replaced by the note. *)
Definition add_note (r : option jsstring) (note : jsstring) : option jsstring :=
  match r with
  | Some (c :: s) => Some ((c :: s) ++ lit " | " ++ note)
  | _ => Some note
  end.

(** JavaScript numbers are IEEE 754 doubles.  The post-processor adds them
    and tests them for falsiness ([0], [-0] and [NaN]) and does nothing
    else with them; the model is written over any type with these
    operations, so that nothing proved of it rests on additions being exact
    or associative. *)
Class JsNumber (num : Type) : Type := {
  num_zero : num;
  num_add : num -> num -> num;
  num_falsy : num -> bool
}.

(** The doubles themselves. *)
#[export] Instance double : JsNumber float := {|
  num_zero := 0%float;
  num_add := PrimFloat.add;
  num_falsy := fun x => (PrimFloat.eqb x 0 || negb (PrimFloat.eqb x x))%bool
|}.

(** The graded record as the post-processor meets it, fresh from
    [JSON.parse]: the properties of [StudentGraded], [Question] and
    [Subpart] that it reads or writes; a property that is to hold a number
    holds one or is missing.  An entry of [questions] or of [subparts] is an object ([Some]) or a value
    that is no object ([None]: [null], a number, a string, a boolean); the
    module is strict code, where setting a property on such a value throws
    a [TypeError], while reading one through [?.] yields [undefined]. *)
Record GradedSubpart (num : Type) : Type := mkGradedSubpart {
  gs_label : option jsstring;
  gs_marks : option num;
  gs_max_marks : option num;
  gs_remarks : option jsstring
}.

Arguments mkGradedSubpart {num}.
Arguments gs_label {num}.
Arguments gs_marks {num}.
Arguments gs_max_marks {num}.
Arguments gs_remarks {num}.

Record GradedQuestion (num : Type) : Type := mkGradedQuestion {
  gq_number : option num;
  gq_marks : option num;
  gq_max_marks : option num;
  gq_topic : option jsstring;
  gq_remarks : option jsstring;
  gq_subparts : option (list (option (GradedSubpart num)))
}.

Arguments mkGradedQuestion {num}.
Arguments gq_number {num}.
Arguments gq_marks {num}.
Arguments gq_max_marks {num}.
Arguments gq_topic {num}.
Arguments gq_remarks {num}.
Arguments gq_subparts {num}.

Record GradedRecord (num : Type) : Type := mkGradedRecord {
  gr_student_name : option jsstring;
  gr_roll_number : option jsstring;
  gr_total_score : option num;
  gr_max_score : option num;
  gr_questions : option (list (option (GradedQuestion num)));
  gr_remarks : option jsstring
}.

Arguments mkGradedRecord {num}.
Arguments gr_student_name {num}.
Arguments gr_roll_number {num}.
Arguments gr_total_score {num}.
Arguments gr_max_score {num}.
Arguments gr_questions {num}.
Arguments gr_remarks {num}.

(** A rewrite in place either runs to its end or is cut short by a
    [TypeError]; either way the object stays as the rewrite left it. *)
Inductive mutation (A : Type) : Type :=
| Finished (a : A)
| Interrupted (a : A).

Arguments Finished {A}.
Arguments Interrupted {A}.

Definition left_as {A : Type} (m : mutation A) : A :=
  match m with
  | Finished a => a
  | Interrupted a => a
  end.

(** The same outcome, seen on the object that holds the rewritten one. *)
Definition within {A B : Type} (f : A -> B) (m : mutation A) : mutation B :=
  match m with
  | Finished a => Finished (f a)
  | Interrupted a => Interrupted (f a)
  end.

Definition is_object {A : Type} (v : option A) : bool :=
  match v with
  | Some _ => true
  | None => false
  end.

Section Numbers.
Context {num : Type} {N : JsNumber num}.

(** [x || 0] and [x || d] on a number. *)
Definition or_zero (x : num) : num := if num_falsy x then num_zero else x.
Definition truthy_or (x d : num) : num := if num_falsy x then d else x.

(** [Number(x ?? 0) || 0]. *)
Definition num0 (x : option num) : num := or_zero (nullish_or x num_zero).

(** [Number(x || 0)] on a property that holds a number or is missing. *)
Definition marks_or_zero (x : option num) : num :=
  match x with
  | Some m => or_zero m
  | None => num_zero
  end.

(** [sp?.max_marks]. *)
Definition max_of_subpart (sp : option (GradedSubpart num)) : option num :=
  match sp with
  | Some o => gs_max_marks o
  | None => None
  end.

(** The body of the loop over [q.subparts], on an entry that is an
    object. *)
Definition force_subpart (sp : GradedSubpart num) : GradedSubpart num :=
  let spMax := num0 (gs_max_marks sp) in
  mkGradedSubpart (gs_label sp) (Some spMax) (gs_max_marks sp)
                  (add_note (gs_remarks sp) question_note).

(** The loop over [q.subparts], entered with [subSum]: the array as the
    loop leaves it, and [subSum] where it stopped.  On an entry that is no
    object [spMax] is read as 0 and [sp.marks = spMax] throws. *)
Fixpoint force_subparts (subSum : num) (sps : list (option (GradedSubpart num)))
  : mutation (list (option (GradedSubpart num))) * num :=
  match sps with
  | [] => (Finished [], subSum)
  | None :: rest => (Interrupted (None :: rest), subSum)
  | Some sp :: rest =>
      let (m, s) :=
        force_subparts (num_add subSum (num0 (gs_max_marks sp))) rest in
      (within (cons (Some (force_subpart sp))) m, s)
  end.

(** The body of the loop over [first.questions], up to the update of
    [sumMax], on an entry that is an object.  A throw inside the loop over
    the subparts leaves [q.marks] and [q.remarks] unwritten. *)
Definition force_question (q : GradedQuestion num) : mutation (GradedQuestion num) :=
  let qMax := num0 (gq_max_marks q) in
  match gq_subparts q with
  | Some (sp :: sps) =>
      match force_subparts num_zero (sp :: sps) with
      | (Finished sps', subSum) =>
          Finished (mkGradedQuestion (gq_number q) (Some subSum)
                      (gq_max_marks q) (gq_topic q)
                      (add_note (gq_remarks q) question_note) (Some sps'))
      | (Interrupted sps', _) =>
          Interrupted (mkGradedQuestion (gq_number q) (gq_marks q)
                         (gq_max_marks q) (gq_topic q) (gq_remarks q)
                         (Some sps'))
      end
  | _ =>
      Finished (mkGradedQuestion (gq_number q) (Some qMax) (gq_max_marks q)
                  (gq_topic q) (add_note (gq_remarks q) question_note)
                  (gq_subparts q))
  end.

(** The first loop over [first.questions], entered with [sumMax].  On an
    entry that is no object [q?.subparts] is [undefined] and
    [q.marks = qMax] throws. *)
Fixpoint force_questions (sumMax : num) (qs : list (option (GradedQuestion num)))
  : mutation (list (option (GradedQuestion num))) * num :=
  match qs with
  | [] => (Finished [], sumMax)
  | None :: rest => (Interrupted (None :: rest), sumMax)
  | Some q :: rest =>
      match force_question q with
      | Interrupted q' => (Interrupted (Some q' :: rest), sumMax)
      | Finished q' =>
          let (m, s) :=
            force_questions (num_add sumMax (marks_or_zero (gq_marks q'))) rest in
          (within (cons (Some q')) m, s)
      end
  end.

(** The body of the second loop over [first.questions], which reads
    through [?.] only and adds every maximum to the one accumulator. *)
Definition add_question_max (computedMax : num) (q : option (GradedQuestion num))
  : num :=
  match q with
  | Some o =>
      match gq_subparts o with
      | Some (sp :: sps) =>
          fold_left (fun acc sp => num_add acc (num0 (max_of_subpart sp)))
                    (sp :: sps) computedMax
      | _ => num_add computedMax (num0 (gq_max_marks o))
      end
  | None => num_add computedMax (num0 None)
  end.

Definition computedMax (qs : list (option (GradedQuestion num))) : num :=
  fold_left add_question_max qs num_zero.

(** [forceSolutionFullMarks] on a record.  The name is written first; a
    throw in the first loop leaves [total_score], [max_score] and
    [remarks] unwritten. *)
Definition forceSolutionFullMarks_record (first : GradedRecord num)
  : mutation (GradedRecord num) :=
  let name := trim (match gr_student_name first with
                    | Some (c :: s) => c :: s
                    | _ => lit "Unknown Student"
                    end) in
  let new_name := trim (name ++ lit " " ++ name) in
  let (questions', sumMax) :=
    match gr_questions first with
    | Some qs => let (m, s) := force_questions num_zero qs in (within Some m, s)
    | None => (Finished None, num_zero)
    end in
  match questions' with
  | Interrupted qs' =>
      Interrupted (mkGradedRecord (Some new_name) (gr_roll_number first)
                     (gr_total_score first) (gr_max_score first) qs'
                     (gr_remarks first))
  | Finished qs' =>
      let computedMax := computedMax (nullish_or qs' []) in
      Finished (mkGradedRecord (Some new_name) (gr_roll_number first)
                  (Some sumMax)
                  (Some (truthy_or (nullish_or (gr_max_score first) computedMax)
                                   sumMax))
                  qs' (add_note (gr_remarks first) paper_note))
  end.

(** [forceSolutionFullMarks]: a value that is no object is left alone. *)
Definition forceSolutionFullMarks (first : option (GradedRecord num))
  : mutation (option (GradedRecord num)) :=
  match first with
  | Some o => within Some (forceSolutionFullMarks_record o)
  | None => Finished None
  end.

(** The call site in the [/analyze-quiz/:id] handler: what is then written
    to [graded_json].  The call stands in a [try] whose [catch] logs
    [e?.message] and goes on, so the array is stored with its first entry
    as the rewrite left it, finished or not. *)
Definition apply_solution_key (useSolutionKey : bool)
    (parsedArray : option (list (option (GradedRecord num))))
  : option (list (option (GradedRecord num))) :=
  match parsedArray with
  | Some (first :: rest) =>
      if useSolutionKey then Some (left_as (forceSolutionFullMarks first) :: rest)
      else parsedArray
  | _ => parsedArray
  end.

End Numbers.

End Grader.

(** ** [server.js]: the header rules of the vision OCR prompts *)

Module OcrPrompt.

(** Per page [idx] of [ocrWithOpenAIOCR] and [ocrWithGeminiOCR]. *)
Definition isFirstPageAbsolute (idx : Z) : bool := idx =? 0.

Definition isFirstInStudentBlock (ctx : OcrNamingContext) (idx : Z) : bool :=
  idx mod Z.max 1 (pagesPerStudent ctx) =? 0.

Definition isSolutionForThisPaper (ctx : OcrNamingContext) (idx : Z) : bool :=
  firstIsSolution ctx && isFirstPageAbsolute idx.

(** The normalized header that a first page of a block is told to start
    with, for the values [name] and [roll]. *)
Definition header_lines (name roll : jsstring) : jsstring :=
  lit "Name: " ++ name ++ [LF] ++ lit "Roll: " ++ roll ++ [LF] ++ lit "----" ++ [LF].

Definition headerRules (ctx : OcrNamingContext) (idx : Z) : jsstring :=
  if isFirstInStudentBlock ctx idx then
    lit "Additionally, ALWAYS prepend a normalized header to your output EXACTLY like:"
      ++ [LF] ++
    header_lines (lit "<value>") (lit "<value>") ++
    lit "Rules for <value>:" ++ [LF] ++
    lit "- CURRENT_PAPER_IS_SOLUTION = " ++
    (if isSolutionForThisPaper ctx idx then lit "true" else lit "false") ++
    lit "." ++ [LF] ++
    (if isSolutionForThisPaper ctx idx then
       lit "- If CURRENT_PAPER_IS_SOLUTION is true, set BOTH Name and Roll to '"
         ++ solutionName ctx ++ lit "'." ++ [LF]
     else
       lit "- If CURRENT_PAPER_IS_SOLUTION is false, try to read the student's name/roll from the page. If none is clearly present, set BOTH Name and Roll to '"
         ++ unknownName ctx ++ lit "'." ++ [LF]) ++
    lit "Do not invent different values. Use the exact strings above when required."
  else
    lit "Return raw text only for this page. Do NOT prepend any Name/Roll header for this page.".

End OcrPrompt.

(** ** More of the JavaScript library *)

Module JsMore.

(** [Array.prototype.join] on an array of strings. *)
Fixpoint join (sep : jsstring) (l : list jsstring) : jsstring :=
  match l with
  | [] => []
  | x :: r =>
      match r with
      | [] => x
      | _ :: _ => x ++ sep ++ join sep r
      end
  end.

(** [s.split(/\s+/)]: the pieces between the maximal runs of white space;
    a run at the start or at the end leaves an empty piece there.
    [skipping] holds inside a run, [cur] is the piece read so far. *)
Fixpoint split_go (skipping : bool) (cur s : jsstring) : list jsstring :=
  match s with
  | [] => [cur]
  | c :: r =>
      if is_space c then
        if skipping then split_go true [] r else cur :: split_go true [] r
      else split_go false (cur ++ [c]) r
  end.

Definition split_ws (s : jsstring) : list jsstring := split_go false [] s.

End JsMore.
Import JsMore.

(** ** [green_graded.js]: the merged, annotated document *)

Module GreenGraded.

(** [x || ""] on an optional string. *)
Definition or_empty (x : option jsstring) : jsstring :=
  match x with
  | Some (c :: s) => c :: s
  | _ => []
  end.

(** The object handed to the drawing code for one student. *)
Record summary : Type := mkSummary {
  sum_name : jsstring;
  sum_roll : jsstring;
  sum_total : Z;
  sum_max : Z;
  sum_remarks : jsstring;
  sum_questions : list Question
}.

(** The [student] literal of [buildGreenMergedPdf], from
    [g = gradedArray[studentIdx] || {}]. *)
Definition green_student (g : StudentGraded) : summary :=
  mkSummary (or_empty (student_name g)) (or_empty (roll_number g))
            (nullish_or (total_score g) 0) (nullish_or (max_score g) 0)
            (or_empty (remarks g)) (nullish_or (questions g) []).

(** One page of the output: the source page copied, and the student drawn
    on it when the page is the first of a block. *)
Record out_page : Type := mkOutPage {
  src_page : Z;
  annotation : option summary
}.

(** The page loop of [buildGreenMergedPdf] (the builder that reads
    [graded_json] and [no_of_pages]). *)
Definition buildGreenMergedPdf (quiz : Quiz) (pageCount : Z) : list out_page :=
  let gradedArray := nullish_or (graded_json quiz) [] in
  let pagesPerStudent := Z.max 1 (num_or (no_of_pages quiz) 1) in
  map (fun pageIdx =>
         mkOutPage pageIdx
           (if pageIdx mod pagesPerStudent =? 0 then
              let studentIdx := pageIdx / pagesPerStudent in
              let g := nullish_or
                         (nullish_or (js_nth gradedArray studentIdx) None)
                         empty_student in
              Some (green_student g)
            else None))
      (range_from 0 pageCount).

(** The integers of a [page_indices] array. *)
Definition page_numbers (l : list pageval) : list Z :=
  filter_map (fun v => match v with
                       | PInt n => Some n
                       | _ => None
                       end) l.

(** The pages copied for one mapped student in the builder that calls
    [mapPagesToStudents]: its own pages, or all pages when it has none. *)
Definition section_pages (pageCount : Z) (s : StudentGraded) : list Z :=
  let indices :=
    match page_indices s with
    | Some (v :: l) => page_numbers (v :: l)
    | _ => range_from 0 pageCount
    end in
  js_sort (fun a b => a - b)
          (filter (fun i => (0 <=? i) && (i <? pageCount)) (set_from [] indices)).

(** The page sequence of the merged document of that builder: the sections
    of the mapped students in order, empty sections skipped. *)
Definition buildGreenMergedPdf_mapped (pageCount : Z)
    (students : list StudentGraded) (page_texts : option (list jsstring))
  : list (list Z) :=
  let mapped := PageMap.mapPagesToStudents pageCount students page_texts in
  filter (fun sec => negb (List.length sec =? 0)%nat)
         (map (section_pages pageCount) mapped).

(** One turn of the loop of [wrapLines]: [out] and [cur] before and after
    the word [w]. *)
Definition wrap_step (maxChars : Z) (st : list jsstring * jsstring)
    (w : jsstring) : list jsstring * jsstring :=
  let (out, cur) := st in
  let tryLine := match cur with
                 | [] => w
                 | _ :: _ => cur ++ space ++ w
                 end in
  if maxChars <? Z.of_nat (List.length tryLine) then
    (match cur with
     | [] => out
     | _ :: _ => out ++ [cur]
     end, w)
  else (out, tryLine).

(** [wrapLines] of the builder that maps pages ([t = (text || "").trim()]);
    the loop is the one of the other two [wrapLines]. *)
Definition wrapLines (text : option jsstring) (maxChars : Z) : list jsstring :=
  let t := trim (or_empty text) in
  match t with
  | [] => []
  | _ :: _ =>
      let (out, cur) := fold_left (wrap_step maxChars) (split_ws t) ([], []) in
      match cur with
      | [] => out
      | _ :: _ => out ++ [cur]
      end
  end.

End GreenGraded.

(** ** [SBAW.js]: what is drawn for each role *)

Module SBAWDraw.

(** The [student] literal in the loop of [buildSBABSingle]. *)
Definition sbab_student (s : StudentGraded) : GreenGraded.summary :=
  GreenGraded.mkSummary
    (nullish_or (student_name s) []) (nullish_or (roll_number s) [])
    (nullish_or (total_score s) 0) (nullish_or (max_score s) 0)
    (nullish_or (remarks s) []) (nullish_or (questions s) []).

End SBAWDraw.

(** ** [grader.ts]: the CSV export *)

Module GraderCsv.

Definition dquote : ascii := ascii_of_N 34.
Definition is_dquote (c : ascii) : bool := (code c =? 34)%N.
Definition is_comma (c : ascii) : bool := (code c =? 44)%N.

(** [csvEscape]; the argument is [None] for [null] and [undefined] and
    otherwise the [String(...)] of the value. *)
Definition csvEscape (s : option jsstring) : jsstring :=
  let t := nullish_or s [] in
  if existsb (fun c => is_dquote c || is_comma c || is_newline c) t
  then dquote ::
       flat_map (fun c => if is_dquote c then [dquote; dquote] else [c]) t ++
       [dquote]
  else t.

(** The five fields read from one [graded_json], as [csvEscape] sees
    them. *)
Record graded_fields : Type := mkFields {
  f_student_name : option jsstring;
  f_roll_number : option jsstring;
  f_total_score : option jsstring;
  f_max_score : option jsstring;
  f_remarks : option jsstring
}.

Definition csv_header : list jsstring :=
  [lit "quiz_id"; lit "created_at"; lit "student_name"; lit "roll_number";
   lit "total_score"; lit "max_score"; lit "remarks"].

(** One pushed line of the [/export-csv/:id] handler. *)
Definition csv_line (quizId : jsstring) (created_at : option jsstring)
    (s : graded_fields) : jsstring :=
  join (lit ",")
       [csvEscape (Some quizId); csvEscape created_at;
        csvEscape (f_student_name s); csvEscape (f_roll_number s);
        csvEscape (f_total_score s); csvEscape (f_max_score s);
        csvEscape (f_remarks s)].

(** [csvContent]: the header line and one line per grade row, joined by
    line feeds. *)
Definition csvContent (quizId : jsstring) (created_at : option jsstring)
    (rows : list graded_fields) : jsstring :=
  join [LF] (join (lit ",") csv_header :: map (csv_line quizId created_at) rows).

End GraderCsv.

(** ** [grader.ts]: input validation and the cleaning of model output *)

Module GraderText.

(** [[0-9a-f]] under the flag [i]. *)
Definition is_hex (c : ascii) : bool :=
  in_range 48 57 c || in_range 97 102 c || in_range 65 70 c.

Definition is_dash (c : ascii) : bool := (code c =? 45)%N.

(** [[89ab]] under the flag [i]. *)
Definition is_variant (c : ascii) : bool :=
  in_range 56 57 c || in_range 97 98 c || in_range 65 66 c.

(** The character classes of the regular expression of [isUUID], one per
    position. *)
Definition uuid_pattern : list (ascii -> bool) :=
  repeat is_hex 8 ++ [is_dash] ++
  repeat is_hex 4 ++ [is_dash] ++
  [in_range 49 53] ++ repeat is_hex 3 ++ [is_dash] ++
  [is_variant] ++ repeat is_hex 3 ++ [is_dash] ++
  repeat is_hex 12.

(** A string matches a sequence of classes between [^] and [$]. *)
Fixpoint matches (pat : list (ascii -> bool)) (v : jsstring) : bool :=
  match pat, v with
  | [], [] => true
  | cls :: pat', c :: v' => cls c && matches pat' v'
  | _, _ => false
  end.

Definition isUUID (v : jsstring) : bool := matches uuid_pattern v.

Definition fence : jsstring := lit "```".

(** [s.replace(/^\s*```(?:json)?\s*/i, "")]. *)
Definition strip_open (s : jsstring) : jsstring :=
  let u := dropWhile is_space s in
  if startsWith fence u then
    let v := skipn 3 u in
    let v' := if startsWith (lit "json") (toLowerCase v) then skipn 4 v else v in
    dropWhile is_space v'
  else s.

(** [s.replace(/\s*```\s*$/i, "")]: the match is the last fence with the
    white space around it, when only white space follows that fence. *)
Definition strip_close (s : jsstring) : jsstring :=
  let r := dropWhile is_space (rev s) in
  if startsWith fence r then rev (dropWhile is_space (skipn 3 r)) else s.

Definition stripCodeFences (s : jsstring) : jsstring :=
  trim (strip_close (strip_open s)).

End GraderText.

(** * Specification vocabulary

    Definitions that follow the wording of the specification; the theorems
    below compare them with the code. *)

Module Spec.
Import OcrProcess.

(** The engines a cascade over [order] invokes when an engine [e] may
    also end the cascade by throwing [null] or [undefined] ([rej e]):
    every engine up to and including the first one that does so or whose
    result is meaningful. *)
Fixpoint cascade_ran (r : engine_id -> jsstring)
    (rej : engine_id -> option nullish) (order : list engine_id)
  : list engine_id :=
  match order with
  | [] => []
  | e :: rest =>
      match rej e with
      | Some _ => [e]
      | None =>
          if isMeaningful (r e) then [e] else e :: cascade_ran r rej rest
      end
  end.

(** The first [null] or [undefined] thrown among the engines [ran]. *)
Fixpoint first_rejection (rej : engine_id -> option nullish)
    (ran : list engine_id) : option nullish :=
  match ran with
  | [] => None
  | e :: rest =>
      match rej e with
      | Some v => Some v
      | None => first_rejection rej rest
      end
  end.

(** How a cascade that invoked [ran] ends: with the [TypeError] of the
    closure whose engine threw [null] or [undefined], or else with
    [text]. *)
Definition cascade_result (rej : engine_id -> option nullish)
    (ran : list engine_id) (text : jsstring) : outcome jsstring :=
  match first_rejection rej ran with
  | Some v => Throws (cannot_read_message v)
  | None => Returns text
  end.

(** "The first meaningful result, or the last adapter's result". *)
Definition first_meaningful_or_last (r : engine_id -> jsstring)
    (order : list engine_id) (last : engine_id) : jsstring :=
  match find (fun e => isMeaningful (r e)) order with
  | Some e => r e
  | None => r last
  end.

(** The sentinel of the specification:
    [<prefix><slug(title)>[_<slug(section)>]]. *)
Definition sentinel_form (prefix title section : jsstring) : jsstring :=
  prefix ++ slugify title ++
  match slugify section with
  | [] => []
  | _ :: _ => lit "_" ++ slugify section
  end.

(** No two neighbours of a string are both in class [q]. *)
Fixpoint no_adjacent (q : ascii -> bool) (s : jsstring) : Prop :=
  match s with
  | [] => True
  | c :: r =>
      match r with
      | [] => True
      | d :: _ => q c && q d = false
      end /\ no_adjacent q r
  end.

(** [[0, 1, ..., n-1]]. *)
Definition iota (n : Z) : list Z := map Z.of_nat (seq 0 (Z.to_nat n)).

(** A page list as the specification wants it for a document of
    [pageCount] pages: without duplicates, ascending, inside
    [[0, pageCount)]. *)
Definition page_list_ok (pageCount : Z) (l : list Z) : Prop :=
  NoDup l /\ StronglySorted Z.lt l /\ Forall (fun i => 0 <= i < pageCount) l.

(** What the solution post-processor does to one subpart: full marks and
    the note.  Only an object can be rewritten. *)
Definition subpart_forced {num : Type} {N : Grader.JsNumber num}
    (sp sp' : option (Grader.GradedSubpart num)) : Prop :=
  exists o o',
    sp = Some o /\ sp' = Some o' /\
    Grader.gs_marks o' = Some (Grader.num0 (Grader.gs_max_marks o)) /\
    Grader.gs_max_marks o' = Grader.gs_max_marks o /\
    Grader.gs_label o' = Grader.gs_label o /\
    Grader.gs_remarks o' =
      Grader.add_note (Grader.gs_remarks o) Grader.question_note.

(** The sum of a list of numbers, added one by one from 0 in the order of
    the list. *)
Definition sum_list {num : Type} {N : Grader.JsNumber num} (l : list num) : num :=
  fold_left Grader.num_add l Grader.num_zero.

(** ... and to one question: with subparts the awarded marks are the sum
    of the subparts' maxima, without subparts they are the question's own
    maximum. *)
Definition question_forced {num : Type} {N : Grader.JsNumber num}
    (q q' : option (Grader.GradedQuestion num)) : Prop :=
  exists o o',
    q = Some o /\ q' = Some o' /\
    Grader.gq_max_marks o' = Grader.gq_max_marks o /\
    Grader.gq_number o' = Grader.gq_number o /\
    Grader.gq_topic o' = Grader.gq_topic o /\
    Grader.gq_remarks o' =
      Grader.add_note (Grader.gq_remarks o) Grader.question_note /\
    match Grader.gq_subparts o with
    | Some (sp :: sps) =>
        exists sps',
          Grader.gq_subparts o' = Some sps' /\
          Forall2 subpart_forced (sp :: sps) sps' /\
          Grader.gq_marks o' =
            Some (sum_list
                    (map (fun x => Grader.num0 (Grader.max_of_subpart x))
                         (sp :: sps)))
    | _ =>
        Grader.gq_subparts o' = Grader.gq_subparts o /\
        Grader.gq_marks o' = Some (Grader.num0 (Grader.gq_max_marks o))
    end.

(** What a question counts for in [total_score]: its marks, 0 when they
    are missing or falsy. *)
Definition awarded {num : Type} {N : Grader.JsNumber num}
    (q : option (Grader.GradedQuestion num)) : num :=
  match q with
  | Some o => Grader.marks_or_zero (Grader.gq_marks o)
  | None => Grader.num_zero
  end.

(** Every entry of the [subparts] array of a question, if it has one, is an
    object. *)
Definition subparts_are_objects {num : Type}
    (q : Grader.GradedQuestion num) : bool :=
  match Grader.gq_subparts q with
  | Some sps => forallb Grader.is_object sps
  | None => true
  end.

(** Every entry of [questions], and of every [subparts] array, is an
    object. *)
Definition all_objects {num : Type}
    (qs : list (option (Grader.GradedQuestion num))) : bool :=
  forallb (fun q =>
             match q with
             | Some o =>
                 match Grader.gq_subparts o with
                 | Some sps => forallb Grader.is_object sps
                 | None => true
                 end
             | None => false
             end) qs.

(** A [subparts] array rewritten up to its first entry that is no object. *)
Definition subparts_cut {num : Type} {N : Grader.JsNumber num}
    (sps sps' : list (option (Grader.GradedSubpart num))) : Prop :=
  exists pre pre' post,
    sps = pre ++ None :: post /\
    sps' = pre' ++ None :: post /\
    Forall2 subpart_forced pre pre'.

(** The question at which the rewrite stops: it is no object, or it is an
    object left as it was but for its subparts, which are cut. *)
Definition question_cut {num : Type} {N : Grader.JsNumber num}
    (q q' : option (Grader.GradedQuestion num)) : Prop :=
  (q = None /\ q' = None) \/
  exists o o' sps sps',
    q = Some o /\ q' = Some o' /\
    Grader.gq_subparts o = Some sps /\
    Grader.gq_subparts o' = Some sps' /\
    subparts_cut sps sps' /\
    Grader.gq_marks o' = Grader.gq_marks o /\
    Grader.gq_max_marks o' = Grader.gq_max_marks o /\
    Grader.gq_number o' = Grader.gq_number o /\
    Grader.gq_topic o' = Grader.gq_topic o /\
    Grader.gq_remarks o' = Grader.gq_remarks o.

(** A [questions] array rewritten up to the first question that is no
    object or holds a subpart that is none; what follows it is as it
    was. *)
Definition questions_cut {num : Type} {N : Grader.JsNumber num}
    (qs qs' : list (option (Grader.GradedQuestion num))) : Prop :=
  exists pre pre' bad bad' post,
    qs = pre ++ bad :: post /\
    qs' = pre' ++ bad' :: post /\
    Forall2 question_forced pre pre' /\
    question_cut bad bad'.

End Spec.
Import Spec.

(** Vocabulary for the properties of the code around the claims. *)

Module SpecMore.
Import OcrProcess.

(** The engines of each mode of the handler, in the order of its chain;
    every name other than the five explicit ones selects the "auto" chain. *)
Definition mode_order (engine : jsstring) : list engine_id :=
  if str_eqb engine (lit "vision-pdf") then [VisionPdfNative; VisionImages; Tesseract]
  else if str_eqb engine (lit "images") then [VisionImages; Tesseract]
  else if str_eqb engine (lit "tesseract") then [Tesseract]
  else if str_eqb engine (lit "openai-ocr") then [OpenAIOCR; Tesseract]
  else if str_eqb engine (lit "gemini-ocr") then [GeminiOCR; Tesseract]
  else auto_order.

(** Whether a page of the merged document carries an annotation. *)
Definition annotated (pg : GreenGraded.out_page) : bool :=
  match GreenGraded.annotation pg with
  | Some _ => true
  | None => false
  end.

(** A reader of comma-separated values in the manner of RFC 4180, with
    the line feed as record separator: a field that starts with a double
    quote runs to the closing double quote, a doubled double quote inside
    it standing for one; any other field runs to the next comma or line
    feed.  [cur] is the field, [row] the record and [rows] the records
    read so far. *)
Inductive csv_mode : Type := AtStart | Bare | Quoted | QuoteSeen.

Fixpoint csv_read (mode : csv_mode) (cur : jsstring) (row : list jsstring)
    (rows : list (list jsstring)) (s : jsstring) : list (list jsstring) :=
  match s with
  | [] => rows ++ [row ++ [cur]]
  | c :: r =>
      match mode with
      | Quoted =>
          if GraderCsv.is_dquote c then csv_read QuoteSeen cur row rows r
          else csv_read Quoted (cur ++ [c]) row rows r
      | _ =>
          if GraderCsv.is_comma c then csv_read AtStart [] (row ++ [cur]) rows r
          else if is_newline c then
            csv_read AtStart [] [] (rows ++ [row ++ [cur]]) r
          else if GraderCsv.is_dquote c then
            match mode with
            | AtStart => csv_read Quoted [] row rows r
            | QuoteSeen => csv_read Quoted (cur ++ [c]) row rows r
            | _ => csv_read Bare (cur ++ [c]) row rows r
            end
          else csv_read Bare (cur ++ [c]) row rows r
      end
  end.

Definition csv_parse (s : jsstring) : list (list jsstring) :=
  csv_read AtStart [] [] [] s.

(** A line is a single word or at most [maxChars] long. *)
Definition wrap_fits (maxChars : Z) (g : list jsstring) : Prop :=
  List.length g = 1%nat \/
  Z.of_nat (List.length (JsMore.join space g)) <= maxChars.

(** Greedy grouping of words into lines: the first word of every line but
    the first did not fit at the end of the line before it. *)
Fixpoint wrap_greedy (maxChars : Z) (groups : list (list jsstring)) : Prop :=
  match groups with
  | [] => True
  | g :: rest =>
      match rest with
      | (w :: _) :: _ =>
          maxChars < Z.of_nat (List.length (JsMore.join space (g ++ [w])))
      | _ => True
      end /\ wrap_greedy maxChars rest
  end.

(** Whether page [p] of [page_texts] passes the header test of
    [inferByPageTexts]. *)
Definition header_page (page_texts : list jsstring) (p : Z) : bool :=
  match JsArray.js_nth page_texts p with
  | Some t => PageMap.has_header t
  | None => false
  end.



End SpecMore.
Import SpecMore.

(** * Properties *)

Import OcrProcess PageMap SBAW Grader.

(** ** The helpers on sample inputs *)

Example stripGarbage_sample :
  stripGarbage (lit "  a  b " ++ [LF] ++ lit " c" ++ [LF] ++ lit "d   ") =
  lit "a b c" ++ [LF] ++ lit "d".
Proof. reflexivity. Qed.

Example slugify_sample : slugify (lit "  Quiz 1:  Intro?  ") = lit "quiz_1_intro".
Proof. reflexivity. Qed.

Example slugify_keeps_dash_and_underscore :
  slugify (lit "A_ -B") = lit "a__-b".
Proof. reflexivity. Qed.

(** P1 on its two boundary strings: 29 alphanumeric characters are not
    meaningful, 30 are; other characters do not count. *)
Example isMeaningful_boundary :
  isMeaningful (lit "abcdefghij-klmnopqrst uvwxyz012!") = false /\
  isMeaningful (lit "abcdefghij-klmnopqrst uvwxyz0123") = true.
Proof. split; reflexivity. Qed.

Example evenSplit_sample : evenSplit 7 3 = [[0; 1; 2]; [3; 4]; [5; 6]].
Proof. reflexivity. Qed.

Example normalizeIndices_sample :
  normalizeIndices [PInt 4; PInt 1; PInt 4; PInt 9; POtherNumber; PNotNumber;
                    PInt (-1); PInt 0] 5 = [0; 1; 4].
Proof. reflexivity. Qed.

(** No provided indices and no page texts: the even split. *)
Example even_split_mode_sample :
  map page_indices
      (mapPagesToStudents 7 [empty_student; empty_student; empty_student] None) =
  [Some [PInt 0; PInt 1; PInt 2]; Some [PInt 3; PInt 4]; Some [PInt 5; PInt 6]].
Proof. reflexivity. Qed.

(** Headers on pages 2 and 3 of five, three students: the two blocks go to
    the first two students, the uncovered pages 0 and 1 to the third. *)
Example spillover_sample :
  map page_indices
      (mapPagesToStudents 5 [empty_student; empty_student; empty_student]
         (Some [lit "cover"; lit "index"; lit "Name: A Roll: 1";
                lit "NAME: B ROLL: 2"; lit "more"])) =
  [Some [PInt 2]; Some [PInt 3; PInt 4]; Some [PInt 0; PInt 1]].
Proof. reflexivity. Qed.

(** ** The engine cascade *)

Section Cascade.

Local Open Scope ocr_scope.

Variable w : world.

(** Each [try...] closure records one call; it hands back what
    [adapter_result] says, unless its engine throws [null] or [undefined]:
    then its [catch] throws the [TypeError] of [e.message]. *)
Lemma try_engine_run (e : engine_id) (post : jsstring -> jsstring) st :
  (forall t, e = PdfParse -> post t = stripGarbage t) ->
  (forall t, e <> PdfParse -> post t = t) ->
  try_catch (t <- invoke w e ;; ret (post t)) warn_and_return_empty st =
  (match rejection w (CURRENT_OCR_CTX st) e with
   | Some v => Throws (cannot_read_message v)
   | None => Returns (adapter_result w (CURRENT_OCR_CTX st) e)
   end,
   mkState (CURRENT_OCR_CTX st) (calls st ++ [e]) (extracted_text st)).
Proof.
  intros Hp Hn.
  unfold try_catch, warn_and_return_empty, read_message, bind, invoke,
    log_call, get_ctx, lift, ret, throw, adapter_result, rejection.
  simpl. destruct (engine_run w e (CURRENT_OCR_CTX st)) as [t|msg|v]; simpl;
    try reflexivity.
  destruct e; try (rewrite Hn by discriminate; reflexivity).
  rewrite Hp by reflexivity. reflexivity.
Qed.

Lemma bind_ret_r {A} (m : M A) st : bind m ret st = m st.
Proof. unfold bind, ret. destruct (m st) as [[a|e|v] st']; reflexivity. Qed.

Lemma try_plain (e : engine_id) st :
  e <> PdfParse ->
  try_catch (invoke w e) warn_and_return_empty st =
  (match rejection w (CURRENT_OCR_CTX st) e with
   | Some v => Throws (cannot_read_message v)
   | None => Returns (adapter_result w (CURRENT_OCR_CTX st) e)
   end,
   mkState (CURRENT_OCR_CTX st) (calls st ++ [e]) (extracted_text st)).
Proof.
  intros He.
  rewrite <- (try_engine_run e (fun t => t) st); [|congruence|reflexivity].
  unfold try_catch. rewrite bind_ret_r. reflexivity.
Qed.

Lemma tryPdfParse_run st :
  tryPdfParse w st =
  (match rejection w (CURRENT_OCR_CTX st) PdfParse with
   | Some v => Throws (cannot_read_message v)
   | None => Returns (adapter_result w (CURRENT_OCR_CTX st) PdfParse)
   end,
   mkState (CURRENT_OCR_CTX st) (calls st ++ [PdfParse]) (extracted_text st)).
Proof. apply try_engine_run; [reflexivity|congruence]. Qed.

Lemma tryVisionPdf_run st :
  tryVisionPdf w st =
  (match rejection w (CURRENT_OCR_CTX st) VisionPdfNative with
   | Some v => Throws (cannot_read_message v)
   | None => Returns (adapter_result w (CURRENT_OCR_CTX st) VisionPdfNative)
   end,
   mkState (CURRENT_OCR_CTX st) (calls st ++ [VisionPdfNative])
           (extracted_text st)).
Proof. apply try_plain; discriminate. Qed.

Lemma tryOpenAIOCR_run st :
  tryOpenAIOCR w st =
  (match rejection w (CURRENT_OCR_CTX st) OpenAIOCR with
   | Some v => Throws (cannot_read_message v)
   | None => Returns (adapter_result w (CURRENT_OCR_CTX st) OpenAIOCR)
   end,
   mkState (CURRENT_OCR_CTX st) (calls st ++ [OpenAIOCR]) (extracted_text st)).
Proof. apply try_plain; discriminate. Qed.

Lemma tryGeminiOCR_run st :
  tryGeminiOCR w st =
  (match rejection w (CURRENT_OCR_CTX st) GeminiOCR with
   | Some v => Throws (cannot_read_message v)
   | None => Returns (adapter_result w (CURRENT_OCR_CTX st) GeminiOCR)
   end,
   mkState (CURRENT_OCR_CTX st) (calls st ++ [GeminiOCR]) (extracted_text st)).
Proof. apply try_plain; discriminate. Qed.

Lemma tryImages_run st :
  tryImages w st =
  (match rejection w (CURRENT_OCR_CTX st) VisionImages with
   | Some v => Throws (cannot_read_message v)
   | None => Returns (adapter_result w (CURRENT_OCR_CTX st) VisionImages)
   end,
   mkState (CURRENT_OCR_CTX st) (calls st ++ [VisionImages])
           (extracted_text st)).
Proof. apply try_plain; discriminate. Qed.

Lemma tryTesseract_run st :
  tryTesseract w st =
  (match rejection w (CURRENT_OCR_CTX st) Tesseract with
   | Some v => Throws (cannot_read_message v)
   | None => Returns (adapter_result w (CURRENT_OCR_CTX st) Tesseract)
   end,
   mkState (CURRENT_OCR_CTX st) (calls st ++ [Tesseract]) (extracted_text st)).
Proof. apply try_plain; discriminate. Qed.

End Cascade.

Section CascadeOrder.

Variable r : engine_id -> jsstring.
Variable rej : engine_id -> option nullish.

Lemma cascade_ran_prefix (order : list engine_id) :
  exists k, cascade_ran r rej order = firstn k order /\
            (order <> [] -> (1 <= k)%nat).
Proof.
  induction order as [|e rest IH]; simpl.
  - exists O. split; [reflexivity|congruence].
  - destruct (rej e).
    + exists 1%nat. split; [reflexivity|lia].
    + destruct (isMeaningful (r e)).
      * exists 1%nat. split; [reflexivity|lia].
      * destruct IH as [k [Hk _]]. exists (S k). simpl. rewrite Hk.
        split; [reflexivity|lia].
Qed.

Lemma cascade_ran_In (order : list engine_id) :
  NoDup order ->
  forall k e, nth_error order k = Some e ->
    (In e (cascade_ran r rej order) <->
     forall j e', (j < k)%nat -> nth_error order j = Some e' ->
                  rej e' = None /\ isMeaningful (r e') = false).
Proof.
  induction order as [|e0 rest IH]; intros ND k e Hk.
  - destruct k; discriminate.
  - inversion ND as [|? ? Hnotin ND']; subst.
    destruct k as [|k]; simpl in Hk.
    + injection Hk as <-. split.
      * intros _ j e' Hj. lia.
      * intros _. simpl.
        destruct (rej e0); [|destruct (isMeaningful (r e0))]; left; reflexivity.
    + assert (Hne : e0 <> e).
      { intros ->. apply Hnotin. eapply nth_error_In; eassumption. }
      simpl. destruct (rej e0) eqn:Hr.
      * split.
        -- intros [H|[]]. contradiction.
        -- intros H. destruct (H O e0 ltac:(lia) eq_refl). congruence.
      * destruct (isMeaningful (r e0)) eqn:Hm.
        -- split.
           ++ intros [H|[]]. contradiction.
           ++ intros H. destruct (H O e0 ltac:(lia) eq_refl). congruence.
        -- split.
           ++ intros [H|H]; [contradiction|].
              intros j e' Hj Hj'. destruct j as [|j]; simpl in Hj'.
              ** injection Hj' as <-. auto.
              ** eapply (proj1 (IH ND' k e Hk)); eauto. lia.
           ++ intros H. right. apply (IH ND' k e Hk).
              intros j e' Hj Hj'. apply (H (S j) e'); [lia|exact Hj'].
Qed.

(** A [null] or [undefined] ends the cascade: only the last engine
    invoked can have thrown one. *)
Lemma cascade_ran_rejection (order : list engine_id) :
  forall e v, In e (cascade_ran r rej order) -> rej e = Some v ->
    last (cascade_ran r rej order) e = e /\
    first_rejection rej (cascade_ran r rej order) = Some v.
Proof.
  induction order as [|e0 rest IH]; intros e v Hin Hv; simpl in *;
    [contradiction|].
  destruct (rej e0) eqn:Hr0.
  - destruct Hin as [<-|[]]. simpl. rewrite Hr0. split; congruence.
  - destruct (isMeaningful (r e0)).
    + destruct Hin as [<-|[]]. congruence.
    + destruct Hin as [<-|Hin]; [congruence|].
      destruct (IH e v Hin Hv) as [Hl Hf].
      cbn [first_rejection]. rewrite Hr0. split; [|exact Hf].
      destruct (cascade_ran r rej rest); [contradiction|exact Hl].
Qed.

End CascadeOrder.

Lemma first_rejection_none (rej : engine_id -> option nullish)
    (ran : list engine_id) :
  first_rejection rej ran = None <-> forall e, In e ran -> rej e = None.
Proof.
  induction ran as [|e ran IH]; simpl; [tauto|].
  destruct (rej e) eqn:Hr.
  - split; [discriminate|]. intros H. specialize (H e (or_introl eq_refl)).
    congruence.
  - rewrite IH. split; intros H.
    + intros e' [<-|He']; auto.
    + intros e' He'. apply H. now right.
Qed.

Lemma auto_order_NoDup : NoDup auto_order.
Proof.
  unfold auto_order.
  repeat (constructor; [simpl; intuition discriminate|]). constructor.
Qed.

Lemma mode_order_cases (engine : jsstring) :
  In (mode_order engine)
     [[VisionPdfNative; VisionImages; Tesseract]; [VisionImages; Tesseract];
      [Tesseract]; [OpenAIOCR; Tesseract]; [GeminiOCR; Tesseract]; auto_order].
Proof.
  unfold mode_order.
  repeat match goal with
         | |- context [str_eqb engine ?l] => destruct (str_eqb engine l)
         end; simpl; tauto.
Qed.

(** One link of a chain: decide [isMeaningful] on the text so far (reusing
    a decision already made), run the next closure if it is false, and see
    whether its engine threw [null] or [undefined]. *)
Ltac cascade_step w c r :=
  try unfold bind at 1;
  try (unfold unless_meaningful at 1;
       first
         [ match goal with
           | H : isMeaningful ?x = _ |- context [isMeaningful ?x] => rewrite !H
           end
         | match goal with
           | |- context [isMeaningful (r ?e)] =>
               destruct (isMeaningful (r e)) eqn:?
           end ];
       cbv [negb]);
  rewrite ?tryPdfParse_run, ?tryVisionPdf_run, ?tryOpenAIOCR_run,
    ?tryGeminiOCR_run, ?tryImages_run, ?tryTesseract_run;
  cbn [CURRENT_OCR_CTX calls extracted_text ret]; fold c; fold r;
  try match goal with
      | |- context [rejection w c ?e] => destruct (rejection w c e) eqn:?
      end;
  cbv beta iota.

(** The end of a chain: the engines invoked and the result, from the
    decisions made on the way. *)
Ltac cascade_leaf w c r :=
  unfold cascade_result, first_meaningful_or_last, auto_order;
  repeat (cbn [cascade_ran first_rejection find];
          first
            [ match goal with
              | H : rejection w c ?e = _ |- context [rejection w c ?e] =>
                  rewrite H
              end
            | match goal with
              | H : isMeaningful ?x = _ |- context [isMeaningful ?x] =>
                  rewrite H
              end
            | match goal with
              | |- context [isMeaningful (r Tesseract)] =>
                  destruct (isMeaningful (r Tesseract)) eqn:?
              end ]);
  cbn [cascade_ran first_rejection find];
  unfold ret; rewrite <- ?app_assoc; reflexivity.

(** The chain of every mode, run on any state. *)
Lemma run_engine_mode (w : world) (engine : jsstring) (st : server_state) :
  let c := CURRENT_OCR_CTX st in
  let r := adapter_result w c in
  let ran := cascade_ran r (rejection w c) (mode_order engine) in
  run_engine w engine st =
  (cascade_result (rejection w c) ran
     (first_meaningful_or_last r (mode_order engine) Tesseract),
   mkState c (calls st ++ ran) (extracted_text st)).
Proof.
  intros c r ran. unfold ran, run_engine, mode_order.
  repeat match goal with
         | |- context [str_eqb engine ?l] => destruct (str_eqb engine l)
         end;
    repeat cascade_step w c r;
    cascade_leaf w c r.
Qed.

Lemma mode_order_auto : mode_order (lit "auto") = auto_order.
Proof. reflexivity. Qed.

(** C4 (auto cascade order and short-circuit).  In "auto" mode the engines
    invoked are an initial segment of the fixed order embedded-text
    extraction, native-PDF OCR, OpenAI OCR, Gemini OCR, image-variant OCR,
    Tesseract; an engine is invoked if and only if every earlier engine
    handed back a result and that result is not meaningful (fewer than 30
    alphanumeric characters); when every engine invoked hands back a
    result, the text handed on is the first meaningful result, or the
    result of the last engine when none is meaningful.  An engine that
    throws [null] or [undefined] hands back no result: the cascade ends
    there with a [TypeError]. *)
Theorem auto_cascade_order_and_short_circuit :
  forall (w : world) (st : server_state),
    let c := CURRENT_OCR_CTX st in
    let r := adapter_result w c in
    exists ran : list engine_id,
      run_engine w (lit "auto") st =
        (cascade_result (rejection w c) ran
           (first_meaningful_or_last r auto_order Tesseract),
         mkState c (calls st ++ ran) (extracted_text st)) /\
      auto_order =
        [PdfParse; VisionPdfNative; OpenAIOCR; GeminiOCR; VisionImages; Tesseract] /\
      (exists k, ran = firstn k auto_order) /\
      (forall k e, nth_error auto_order k = Some e ->
         (In e ran <->
          forall j e', (j < k)%nat -> nth_error auto_order j = Some e' ->
                       rejection w c e' = None /\
                       isMeaningful (r e') = false)) /\
      ((forall e, In e ran -> rejection w c e = None) ->
       cascade_result (rejection w c) ran
         (first_meaningful_or_last r auto_order Tesseract) =
       Returns (first_meaningful_or_last r auto_order Tesseract)) /\
      (forall s, isMeaningful s = (30 <=? List.length (filter is_alnum s))%nat).
Proof.
  intros w st c r. exists (cascade_ran r (rejection w c) auto_order).
  split; [apply (run_engine_mode w (lit "auto") st)|].
  split; [reflexivity|].
  split.
  { destruct (cascade_ran_prefix r (rejection w c) auto_order) as [k [Hk _]].
    now exists k. }
  split; [apply cascade_ran_In, auto_order_NoDup|].
  split; [|reflexivity].
  intros Hnone. unfold cascade_result.
  apply first_rejection_none in Hnone. now rewrite Hnone.
Qed.

(** ** The naming context *)

(** A request that reaches the cascade: how the cascade ends and what the
    handler then answers and leaves behind.  The reset follows the
    cascade, so a cascade that throws skips it. *)
Lemma handler_after_cascade (w : world) (engine : jsstring) (st : server_state)
    (quiz : Quiz) :
  quiz_lookup w = Some quiz ->
  download_ok w = true ->
  write_temp w = Returns tt ->
  let c := populated_ctx quiz in
  let r := adapter_result w c in
  let ran := cascade_ran r (rejection w c) (mode_order engine) in
  let raw := first_meaningful_or_last r (mode_order engine) Tesseract in
  run_engine w engine (mkState c (calls st) (extracted_text st)) =
    (cascade_result (rejection w c) ran raw,
     mkState c (calls st ++ ran) (extracted_text st)) /\
  process_quiz w engine st =
    match first_rejection (rejection w c) ran with
    | Some v =>
        (Json500 (cannot_read_message v),
         mkState c (calls st ++ ran) (extracted_text st))
    | None =>
        match update_error w with
        | Some e =>
            (Json500 e,
             mkState neutral_ctx (calls st ++ ran) (extracted_text st))
        | None =>
            match unlink_temp w with
            | Returns _ =>
                (Json200 (cleanExtractedText raw),
                 mkState neutral_ctx (calls st ++ ran)
                         (JValue (cleanExtractedText raw)))
            | Throws e =>
                (Json500 e,
                 mkState neutral_ctx (calls st ++ ran)
                         (JValue (cleanExtractedText raw)))
            | ThrowsNullish _ =>
                (NoResponse,
                 mkState neutral_ctx (calls st ++ ran)
                         (JValue (cleanExtractedText raw)))
            end
        end
    end.
Proof.
  intros Hq Hd Hw c r ran raw.
  pose proof (run_engine_mode w engine
                (mkState c (calls st) (extracted_text st))) as Hrun.
  cbv zeta in Hrun. cbn [CURRENT_OCR_CTX calls extracted_text] in Hrun.
  fold c r ran raw in Hrun.
  split; [exact Hrun|].
  unfold process_quiz, try_catch, handler_body. rewrite Hq, Hd.
  unfold bind at 1. unfold ret at 1. unfold bind at 1. unfold lift at 1.
  rewrite Hw. unfold bind at 1. unfold set_ctx at 1. unfold bind at 1.
  fold c. rewrite Hrun. unfold cascade_result.
  destruct (first_rejection (rejection w c) ran) as [v|]; [reflexivity|].
  unfold bind at 1. unfold set_ctx at 1.
  cbn [CURRENT_OCR_CTX calls extracted_text].
  destruct (update_error w) as [e|]; [reflexivity|].
  unfold bind, store_text, lift, ret. simpl.
  destruct (unlink_temp w) as [[]|e|v]; reflexivity.
Qed.

(** A run that stops before the context is written changes nothing and is
    not answered with a success. *)
Lemma handler_early_exit (w : world) (engine : jsstring) (st : server_state) :
  reaches_populate w = false ->
  snd (process_quiz w engine st) = st /\
  forall text, fst (process_quiz w engine st) <> Json200 text.
Proof.
  unfold reaches_populate, process_quiz, try_catch, handler_body.
  destruct (quiz_lookup w) as [quiz|]; [|split; [reflexivity|discriminate]].
  destruct (write_temp w) as [[]|e|v]; destruct (download_ok w);
    try discriminate; intros _; split; try reflexivity; discriminate.
Qed.

(** The context a request leaves behind, in every case: the neutral
    default once the reset is reached; the context written for the quiz
    when an engine of the cascade threw [null] or [undefined], because the
    [TypeError] of its closure's [catch] leaves the [try] body before the
    reset; the context it found when it stops before writing it. *)
Lemma context_after_request (w : world) (engine : jsstring) (st : server_state) :
  CURRENT_OCR_CTX (snd (process_quiz w engine st)) =
  match quiz_lookup w with
  | Some quiz =>
      if reaches_populate w then
        let c := populated_ctx quiz in
        match first_rejection (rejection w c)
                (cascade_ran (adapter_result w c) (rejection w c)
                             (mode_order engine)) with
        | Some _ => c
        | None => neutral_ctx
        end
      else CURRENT_OCR_CTX st
  | None => CURRENT_OCR_CTX st
  end.
Proof.
  destruct (reaches_populate w) eqn:Hreach.
  - unfold reaches_populate in Hreach.
    destruct (quiz_lookup w) as [quiz|] eqn:Hq; [|discriminate].
    destruct (write_temp w) as [[]|e|v] eqn:Hw; try discriminate.
    destruct (handler_after_cascade w engine st quiz Hq Hreach Hw) as [_ Hp].
    rewrite Hp. cbv zeta.
    destruct (first_rejection _ _); [reflexivity|].
    destruct (update_error w); [reflexivity|].
    destruct (unlink_temp w); reflexivity.
  - destruct (handler_early_exit w engine st Hreach) as [Hst _].
    rewrite Hst. destruct (quiz_lookup w); reflexivity.
Qed.


(** A run that ends in the handler's [catch] after the cascade: the update
    of the quiz row fails, the response is a 500, the context is neutral. *)
Example reset_before_failed_update :
  let quiz := mkQuiz (JValue (lit "Quiz 1")) (JValue (lit "A")) (JValue 2)
                     JNull None in
  let w := mkWorld (Some quiz) true (Returns tt)
                   (fun _ _ => Throws (lit "engine down"))
                   (Some (lit "row locked")) (Returns tt) in
  process_quiz w (lit "auto") (mkState initial_ctx [] JNull) =
  (Json500 (lit "row locked"), mkState neutral_ctx auto_order JNull).
Proof. reflexivity. Qed.

(** ** Facts about the string primitives *)

Section StringFacts.

Variable p : ascii -> bool.

Lemma dropWhile_app_stop (a b : jsstring) :
  existsb (fun c => negb (p c)) a = true ->
  dropWhile p (a ++ b) = dropWhile p a ++ b.
Proof.
  induction a as [|c a IH]; simpl; [discriminate|].
  destruct (p c); simpl; auto.
Qed.

Lemma existsb_rev (q : ascii -> bool) (l : jsstring) :
  existsb q (rev l) = existsb q l.
Proof.
  induction l as [|c l IH]; simpl; [reflexivity|].
  rewrite existsb_app, IH. simpl. rewrite orb_false_r. apply orb_comm.
Qed.

Lemma dropWhileEnd_app_stop (a b : jsstring) :
  existsb (fun c => negb (p c)) b = true ->
  dropWhileEnd p (a ++ b) = a ++ dropWhileEnd p b.
Proof.
  intros H. unfold dropWhileEnd.
  rewrite rev_app_distr, dropWhile_app_stop by (now rewrite existsb_rev).
  now rewrite rev_app_distr, rev_involutive.
Qed.

End StringFacts.

Section TrimFacts.

Variable p : ascii -> bool.

Lemma dropWhile_idem (s : jsstring) : dropWhile p (dropWhile p s) = dropWhile p s.
Proof.
  induction s as [|c s IH]; simpl; [reflexivity|].
  destruct (p c) eqn:E; [exact IH|]. simpl. now rewrite E.
Qed.

Lemma dropWhile_length (s : jsstring) :
  (List.length (dropWhile p s) <= List.length s)%nat.
Proof.
  induction s as [|c s IH]; simpl; [lia|]. destruct (p c); simpl; lia.
Qed.

(** A string that [dropWhile] leaves alone is empty or starts outside the
    class. *)
Lemma dropWhile_fixed_head (c : ascii) (s : jsstring) :
  dropWhile p (c :: s) = c :: s -> p c = false.
Proof.
  simpl. destruct (p c); [|reflexivity].
  intros H. pose proof (dropWhile_length s) as Hl. rewrite H in Hl.
  simpl in Hl. lia.
Qed.

Lemma dropWhile_snoc (s : jsstring) (c : ascii) :
  p c = false -> dropWhile p (s ++ [c]) = dropWhile p s ++ [c].
Proof.
  intros Hc. induction s as [|d s IH]; simpl; [now rewrite Hc|].
  destruct (p d); auto.
Qed.

Lemma dropWhileEnd_cons (c : ascii) (s : jsstring) :
  p c = false -> dropWhileEnd p (c :: s) = c :: dropWhileEnd p s.
Proof.
  intros Hc. unfold dropWhileEnd. simpl.
  rewrite dropWhile_snoc by exact Hc. now rewrite rev_app_distr.
Qed.

Lemma dropWhileEnd_idem (s : jsstring) :
  dropWhileEnd p (dropWhileEnd p s) = dropWhileEnd p s.
Proof.
  unfold dropWhileEnd. now rewrite rev_involutive, dropWhile_idem.
Qed.

Lemma dropWhile_dropWhileEnd (s : jsstring) :
  dropWhile p s = s -> dropWhile p (dropWhileEnd p s) = dropWhileEnd p s.
Proof.
  destruct s as [|c s]; [reflexivity|]. intros H.
  apply dropWhile_fixed_head in H.
  rewrite dropWhileEnd_cons by exact H. simpl. now rewrite H.
Qed.

(** Doubling a string whose two ends are outside the class, around a
    separator, leaves nothing to strip at either end. *)
Lemma strip_doubled (n sep : jsstring) :
  n <> [] ->
  dropWhile p n = n -> dropWhileEnd p n = n ->
  dropWhileEnd p (dropWhile p (n ++ sep ++ n)) = n ++ sep ++ n.
Proof.
  intros Hne Hd He. destruct n as [|c r]; [contradiction|].
  pose proof (dropWhile_fixed_head _ _ Hd) as Hc.
  assert (Hfront : dropWhile p ((c :: r) ++ sep ++ c :: r) =
                   (c :: r) ++ sep ++ c :: r) by (simpl; now rewrite Hc).
  rewrite Hfront.
  rewrite (app_assoc (c :: r) sep (c :: r)).
  rewrite dropWhileEnd_app_stop; [now rewrite He|].
  simpl. now rewrite Hc.
Qed.

End TrimFacts.

Lemma trim_fixed (s : jsstring) :
  dropWhile is_space (trim s) = trim s /\ dropWhileEnd is_space (trim s) = trim s.
Proof.
  unfold trim. split.
  - apply dropWhile_dropWhileEnd, dropWhile_idem.
  - apply dropWhileEnd_idem.
Qed.

(** The name written back: the trimmed name twice, one space between. *)
Lemma doubled_name (s : jsstring) :
  trim (trim s ++ lit " " ++ trim s) =
  match trim s with
  | [] => []
  | _ :: _ => trim s ++ lit " " ++ trim s
  end.
Proof.
  destruct (trim_fixed s) as [Hd He].
  destruct (trim s) as [|c r] eqn:E; [reflexivity|].
  unfold trim at 1. apply strip_doubled; auto. discriminate.
Qed.

(** ** Sentinel names: producer and consumer *)

Lemma startsWith_app (pre s : jsstring) : startsWith pre (pre ++ s) = true.
Proof.
  induction pre as [|c pre IH]; simpl; [reflexivity|].
  now rewrite Ascii.eqb_refl, IH.
Qed.

Lemma slugify_chars (s : jsstring) :
  Forall (fun c => is_slug_char c = true) (slugify s).
Proof.
  unfold slugify, keep_only. apply Forall_forall. intros c Hc.
  apply filter_In in Hc. tauto.
Qed.

(** A name made of a literal prefix that does not start with an underscore
    and a core that holds some other character than the underscore. *)
Lemma strip_underscores_prefixed (prefix core : jsstring) :
  dropWhile is_underscore prefix = prefix ->
  existsb (fun c => negb (is_underscore c)) prefix = true ->
  existsb (fun c => negb (is_underscore c)) core = true ->
  strip_underscores (prefix ++ core) = prefix ++ dropWhileEnd is_underscore core.
Proof.
  intros Hd Hp Hc. unfold strip_underscores.
  rewrite dropWhile_app_stop, Hd by exact Hp.
  now apply dropWhileEnd_app_stop.
Qed.

Lemma sentinel_name_unknown (rest : jsstring) :
  sentinel_name (lit "unknown_" ++ rest) = true.
Proof.
  unfold sentinel_name, toLowerCase. rewrite map_app.
  change (map lower_char (lit "unknown_")) with (lit "unknown_").
  now rewrite startsWith_app.
Qed.

Lemma sentinel_name_solution (rest : jsstring) :
  sentinel_name (lit "solution_paper_" ++ rest) = true.
Proof.
  unfold sentinel_name, toLowerCase. rewrite map_app.
  change (map lower_char (lit "solution_paper_")) with (lit "solution_paper_").
  rewrite startsWith_app. apply orb_true_r.
Qed.

(** C2, as the code has it.  The two sentinels are the specified strings
    with trailing underscores removed; whenever the part after the prefix,
    [slug(title)[_slug(section)]], holds a character other than the
    underscore, both sentinels keep their prefix, and every mapped entry
    named by one of them is recognised by the solution-detection predicate
    of [pickSolutionIndex]. *)
Theorem sentinel_names_recognised :
  forall (ctx : OcrNamingContext),
    let title := str_or (quizTitle ctx) [] in
    let sect := str_or (section ctx) [] in
    let core := name_core (slugify title) (slugify sect) in
    existsb (fun c => negb (is_underscore c)) core = true ->
    sentinel_form (lit "solution_paper_") title sect = lit "solution_paper_" ++ core /\
    sentinel_form (lit "unknown_") title sect = lit "unknown_" ++ core /\
    solutionName ctx = lit "solution_paper_" ++ dropWhileEnd is_underscore core /\
    unknownName ctx = lit "unknown_" ++ dropWhileEnd is_underscore core /\
    forall m : mapped_entry,
      student_name (student m) = Some (solutionName ctx) \/
      student_name (student m) = Some (unknownName ctx) ->
      looks_like_solution m = true.
Proof.
  intros ctx title sect core Hcore.
  assert (Hs : solutionName ctx = lit "solution_paper_" ++ dropWhileEnd is_underscore core).
  { unfold solutionName. fold title sect core.
    apply strip_underscores_prefixed; auto. }
  assert (Hu : unknownName ctx = lit "unknown_" ++ dropWhileEnd is_underscore core).
  { unfold unknownName. fold title sect core.
    apply strip_underscores_prefixed; auto. }
  repeat split; auto.
  intros m [H|H]; unfold looks_like_solution; rewrite H; simpl nullish_or.
  - rewrite Hs. apply sentinel_name_solution.
  - rewrite Hu. apply sentinel_name_unknown.
Qed.

Lemma sentinel_names_recognised_witness :
  let ctx := mkCtx true (JValue (lit "Quiz 1: Intro")) (JValue (lit "BS-CS A")) 2 in
  solutionName ctx = lit "solution_paper_quiz_1_intro_bs-cs_a" /\
  unknownName ctx = lit "unknown_quiz_1_intro_bs-cs_a" /\
  looks_like_solution (mkMapped 0 0
     (mkStudent (Some (solutionName ctx)) None None None None None None)) = true.
Proof.
  intros ctx.
  destruct (sentinel_names_recognised ctx eq_refl) as (_ & _ & Hs & Hu & Hrec).
  split; [rewrite Hs; reflexivity|].
  split; [rewrite Hu; reflexivity|].
  apply Hrec. left. reflexivity.
Defined.

(** C2, as stated, fails.  On the title "Unit 3 :" the sentinels are not
    of the specified form: the underscore that ends the slug is removed.
    On a quiz uploaded without title and section (both are optional) the
    sentinels lose the underscore that ends their prefix, and the
    consumer's prefix match rejects them. *)
Lemma sentinel_names_counterexample :
  let unit3 := populated_ctx (mkQuiz (JValue (lit "Unit 3 :")) JNull JNull
                                     (JValue true) None) in
  let untitled := populated_ctx (mkQuiz JNull JNull JNull (JValue true) None) in
  (sentinel_form (lit "solution_paper_") (lit "Unit 3 :") [] =
     lit "solution_paper_unit_3_" /\
   solutionName unit3 = lit "solution_paper_unit_3" /\
   unknownName unit3 = lit "unknown_unit_3") /\
  (solutionName untitled = lit "solution_paper" /\
   unknownName untitled = lit "unknown" /\
   solutionName untitled <> sentinel_form (lit "solution_paper_") [] [] /\
   unknownName untitled <> sentinel_form (lit "unknown_") [] [] /\
   sentinel_name (solutionName untitled) = false /\
   sentinel_name (unknownName untitled) = false).
Proof.
  cbv zeta. repeat split; try reflexivity; vm_compute; discriminate.
Qed.

(** ** Sanitising the extracted text *)

Section SafeChars.

Variable P : ascii -> Prop.

Lemma Forall_dropWhile (q : ascii -> bool) (s : jsstring) :
  Forall P s -> Forall P (dropWhile q s).
Proof.
  induction 1 as [|c s Hc Hs IH]; simpl; [constructor|].
  destruct (q c); auto.
Qed.

Lemma Forall_dropWhileEnd (q : ascii -> bool) (s : jsstring) :
  Forall P s -> Forall P (dropWhileEnd q s).
Proof.
  intros H. unfold dropWhileEnd.
  apply Forall_rev, Forall_dropWhile, Forall_rev, H.
Qed.

Lemma Forall_trim (s : jsstring) : Forall P s -> Forall P (trim s).
Proof. intros H. apply Forall_dropWhileEnd, Forall_dropWhile, H. Qed.

Lemma Forall_flush_run (k : nat) (rep run : jsstring) :
  Forall P rep -> Forall P run -> Forall P (flush_run k rep run).
Proof. intros. unfold flush_run. destruct (k <=? List.length run)%nat; auto. Qed.

Lemma Forall_replace_runs_from (q : ascii -> bool) (k : nat) (rep : jsstring) :
  Forall P rep ->
  forall s run, Forall P run -> Forall P s ->
                Forall P (replace_runs_from q k rep run s).
Proof.
  intros Hrep. induction s as [|c s IH]; intros run Hrun Hs; simpl.
  - now apply Forall_flush_run.
  - inversion Hs; subst. destruct (q c).
    + apply IH; auto. apply Forall_app; auto.
    + apply Forall_app. split; [now apply Forall_flush_run|].
      constructor; auto.
Qed.

Lemma Forall_replace_runs (q : ascii -> bool) (k : nat) (rep s : jsstring) :
  Forall P rep -> Forall P s -> Forall P (replace_runs q k rep s).
Proof. intros. apply Forall_replace_runs_from; auto. Qed.

End SafeChars.

(** The part of the output contract that holds: only printable ASCII and
    line feeds reach the stored text. *)
Lemma cleanExtractedText_safe (text : jsstring) :
  Forall (fun c => is_safe c = true) (cleanExtractedText text).
Proof.
  unfold cleanExtractedText.
  apply Forall_trim, Forall_replace_runs; [repeat constructor|].
  apply Forall_replace_runs; [repeat constructor|].
  apply Forall_forall. intros c Hc. apply filter_In in Hc. tauto.
Qed.

Lemma no_adjacent_weaken (q q' : ascii -> bool) (s : jsstring) :
  (forall c, q' c = true -> q c = true) ->
  no_adjacent q s -> no_adjacent q' s.
Proof.
  intros Hq. induction s as [|c r IH]; simpl; [auto|].
  intros [H1 H2]. split; [|auto].
  destruct r as [|d r']; [auto|].
  destruct (q' c) eqn:Ec, (q' d) eqn:Ed; simpl; auto.
  rewrite (Hq _ Ec), (Hq _ Ed) in H1. discriminate.
Qed.

Lemma no_adjacent_cons_other (q : ascii -> bool) (c : ascii) (s : jsstring) :
  q c = false -> no_adjacent q s -> no_adjacent q (c :: s).
Proof.
  intros Hc Hs. simpl. split; [|exact Hs].
  destruct s; [auto|]. now rewrite Hc.
Qed.

(** After [/\s{2,}/g] has been replaced by a space no two whitespace
    characters are neighbours. *)
Lemma collapse_no_adjacent (s : jsstring) :
  forall run,
    Forall (fun c => is_space c = true) run ->
    no_adjacent is_space (replace_runs_from is_space 2 space run s).
Proof.
  assert (Hflush : forall run rest,
             match rest with
             | [] => True
             | d :: _ => is_space d = false
             end ->
             no_adjacent is_space rest ->
             no_adjacent is_space (flush_run 2 space run ++ rest)).
  { intros run rest Hhd Hrest. unfold flush_run.
    destruct run as [|a [|b run']]; simpl List.length; cbn [Nat.leb app].
    - exact Hrest.
    - simpl. split; [|exact Hrest].
      destruct rest; [auto|]. rewrite Hhd. apply andb_false_r.
    - simpl. split; [|exact Hrest].
      destruct rest; [auto|]. rewrite Hhd. reflexivity. }
  induction s as [|c s IH]; intros run Hrun; simpl.
  - rewrite <- (app_nil_r (flush_run _ _ _)). apply Hflush; simpl; auto.
  - destruct (is_space c) eqn:Ec.
    + apply IH. apply Forall_app. auto.
    + apply Hflush; [exact Ec|].
      apply no_adjacent_cons_other; [exact Ec|]. apply IH. constructor.
Qed.

(** On a string without two neighbours in class [q], [/q{k,}/g] with
    [k >= 2] matches nothing. *)
Lemma short_runs_identity (q : ascii -> bool) (k : nat) (rep s : jsstring) :
  (2 <= k)%nat ->
  forall run,
    (List.length run <= 1)%nat ->
    Forall (fun c => q c = true) run ->
    no_adjacent q (run ++ s) ->
    replace_runs_from q k rep run s = run ++ s.
Proof.
  intros Hk.
  assert (Hflush : forall run, (List.length run <= 1)%nat ->
                               flush_run k rep run = run).
  { intros run Hl. unfold flush_run.
    destruct (Nat.leb_spec k (List.length run)); [lia|reflexivity]. }
  induction s as [|c s IH]; intros run Hlen Hrun Hadj; simpl.
  - rewrite app_nil_r. now apply Hflush.
  - destruct (q c) eqn:Ec.
    + destruct run as [|a [|b run']]; simpl in Hlen; try lia.
      * simpl app. rewrite IH; simpl; auto.
      * inversion Hrun; subst. simpl in Hadj. destruct Hadj as [Hadj _].
        rewrite H1, Ec in Hadj. discriminate.
    + rewrite Hflush by exact Hlen. f_equal. f_equal.
      apply (IH []); simpl; auto.
      clear - Hadj. induction run as [|a run IHr]; simpl in *; [tauto|].
      apply IHr. tauto.
Qed.

Lemma no_adjacent_app_l (q : ascii -> bool) (a b : jsstring) :
  no_adjacent q (a ++ b) -> no_adjacent q a.
Proof.
  induction a as [|c a IH]; simpl; [auto|].
  intros [H1 H2]. split; [|auto].
  destruct a; [auto|exact H1].
Qed.

Lemma no_adjacent_dropWhile (q p : ascii -> bool) (s : jsstring) :
  no_adjacent q s -> no_adjacent q (dropWhile p s).
Proof.
  induction s as [|c s IH]; [auto|].
  intros H. cbn [dropWhile]. destruct (p c); [|exact H].
  apply IH. simpl in H. tauto.
Qed.

Lemma dropWhile_suffix (p : ascii -> bool) (s : jsstring) :
  exists a, s = a ++ dropWhile p s.
Proof.
  induction s as [|c s [a Ha]]; simpl; [exists []; reflexivity|].
  destruct (p c); [|exists []; reflexivity].
  exists (c :: a). simpl. now f_equal.
Qed.

Lemma dropWhileEnd_prefix (p : ascii -> bool) (s : jsstring) :
  exists b, s = dropWhileEnd p s ++ b.
Proof.
  destruct (dropWhile_suffix p (rev s)) as [a Ha].
  exists (rev a). unfold dropWhileEnd.
  rewrite <- rev_app_distr, <- Ha. symmetry. apply rev_involutive.
Qed.

Lemma no_adjacent_trim (q : ascii -> bool) (s : jsstring) :
  no_adjacent q s -> no_adjacent q (trim s).
Proof.
  intros H. unfold trim.
  destruct (dropWhileEnd_prefix is_space (dropWhile is_space s)) as [b Hb].
  apply no_adjacent_app_l with (b := b). rewrite <- Hb.
  now apply no_adjacent_dropWhile.
Qed.

Lemma keep_only_all (q : ascii -> bool) (s : jsstring) :
  Forall (fun c => q c = true) s -> keep_only q s = s.
Proof.
  induction 1 as [|c s Hc Hs IH]; simpl; [reflexivity|].
  rewrite Hc. now f_equal.
Qed.

Lemma newline_is_space (c : ascii) : is_newline c = true -> is_space c = true.
Proof.
  unfold is_newline, is_space, in_range, code.
  intros H. apply N.eqb_eq in H. now rewrite H.
Qed.

(** The [/\n{3,}/g] step of [cleanExtractedText] changes nothing: a run of
    line feeds long enough for it is a whitespace run that the step before
    has turned into one space.  So the text stored is the text that
    [stripGarbage] gives. *)
Lemma cleanExtractedText_is_stripGarbage (text : jsstring) :
  cleanExtractedText text = stripGarbage text.
Proof.
  unfold cleanExtractedText, stripGarbage. f_equal.
  unfold replace_runs at 1.
  apply (short_runs_identity is_newline 3 _ _ ltac:(lia) []); simpl; auto.
  apply no_adjacent_weaken with (q := is_space); [apply newline_is_space|].
  apply collapse_no_adjacent. constructor.
Qed.

Lemma stripGarbage_safe (text : jsstring) :
  Forall (fun c => is_safe c = true) (stripGarbage text).
Proof.
  rewrite <- cleanExtractedText_is_stripGarbage. apply cleanExtractedText_safe.
Qed.

Lemma trim_idem (s : jsstring) : trim (trim s) = trim s.
Proof.
  destruct (trim_fixed s) as [Hd He]. unfold trim at 1. now rewrite Hd, He.
Qed.

(** Sanitising twice is sanitising once. *)
Lemma stripGarbage_idem (text : jsstring) :
  stripGarbage (stripGarbage text) = stripGarbage text.
Proof.
  assert (Hadj : no_adjacent is_space (stripGarbage text)).
  { unfold stripGarbage. apply no_adjacent_trim, collapse_no_adjacent.
    constructor. }
  unfold stripGarbage at 1.
  rewrite keep_only_all by apply stripGarbage_safe.
  unfold replace_runs.
  rewrite (short_runs_identity is_space 2 _ _ ltac:(lia) []); simpl; auto.
  unfold stripGarbage. apply trim_idem.
Qed.

(** A run replacement splits at a character outside the class. *)
Lemma replace_runs_from_split (q : ascii -> bool) (k : nat) (rep : jsstring)
    (x : ascii) (b : jsstring) :
  (1 <= k)%nat -> q x = false ->
  forall a run,
    replace_runs_from q k rep run (a ++ x :: b) =
    replace_runs_from q k rep run (a ++ [x]) ++ replace_runs_from q k rep [] b.
Proof.
  intros Hk Hx.
  assert (Hnil : flush_run k rep [] = []).
  { unfold flush_run. destruct (Nat.leb_spec k (@List.length ascii [])); auto.
    simpl in *. lia. }
  induction a as [|c a IH]; intros run; simpl.
  - rewrite Hx, Hnil, <- app_assoc. reflexivity.
  - destruct (q c); [apply IH|]. rewrite IH, <- app_assoc. reflexivity.
Qed.

Lemma replace_runs_from_last (q : ascii -> bool) (k : nat) (rep : jsstring)
    (x : ascii) :
  (1 <= k)%nat -> q x = false ->
  forall a run, exists front,
    replace_runs_from q k rep run (a ++ [x]) = front ++ [x].
Proof.
  intros Hk Hx.
  assert (Hnil : flush_run k rep [] = []).
  { unfold flush_run. destruct (Nat.leb_spec k (@List.length ascii [])); auto.
    simpl in *. lia. }
  induction a as [|c a IH]; intros run; simpl.
  - rewrite Hx, Hnil. eexists. reflexivity.
  - destruct (q c); [apply IH|].
    destruct (IH []) as [front Hf]. rewrite Hf.
    exists (flush_run k rep run ++ c :: front).
    now rewrite <- app_assoc.
Qed.

(** A line feed of the raw text whose two neighbours are kept and are not
    whitespace is a line feed of the sanitised text: the text is sanitised
    on either side of it. *)
Lemma lone_newline_kept (a b : jsstring) (x y : ascii) :
  is_safe x = true -> is_space x = false ->
  is_safe y = true -> is_space y = false ->
  stripGarbage (a ++ x :: LF :: y :: b) =
  dropWhile is_space
    (replace_runs is_space 2 space (keep_only is_safe (a ++ [x]))) ++
  LF :: dropWhileEnd is_space
          (replace_runs is_space 2 space (keep_only is_safe (y :: b))).
Proof.
  intros Hsx Hx Hsy Hy.
  unfold stripGarbage, keep_only, replace_runs.
  rewrite !filter_app. cbn [filter]. rewrite Hsx, Hsy.
  change (is_safe LF) with true. cbv iota.
  rewrite (replace_runs_from_split is_space 2 space x _ ltac:(lia) Hx).
  destruct (replace_runs_from_last is_space 2 space x ltac:(lia) Hx
              (filter is_safe a) []) as [front Hfront].
  cbn [app] in *. rewrite Hfront.
  set (B := replace_runs_from is_space 2 space [] (y :: filter is_safe b)).
  assert (HB : existsb (fun c => negb (is_space c)) B = true).
  { unfold B. cbn [replace_runs_from]. rewrite Hy.
    cbn [flush_run List.length Nat.leb app existsb]. now rewrite Hy. }
  assert (Hmid : replace_runs_from is_space 2 space []
                   (LF :: y :: filter is_safe b) = LF :: B).
  { unfold B. cbn [replace_runs_from]. change (is_space LF) with true.
    cbv iota. rewrite Hy. reflexivity. }
  rewrite Hmid. unfold trim.
  rewrite dropWhile_app_stop
    by (rewrite existsb_app; simpl; rewrite Hx; apply orb_true_r).
  replace (dropWhile is_space (front ++ [x]) ++ LF :: B)
    with ((dropWhile is_space (front ++ [x]) ++ [LF]) ++ B)
    by (now rewrite <- app_assoc).
  rewrite dropWhileEnd_app_stop by exact HB.
  now rewrite <- app_assoc.
Qed.

(** What a run stores: when the request gets as far as the update and the
    update succeeds, the cleaned cascade text. *)
Lemma process_quiz_stores (w : world) (engine : jsstring) (st st1 : server_state)
    (quiz : Quiz) (raw : jsstring) :
  quiz_lookup w = Some quiz ->
  download_ok w = true ->
  write_temp w = Returns tt ->
  run_engine w engine
    (mkState (populated_ctx quiz) (calls st) (extracted_text st)) =
    (Returns raw, st1) ->
  update_error w = None ->
  extracted_text (snd (process_quiz w engine st)) =
  JValue (cleanExtractedText raw).
Proof.
  intros Hq Hd Hw Hrun Hu.
  unfold process_quiz, try_catch, handler_body. rewrite Hq, Hd, Hu.
  unfold bind at 1. unfold ret at 1. unfold bind at 1. unfold lift at 1.
  rewrite Hw. unfold bind at 1. unfold set_ctx at 1. unfold bind at 1.
  rewrite Hrun. unfold bind, set_ctx, store_text, lift, ret. simpl.
  destruct (unlink_temp w); reflexivity.
Qed.

(** C9 (sanitised, newline-preserving stored text).  For every raw text
    that the cascade hands over in a run whose update succeeds, the text
    written to [extracted_text] is [cleanExtractedText raw]; it holds only
    printable ASCII characters and line feeds; it is exactly the sanitised
    text [stripGarbage raw] (strip, collapse whitespace runs, trim), so
    every line feed of the sanitised text is in the stored text, at the
    same place; a text that is already sanitised, as the one of
    [tryPdfParse], is stored unchanged; and a line feed of the raw text
    that stands between two kept characters that are not whitespace
    separates, in the stored text, the sanitised text before it from the
    sanitised text after it. *)
Theorem persisted_text_sanitized :
  forall (w : world) (engine : jsstring) (st st1 : server_state)
         (quiz : Quiz) (raw : jsstring),
    quiz_lookup w = Some quiz ->
    download_ok w = true ->
    write_temp w = Returns tt ->
    run_engine w engine
      (mkState (populated_ctx quiz) (calls st) (extracted_text st)) =
      (Returns raw, st1) ->
    update_error w = None ->
    let sanitized := stripGarbage raw in
    let persisted := cleanExtractedText raw in
    extracted_text (snd (process_quiz w engine st)) = JValue persisted /\
    Forall (fun c => is_safe c = true) persisted /\
    persisted = sanitized /\
    (forall i, nth_error sanitized i = Some LF ->
               nth_error persisted i = Some LF) /\
    cleanExtractedText sanitized = sanitized /\
    (forall a b x y,
        raw = a ++ x :: LF :: y :: b ->
        is_safe x = true -> is_space x = false ->
        is_safe y = true -> is_space y = false ->
        persisted =
        dropWhile is_space
          (replace_runs is_space 2 space (keep_only is_safe (a ++ [x]))) ++
        LF :: dropWhileEnd is_space
                (replace_runs is_space 2 space (keep_only is_safe (y :: b)))).
Proof.
  intros w engine st st1 quiz raw Hq Hd Hw Hrun Hu sanitized persisted.
  assert (Heq : persisted = sanitized)
    by apply cleanExtractedText_is_stripGarbage.
  split; [eapply process_quiz_stores; eassumption|].
  split; [apply cleanExtractedText_safe|].
  split; [exact Heq|].
  split; [now rewrite Heq|].
  split.
  - unfold sanitized. rewrite cleanExtractedText_is_stripGarbage.
    apply stripGarbage_idem.
  - intros a b x y Hraw Hsx Hx Hsy Hy.
    rewrite Heq. unfold sanitized. rewrite Hraw.
    now apply lone_newline_kept.
Qed.

Lemma persisted_text_sanitized_witness :
  let raw := lit "  Name: Jane" ++ [LF] ++ lit "Roll:   12" ++ [LF] ++ lit "Q1: 4 " in
  let quiz := mkQuiz (JValue (lit "Quiz 1")) JNull (JValue 1) (JValue false) None in
  let w := mkWorld (Some quiz) true (Returns tt) (fun _ _ => Returns raw) None
                   (Returns tt) in
  extracted_text (snd (process_quiz w (lit "tesseract")
                                    (mkState initial_ctx [] JNull))) =
  JValue (lit "Name: Jane" ++ [LF] ++ lit "Roll: 12" ++ [LF] ++ lit "Q1: 4").
Proof.
  intros raw quiz w.
  destruct (persisted_text_sanitized w (lit "tesseract")
              (mkState initial_ctx [] JNull)
              (mkState (populated_ctx quiz) [Tesseract] JNull) quiz raw
              eq_refl eq_refl eq_refl eq_refl eq_refl) as (H & _).
  exact H.
Defined.

(** Line feeds of the raw text that stand next to other whitespace are part
    of a whitespace run and end up as one space: a blank line between two
    paragraphs, or a line that ends in a space, is joined to the next line
    by a space. *)
Example blank_line_collapses :
  let raw := lit "Name: Jane" ++ [LF] ++ lit "Roll: 12" ++ [LF; LF] ++
             lit "Q1: 4 " ++ [LF] ++ lit "Q2: 5" in
  cleanExtractedText raw =
  lit "Name: Jane" ++ [LF] ++ lit "Roll: 12 Q1: 4 Q2: 5".
Proof. reflexivity. Qed.

(** ** The even split *)

Lemma range_from_length (c len : Z) : List.length (range_from c len) = Z.to_nat len.
Proof. unfold range_from. now rewrite length_map, length_seq. Qed.

Lemma map_seq_offset {B} (f : nat -> B) (n len : nat) :
  forall s, map f (seq (n + s) len) = map (fun k => f (n + k)%nat) (seq s len).
Proof.
  induction len as [|len IH]; intros s; simpl; [reflexivity|].
  f_equal. rewrite <- IH. f_equal. f_equal. lia.
Qed.

Lemma range_from_app (c a b : Z) :
  0 <= a -> 0 <= b ->
  range_from c a ++ range_from (c + a) b = range_from c (a + b).
Proof.
  intros Ha Hb. unfold range_from.
  rewrite Z2Nat.inj_add, seq_app, map_app by lia. f_equal. simpl.
  rewrite <- (Nat.add_0_r (Z.to_nat a)).
  rewrite map_seq_offset. apply map_ext. intros k. lia.
Qed.

Lemma range_from_0 (n : Z) : range_from 0 n = iota n.
Proof. unfold range_from, iota. apply map_ext. intros; lia. Qed.

(** The loop of [evenSplit]: [k] slices that tile the interval starting at
    [cursor]; the first [remainder] of them hold one page more. *)
Lemma evenSplit_loop_spec (k : nat) :
  forall base remainder cursor,
    0 <= base -> 0 <= remainder ->
    let res := evenSplit_loop k base remainder cursor in
    List.length res = k /\
    List.concat res =
      range_from cursor (Z.of_nat k * base + Z.min remainder (Z.of_nat k)) /\
    forall i, (i < k)%nat ->
      Z.of_nat (List.length (nth i res [])) =
      base + (if Z.of_nat i <? remainder then 1 else 0).
Proof.
  induction k as [|k IH]; intros base remainder cursor Hb Hr; cbn zeta.
  - cbn [evenSplit_loop List.concat List.length]. repeat split; [|intros; lia].
    replace (Z.of_nat 0 * base + Z.min remainder (Z.of_nat 0)) with 0 by lia.
    reflexivity.
  - cbn [evenSplit_loop].
    set (take := base + (if 0 <? remainder then 1 else 0)).
    set (rem' := if 0 <? remainder then remainder - 1 else remainder).
    assert (Ht : 0 <= take) by (unfold take; destruct (0 <? remainder); lia).
    assert (Hr' : 0 <= rem').
    { unfold rem'. destruct (Z.ltb_spec 0 remainder); lia. }
    destruct (IH base rem' (cursor + take) Hb Hr') as (Hlen & Hcat & Hnth).
    split; [simpl; now rewrite Hlen|].
    split.
    + cbn [List.concat]. rewrite Hcat, range_from_app by lia. f_equal.
      unfold take, rem'. destruct (Z.ltb_spec 0 remainder); lia.
    + intros [|i] Hi.
      * cbn [nth]. rewrite range_from_length. unfold take.
        change (Z.of_nat 0) with 0. lia.
      * cbn [nth]. rewrite Hnth by lia. unfold rem'.
        destruct (Z.ltb_spec 0 remainder);
          destruct (Z.ltb_spec (Z.of_nat i) (remainder - 1));
          destruct (Z.ltb_spec (Z.of_nat i) remainder);
          destruct (Z.ltb_spec (Z.of_nat (S i)) remainder); lia.
Qed.

(** C7 (even-split fairness).  For [pageCount >= 0] and [n > 0],
    [evenSplit] returns exactly [n] lists; their concatenation in student
    order is [[0, ..., pageCount-1]], so the lists are disjoint, leave no
    gap and total [pageCount] pages; list [i] has [floor(pageCount/n)]
    pages, plus one when [i] is below [pageCount - n*floor(pageCount/n)];
    hence any two sizes differ by at most one. *)
Theorem evenSplit_fair :
  forall pageCount n : Z,
    0 <= pageCount -> 0 < n ->
    let res := evenSplit pageCount n in
    let base := pageCount / n in
    let extra := pageCount - n * base in
    Z.of_nat (List.length res) = n /\
    List.concat res = iota pageCount /\
    Z.of_nat (List.length (List.concat res)) = pageCount /\
    (forall i, (Z.of_nat i < n) ->
       Z.of_nat (List.length (nth i res [])) =
       base + (if Z.of_nat i <? extra then 1 else 0)) /\
    (forall i j, Z.of_nat i < n -> Z.of_nat j < n ->
       Z.abs (Z.of_nat (List.length (nth i res [])) -
              Z.of_nat (List.length (nth j res []))) <= 1).
Proof.
  intros pageCount n Hp Hn res base extra.
  assert (Hbase : 0 <= base) by (apply Z.div_pos; lia).
  assert (Hextra : 0 <= extra < n).
  { unfold extra, base. pose proof (Z.mod_pos_bound pageCount n Hn).
    rewrite Z.mod_eq in H by lia. lia. }
  assert (Hsizes : forall i, Z.of_nat i < n ->
             Z.of_nat (List.length (nth i res [])) =
             base + (if Z.of_nat i <? extra then 1 else 0)).
  { intros i Hi. unfold res, evenSplit.
    destruct (Z.leb_spec n 0); [lia|]. cbn [orb].
    destruct (Z.leb_spec pageCount 0).
    - assert (pageCount = 0) by lia. subst pageCount.
      assert (base = 0) by (unfold base; apply Z.div_0_l; lia).
      assert (extra = 0) by (unfold extra; lia).
      rewrite nth_repeat.
      destruct (Z.ltb_spec (Z.of_nat i) extra); simpl; lia.
    - fold base.
      pose proof (evenSplit_loop_spec (Z.to_nat n) base (pageCount - base * n) 0
                    Hbase ltac:(unfold extra in Hextra; lia)) as (_ & _ & Hnth).
      rewrite Hnth by lia.
      replace (pageCount - base * n) with extra by (unfold extra; lia).
      reflexivity. }
  assert (Hcat : List.concat res = iota pageCount).
  { unfold res, evenSplit.
    destruct (Z.leb_spec n 0); [lia|]. cbn [orb].
    destruct (Z.leb_spec pageCount 0).
    - assert (pageCount = 0) by lia. subst pageCount.
      generalize (Z.to_nat (Z.max 0 n)). intros m.
      induction m; simpl; auto.
    - fold base.
      pose proof (evenSplit_loop_spec (Z.to_nat n) base (pageCount - base * n) 0
                    Hbase ltac:(unfold extra in Hextra; lia)) as (_ & Hc & _).
      cbn zeta in Hc. rewrite Hc.
      etransitivity; [|apply range_from_0]. f_equal.
      unfold extra in Hextra. rewrite Z2Nat.id by lia. lia. }
  split.
  { unfold res, evenSplit.
    destruct (Z.leb_spec n 0); [lia|]. cbn [orb].
    destruct (Z.leb_spec pageCount 0).
    - rewrite repeat_length. lia.
    - pose proof (evenSplit_loop_spec (Z.to_nat n) (pageCount / n)
                    (pageCount - pageCount / n * n) 0
                    Hbase ltac:(unfold extra, base in Hextra; lia)) as (Hl & _ & _).
      cbn zeta in Hl. rewrite Hl. lia. }
  split; [exact Hcat|].
  split.
  { rewrite Hcat. unfold iota. rewrite length_map, length_seq. lia. }
  split; [exact Hsizes|].
  intros i j Hi Hj. rewrite (Hsizes i Hi), (Hsizes j Hj).
  destruct (Z.of_nat i <? extra), (Z.of_nat j <? extra); lia.
Qed.

Lemma evenSplit_fair_witness :
  0 <= 7 /\ 0 < 3 /\
  map (@List.length Z) (evenSplit 7 3) = [3; 2; 2]%nat /\
  List.concat (evenSplit 7 3) = [0; 1; 2; 3; 4; 5; 6].
Proof.
  destruct (evenSplit_fair 7 3 ltac:(lia) ltac:(lia)) as (_ & Hcat & _).
  split; [lia|]. split; [lia|]. split; [reflexivity|].
  rewrite Hcat. reflexivity.
Defined.

(** ** The page-list invariant *)

Lemma filter_map_valid_index (pageCount : Z) (l : list pageval) :
  Forall (fun i => 0 <= i < pageCount) (filter_map (valid_index pageCount) l).
Proof.
  induction l as [|v l IH]; simpl; [constructor|].
  destruct v as [n| |]; simpl; auto.
  destruct (Z.leb_spec 0 n), (Z.ltb_spec n pageCount); simpl; auto.
Qed.

Lemma set_from_spec (l : list Z) :
  forall seen,
    NoDup (set_from seen l) /\
    forall x, In x (set_from seen l) -> In x l /\ ~ In x seen.
Proof.
  induction l as [|a l IH]; intros seen; simpl.
  - split; [constructor|tauto].
  - destruct (existsb (Z.eqb a) seen) eqn:E.
    + destruct (IH seen) as [ND Hin]. split; [exact ND|].
      intros x Hx. destruct (Hin x Hx). tauto.
    + destruct (IH (a :: seen)) as [ND Hin]. split.
      * constructor; [|exact ND]. intros Ha. destruct (Hin a Ha) as [_ Hn].
        apply Hn. left. reflexivity.
      * intros x [<-|Hx].
        -- split; [tauto|]. intros Hs.
           assert (existsb (Z.eqb a) seen = true).
           { apply existsb_exists. exists a. split; [exact Hs|apply Z.eqb_refl]. }
           congruence.
        -- destruct (Hin x Hx) as [H1 H2]. split; [tauto|].
           intros Hs. apply H2. right. exact Hs.
Qed.

Lemma insert_by_perm {A} (cmp : A -> A -> Z) (x : A) (l : list A) :
  Permutation (insert_by cmp x l) (x :: l).
Proof.
  induction l as [|y l IH]; simpl; [reflexivity|].
  destruct (cmp x y <=? 0); [reflexivity|].
  rewrite IH. apply perm_swap.
Qed.

Lemma js_sort_perm {A} (cmp : A -> A -> Z) (l : list A) :
  Permutation (js_sort cmp l) l.
Proof.
  induction l as [|x l IH]; simpl; [reflexivity|].
  unfold js_sort in *. simpl. rewrite insert_by_perm. now constructor.
Qed.

(** Sorting with the comparator [(a, b) => a - b]. *)
Lemma insert_numeric_sorted (x : Z) (l : list Z) :
  StronglySorted Z.le l ->
  StronglySorted Z.le (insert_by (fun a b => a - b) x l).
Proof.
  induction 1 as [|y l Hs IH Hy]; simpl.
  - repeat constructor.
  - destruct (Z.leb_spec (x - y) 0).
    + constructor; [constructor; assumption|].
      constructor; [lia|]. eapply Forall_impl; [|exact Hy]. simpl. intros; lia.
    + constructor; [exact IH|].
      eapply Permutation_Forall; [symmetry; apply insert_by_perm|].
      constructor; [lia|exact Hy].
Qed.

Lemma js_sort_numeric_sorted (l : list Z) :
  StronglySorted Z.le (js_sort (fun a b => a - b) l).
Proof.
  induction l as [|x l IH]; [constructor|].
  unfold js_sort in *. simpl. now apply insert_numeric_sorted.
Qed.

Lemma sorted_nodup_strict (l : list Z) :
  StronglySorted Z.le l -> NoDup l -> StronglySorted Z.lt l.
Proof.
  induction 1 as [|x l Hs IH Hx]; intros ND; [constructor|].
  inversion ND as [|? ? Hnin ND']; subst.
  constructor; [auto|].
  rewrite Forall_forall in *. intros y Hy.
  specialize (Hx y Hy). assert (x <> y) by (intros ->; contradiction). lia.
Qed.

(** What [normalizeIndices] returns is a page list of the document,
    whatever it is given. *)
Lemma normalizeIndices_ok (indices : list pageval) (pageCount : Z) :
  page_list_ok pageCount (normalizeIndices indices pageCount).
Proof.
  unfold normalizeIndices.
  set (nums := filter_map (valid_index pageCount) (map to_number indices)).
  destruct (set_from_spec nums []) as [ND Hin].
  assert (Hperm := js_sort_perm (fun a b => a - b) (set_from [] nums)).
  assert (ND' : NoDup (js_sort (fun a b => a - b) (set_from [] nums))).
  { eapply Permutation_NoDup; [symmetry; exact Hperm|exact ND]. }
  split; [exact ND'|]. split.
  - apply sorted_nodup_strict; [apply js_sort_numeric_sorted|exact ND'].
  - eapply Permutation_Forall; [symmetry; exact Hperm|].
    apply Forall_forall. intros x Hx. destruct (Hin x Hx) as [Hx' _].
    pose proof (filter_map_valid_index pageCount (map to_number indices)) as HF.
    rewrite Forall_forall in HF. apply HF. exact Hx'.
Qed.

Lemma page_list_ok_mono (a b : Z) (l : list Z) :
  a <= b -> page_list_ok a l -> page_list_ok b l.
Proof.
  intros Hab (ND & Hs & Hr). repeat split; auto.
  eapply Forall_impl; [|exact Hr]. simpl. intros; lia.
Qed.

Lemma to_int32_le (x : Z) : 0 <= x -> Z.max 0 (to_int32 x) <= x.
Proof.
  intros Hx. unfold to_int32.
  pose proof (Z.mod_le (x + 2 ^ 31) (2 ^ 32) ltac:(lia) ltac:(lia)). lia.
Qed.

Section MappedStudents.

Variable Q : StudentGraded -> Prop.

Lemma Forall_map_from {A} (f : A -> nat -> StudentGraded) (l : list A) :
  (forall x i, Q (f x i)) -> forall i, Forall Q (map_from f i l).
Proof.
  intros Hf. induction l as [|x l IH]; intros i; simpl; constructor; auto.
Qed.

Lemma Forall_assign_remaining (totalPages : Z) (split : list (list Z))
    (remainingPages : list Z) :
  (forall s l, Q (with_pages s (normalizeIndices l totalPages))) ->
  forall rest j cursor,
    Forall Q (assign_remaining rest j split remainingPages cursor totalPages).
Proof.
  intros HQ. induction rest as [|s rest IH]; intros j cursor; simpl;
    constructor; auto.
Qed.

End MappedStudents.

(** C8 (page-list invariant).  For a document of [pageCount >= 0] pages,
    every record that [mapPagesToStudents] returns -- from provided
    indices, from header inference or from the even split -- carries a
    page list that has no duplicate, is ascending and stays inside
    [[0, pageCount)]. *)
Theorem mapPagesToStudents_page_lists :
  forall (pageCount : Z) (students : list StudentGraded)
         (page_texts : option (list jsstring)),
    0 <= pageCount ->
    Forall (fun s => exists l, page_indices s = Some (map PInt l) /\
                               page_list_ok pageCount l)
           (mapPagesToStudents pageCount students page_texts).
Proof.
  intros pageCount students page_texts Hp.
  set (Q := fun s => exists l, page_indices s = Some (map PInt l) /\
                               page_list_ok pageCount l).
  assert (HQ : forall s l,
             Q (with_pages s (normalizeIndices l (Z.max 0 (to_int32 pageCount))))).
  { intros s l. eexists. split; [reflexivity|].
    eapply page_list_ok_mono; [apply to_int32_le, Hp|apply normalizeIndices_ok]. }
  unfold mapPagesToStudents.
  destruct (List.length students =? 0)%nat; [constructor|].
  destruct (forallb provided students).
  { apply Forall_forall. intros s Hs. apply in_map_iff in Hs.
    destruct Hs as (s0 & <- & _). apply HQ. }
  destruct (1 <=? _)%nat.
  - destruct (_ =? _)%nat.
    + apply Forall_map_from. intros; apply HQ.
    + destruct (_ <? _)%nat.
      * apply Forall_app. split.
        -- apply Forall_map_from. intros; apply HQ.
        -- apply Forall_assign_remaining. exact HQ.
      * apply Forall_map_from. intros; apply HQ.
  - apply Forall_map_from. intros; apply HQ.
Qed.

Lemma mapPagesToStudents_page_lists_witness :
  0 <= 5 /\
  Forall (fun s => exists l, page_indices s = Some (map PInt l) /\
                             page_list_ok 5 l)
         (mapPagesToStudents 5
            [mkStudent None None None None
               (Some [PInt 4; PInt 1; PInt 4; PInt 9; POtherNumber; PNotNumber])
               None None;
             mkStudent None None None None (Some [PInt 3; PInt (-1); PInt 0])
               None None]
            None).
Proof.
  split; [lia|]. apply mapPagesToStudents_page_lists. lia.
Defined.

(** Lists may be empty and pages may stay unassigned: with provided indices
    [[7]] and [[0]] on a three-page document the first student keeps no page
    and pages 1 and 2 belong to nobody. *)
Example page_lists_need_not_cover :
  map page_indices
      (mapPagesToStudents 3
         [mkStudent None None None None (Some [PInt 7]) None None;
          mkStudent None None None None (Some [PInt 0]) None None] None) =
  [Some []; Some [PInt 0]].
Proof. reflexivity. Qed.

(** ** Header-based segmentation: Scenario C *)

(** C1, as the code has it.  On a two-page document whose page 0 holds both
    "name:" and "roll:" (in any letter case) and whose page 1 holds neither,
    with two students without page indices, only page 0 is a block start;
    the block it opens runs to the end of the document, so the first student
    receives pages [[0, 1]]; no page is left uncovered and the second student
    receives the empty list. *)
Theorem scenario_C_header_block_runs_to_end :
  forall (t0 t1 : jsstring) (s1 s2 : StudentGraded),
    includes (toLowerCase t0) (lit "name:") = true ->
    includes (toLowerCase t0) (lit "roll:") = true ->
    includes (toLowerCase t1) (lit "name:") = false ->
    includes (toLowerCase t1) (lit "roll:") = false ->
    page_indices s1 = None ->
    page_indices s2 = None ->
    find_starts 0 [t0; t1] = [0] /\
    inferByPageTexts (Some [t0; t1]) 2 = [[0; 1]] /\
    mapPagesToStudents 2 [s1; s2] (Some [t0; t1]) =
      [with_pages s1 [0; 1]; with_pages s2 []].
Proof.
  intros t0 t1 s1 s2 Hn0 Hr0 Hn1 Hr1 Hp1 Hp2.
  assert (H0 : has_header t0 = true) by (unfold has_header; now rewrite Hn0, Hr0).
  assert (H1 : has_header t1 = false) by (unfold has_header; now rewrite Hn1).
  assert (Hs : find_starts 0 [t0; t1] = [0]) by (simpl; now rewrite H0, H1).
  assert (Hi : inferByPageTexts (Some [t0; t1]) 2 = [[0; 1]]).
  { unfold inferByPageTexts. rewrite Hs. reflexivity. }
  split; [exact Hs|]. split; [exact Hi|].
  unfold mapPagesToStudents.
  change (Z.of_nat (List.length [s1; s2])) with 2. rewrite Hi.
  assert (Hprov : forallb provided [s1; s2] = false).
  { simpl. unfold provided. now rewrite Hp1. }
  rewrite Hprov. reflexivity.
Qed.

Lemma scenario_C_header_block_runs_to_end_witness :
  let t0 := lit "Name: Jane" ++ [LF] ++ lit "Roll: 12" ++ [LF] ++ lit "----" in
  let t1 := lit "Q1. The answer is 42." in
  map page_indices (mapPagesToStudents 2 [empty_student; empty_student]
                                       (Some [t0; t1])) =
  [Some [PInt 0; PInt 1]; Some []].
Proof.
  intros t0 t1.
  destruct (scenario_C_header_block_runs_to_end t0 t1 empty_student empty_student
              eq_refl eq_refl eq_refl eq_refl eq_refl eq_refl) as (_ & _ & H).
  exact (f_equal (map page_indices) H).
Defined.

(** C1, as stated, fails on the scenario's own input: student 1 does not
    receive [[0]] and student 2 does not receive [[1]]. *)
Lemma scenario_C_counterexample :
  let t0 := lit "Name: Jane" ++ [LF] ++ lit "Roll: 12" ++ [LF] ++ lit "----" in
  let t1 := lit "Q1. The answer is 42." in
  has_header t0 = true /\ has_header t1 = false /\
  includes (toLowerCase t1) (lit "name:") = false /\
  includes (toLowerCase t1) (lit "roll:") = false /\
  map page_indices (mapPagesToStudents 2 [empty_student; empty_student]
                                       (Some [t0; t1])) <>
  [Some [PInt 0]; Some [PInt 1]].
Proof.
  cbv zeta. repeat split; try reflexivity. vm_compute. discriminate.
Qed.

(** ** The primary block mapping *)

Lemma select_uses_build_mapped (quiz : Quiz) (pageCount : Z) :
  mapped (selectFromFormattedAndBuild quiz pageCount) =
  build_mapped pageCount (Z.max 1 (num_or (no_of_pages quiz) 1))
               (nullish_or (graded_json quiz) []).
Proof. reflexivity. Qed.

(** C6 (primary block mapping, P2).  For [pageCount >= 0] and
    [pagesPerStudent >= 1] the block mapping has exactly
    [min(len(graded), floor(pageCount / pagesPerStudent))] entries, its
    representative pages are [[0, p, 2p, ...]], and entry [i] is student
    [i] with its block starting at page [i * pagesPerStudent]. *)
Theorem primary_block_mapping :
  forall (pageCount pagesPerStudent : Z) (graded : list (option StudentGraded)),
    0 <= pageCount -> 1 <= pagesPerStudent ->
    let m := build_mapped pageCount pagesPerStudent graded in
    let usable := Z.min (Z.of_nat (List.length graded))
                        (pageCount / pagesPerStudent) in
    Z.of_nat (List.length m) = usable /\
    map pageIndex m = map (fun i => i * pagesPerStudent) (iota usable) /\
    forall i e, nth_error m i = Some e ->
      index e = Z.of_nat i /\
      pageIndex e = Z.of_nat i * pagesPerStudent /\
      student e = nullish_or (nth i graded None) empty_student.
Proof.
  intros pageCount p graded Hpc Hp m usable.
  assert (Hu : 0 <= usable).
  { unfold usable. pose proof (Z.div_pos pageCount p Hpc ltac:(lia)). lia. }
  unfold m, build_mapped. fold usable.
  split; [rewrite length_map, length_seq; lia|].
  split.
  - unfold iota. rewrite !map_map. reflexivity.
  - intros i e He.
    rewrite nth_error_map in He.
    destruct (nth_error (seq 0 (Z.to_nat usable)) i) as [k|] eqn:Ek;
      [|discriminate].
    assert (Hi : (i < Z.to_nat usable)%nat).
    { assert (Hsome : nth_error (seq 0 (Z.to_nat usable)) i <> None)
        by congruence.
      apply nth_error_Some in Hsome. now rewrite length_seq in Hsome. }
    assert (Hk : k = i).
    { apply nth_error_nth with (d := O) in Ek.
      rewrite seq_nth in Ek by exact Hi. lia. }
    subst k. simpl in He. injection He as <-. simpl. auto.
Qed.

Lemma primary_block_mapping_witness :
  0 <= 10 /\ 1 <= 2 /\
  map pageIndex (build_mapped 10 2 (repeat (Some empty_student) 5)) =
  [0; 2; 4; 6; 8].
Proof.
  destruct (primary_block_mapping 10 2 (repeat (Some empty_student) 5)
              ltac:(lia) ltac:(lia)) as (_ & Hpages & _).
  split; [lia|]. split; [lia|]. rewrite Hpages. reflexivity.
Defined.

(** ** Ranking and the pack selection *)

Lemma insert_rank_sorted (x : mapped_entry) (l : list mapped_entry) :
  StronglySorted (fun a b => score b <= score a) l ->
  StronglySorted (fun a b => score b <= score a)
                 (insert_by (fun a b => score b - score a) x l).
Proof.
  induction 1 as [|y l Hs IH Hy]; simpl.
  - repeat constructor.
  - destruct (Z.leb_spec (score y - score x) 0).
    + constructor; [constructor; assumption|].
      constructor; [lia|]. eapply Forall_impl; [|exact Hy]. simpl. intros; lia.
    + constructor; [exact IH|].
      eapply Permutation_Forall; [symmetry; apply insert_by_perm|].
      constructor; [lia|exact Hy].
Qed.

(** The ranked pool holds the same entries, in descending score order. *)
Lemma rank_descending (pool : list mapped_entry) :
  Permutation (rank pool) pool /\
  StronglySorted (fun a b => score b <= score a) (rank pool).
Proof.
  split; [apply js_sort_perm|].
  unfold rank, js_sort.
  induction pool as [|x l IH]; simpl; [constructor|].
  now apply insert_rank_sorted.
Qed.

(** Ties keep their original order: the entries of any one score appear in
    the ranked pool in the order they have in the pool. *)
Lemma rank_stable (v : Z) (pool : list mapped_entry) :
  filter (fun m => score m =? v) (rank pool) =
  filter (fun m => score m =? v) pool.
Proof.
  unfold rank, js_sort.
  induction pool as [|x l IH]; simpl; [reflexivity|].
  rewrite <- IH. clear IH.
  generalize (fold_right (insert_by (fun a b => score b - score a)) [] l).
  intros sorted. induction sorted as [|y r IHr]; simpl; [reflexivity|].
  destruct (Z.leb_spec (score y - score x) 0); simpl; [reflexivity|].
  rewrite IHr.
  destruct (Z.eqb_spec (score x) v), (Z.eqb_spec (score y) v);
    try reflexivity; lia.
Qed.

(** C5 (Scenario A).  Three students in arrival order with scores 40, 90
    and 10, one page each on a three-page document, solution flag false:
    the whole mapped roster is ranked in descending score order
    (90, 40, 10); Best is page 1, Low is page 2, Average is the middle
    entry of the ranking, page 0; no Solution role is emitted. *)
Theorem scenario_A_selection :
  forall (quiz : Quiz) (s0 s1 s2 : StudentGraded),
    graded_json quiz = Some [Some s0; Some s1; Some s2] ->
    total_score s0 = Some 40 ->
    total_score s1 = Some 90 ->
    total_score s2 = Some 10 ->
    Z.max 1 (num_or (no_of_pages quiz) 1) = 1 ->
    read_first_paper_is_solution quiz = JValue false ->
    let sel := selectFromFormattedAndBuild quiz 3 in
    mapped sel = [mkMapped 0 0 s0; mkMapped 1 1 s1; mkMapped 2 2 s2] /\
    solutionIdx sel = None /\
    rank (mapped sel) = [mkMapped 1 1 s1; mkMapped 0 0 s0; mkMapped 2 2 s2] /\
    bestIdx sel = 1 /\ lowIdx sel = 2 /\ avgIdx sel = 0 /\
    build_order sel =
      Some [mkItem Best 1 s1; mkItem Avg 0 s0; mkItem Low 2 s2].
Proof.
  intros quiz s0 s1 s2 Hg H0 H1 H2 Hp Hf sel.
  assert (Hm : mapped sel = [mkMapped 0 0 s0; mkMapped 1 1 s1; mkMapped 2 2 s2]).
  { unfold sel. rewrite select_uses_build_mapped, Hg, Hp. reflexivity. }
  assert (Hr : rank (mapped sel) =
               [mkMapped 1 1 s1; mkMapped 0 0 s0; mkMapped 2 2 s2]).
  { rewrite Hm. unfold rank, js_sort, score.
    cbn [fold_right insert_by student]. rewrite H1, H2.
    cbn [insert_by nullish_or Z.sub Z.add Z.opp Z.pos_sub Z.leb Z.compare
         Pos.compare Pos.compare_cont Pos.pred_double Z.double Z.succ_double
         Z.pred_double student].
    rewrite H0, H1. cbn [nullish_or]. rewrite H2. reflexivity. }
  assert (Hsel : sel = mkSelection (mapped sel) None 1 0 2).
  { unfold sel at 1, selectFromFormattedAndBuild.
    rewrite Hf. cbn [not_false].
    change (build_mapped 3 (Z.max 1 (num_or (no_of_pages quiz) 1))
              (nullish_or (graded_json quiz) [])) with (mapped sel).
    rewrite Hr, Hm. reflexivity. }
  split; [exact Hm|].
  rewrite Hsel. cbn [solutionIdx bestIdx avgIdx lowIdx SBAW.mapped].
  repeat split; auto.
  unfold build_order. cbn [solutionIdx bestIdx avgIdx lowIdx SBAW.mapped].
  rewrite Hm. reflexivity.
Qed.

Lemma scenario_A_selection_witness :
  let st := fun n => mkStudent None None (Some n) (Some 100) None None None in
  let quiz := mkQuiz (JValue (lit "Quiz 1")) JNull (JValue 1) (JValue false)
                     (Some [Some (st 40); Some (st 90); Some (st 10)]) in
  let sel := selectFromFormattedAndBuild quiz 3 in
  bestIdx sel = 1 /\ lowIdx sel = 2 /\ avgIdx sel = 0 /\ solutionIdx sel = None.
Proof.
  intros st quiz sel.
  destruct (scenario_A_selection quiz (st 40) (st 90) (st 10)
              eq_refl eq_refl eq_refl eq_refl eq_refl eq_refl)
    as (_ & Hs & _ & Hb & Hl & Ha & _).
  repeat split; assumption.
Defined.

(** ** The solution post-processor *)

Section SolutionKey.
Context {num : Type} {N : JsNumber num}.

Lemma fold_left_add_map {A : Type} (f : A -> num) (l : list A) (s : num) :
  fold_left num_add (map f l) s =
  fold_left (fun acc x => num_add acc (f x)) l s.
Proof. revert s. induction l as [|a l IH]; intros s; simpl; auto. Qed.

Lemma force_subpart_spec (sp : GradedSubpart num) :
  subpart_forced (Some sp) (Some (force_subpart sp)).
Proof. exists sp, (force_subpart sp). repeat split. Qed.

(** The loop over the subparts: it finishes exactly on an array of
    objects, and is cut at the first entry that is none. *)
Lemma force_subparts_spec (sps : list (option (GradedSubpart num))) :
  forall subSum,
    match force_subparts subSum sps with
    | (Finished sps', s) =>
        forallb is_object sps = true /\
        Forall2 subpart_forced sps sps' /\
        s = fold_left num_add
              (map (fun x => num0 (max_of_subpart x)) sps) subSum
    | (Interrupted sps', _) =>
        forallb is_object sps = false /\ subparts_cut sps sps'
    end.
Proof.
  induction sps as [|[sp|] sps IH]; intros subSum; simpl.
  - repeat split. constructor.
  - specialize (IH (num_add subSum (num0 (gs_max_marks sp)))).
    destruct (force_subparts _ sps) as [[sps'|sps'] s]; simpl.
    + destruct IH as (H1 & H2 & H3). split; [exact H1|].
      split; [|exact H3]. constructor; [apply force_subpart_spec|exact H2].
    + destruct IH as (H1 & pre & pre' & post & E1 & E2 & H2).
      split; [exact H1|].
      exists (Some sp :: pre), (Some (force_subpart sp) :: pre'), post.
      subst. repeat split. constructor; [apply force_subpart_spec|exact H2].
  - split; [reflexivity|]. exists [], [], sps. repeat split. constructor.
Qed.

Lemma force_question_spec (q : GradedQuestion num) :
  match force_question q with
  | Finished q' =>
      subparts_are_objects q = true /\ question_forced (Some q) (Some q')
  | Interrupted q' =>
      subparts_are_objects q = false /\ question_cut (Some q) (Some q')
  end.
Proof.
  unfold force_question, subparts_are_objects.
  destruct (gq_subparts q) as [[|sp sps]|] eqn:E.
  - split; [reflexivity|]. eexists _, _. split; [reflexivity|].
    split; [reflexivity|]. cbn. rewrite E. repeat split.
  - pose proof (force_subparts_spec (sp :: sps) num_zero) as H.
    destruct (force_subparts num_zero (sp :: sps)) as [[sps'|sps'] s].
    + destruct H as (H1 & H2 & H3). split; [exact H1|].
      eexists _, _. split; [reflexivity|]. split; [reflexivity|].
      cbn [gq_max_marks gq_number gq_topic gq_remarks gq_subparts gq_marks].
      rewrite E. repeat split.
      exists sps'. split; [reflexivity|]. split; [exact H2|].
      unfold sum_list. now rewrite H3.
    + destruct H as (H1 & H2). split; [exact H1|]. right.
      eexists _, _, (sp :: sps), sps'. split; [reflexivity|].
      split; [reflexivity|]. split; [exact E|]. repeat split. exact H2.
  - split; [reflexivity|]. eexists _, _. split; [reflexivity|].
    split; [reflexivity|]. cbn. rewrite E. repeat split.
Qed.

(** The loop over the questions: it finishes exactly when every entry is
    an object, with [sumMax] the sum of what the questions count for. *)
Lemma force_questions_spec (qs : list (option (GradedQuestion num))) :
  forall sumMax,
    match force_questions sumMax qs with
    | (Finished qs', s) =>
        all_objects qs = true /\
        Forall2 question_forced qs qs' /\
        s = fold_left num_add (map awarded qs') sumMax
    | (Interrupted qs', _) =>
        all_objects qs = false /\ questions_cut qs qs'
    end.
Proof.
  induction qs as [|[q|] qs IH]; intros sumMax; cbn [force_questions].
  - repeat split. constructor.
  - pose proof (force_question_spec q) as Hq.
    unfold subparts_are_objects in Hq.
    destruct (force_question q) as [q'|q'].
    + destruct Hq as (Ho & Hq).
      specialize (IH (num_add sumMax (marks_or_zero (gq_marks q')))).
      destruct (force_questions _ qs) as [[qs'|qs'] s];
        cbn [within all_objects forallb]; rewrite Ho; cbn [andb].
      * destruct IH as (H1 & H2 & H3). split; [exact H1|].
        split; [constructor; assumption|exact H3].
      * destruct IH as (H1 & pre & pre' & bad & bad' & post & E1 & E2 & H2 & H3).
        split; [exact H1|].
        exists (Some q :: pre), (Some q' :: pre'), bad, bad', post.
        subst. repeat split; [constructor; assumption|exact H3].
    + destruct Hq as (Ho & Hq). cbn [all_objects forallb]. rewrite Ho.
      split; [reflexivity|].
      exists [], [], (Some q), (Some q'), qs. repeat split;
        [constructor|exact Hq].
  - split; [reflexivity|]. exists [], [], None, None, qs.
    repeat split; [constructor|]. left. split; reflexivity.
Qed.

End SolutionKey.

(** C10, as the code has it.  With the solution-key option on and a parsed
    array whose first entry is a record, that record is rewritten in place
    and stored as the rewrite leaves it.  Its name becomes the trimmed
    prior name (or "Unknown Student" when the name is missing or empty)
    twice with one space between, and the empty string when the trimmed
    name is empty.  When every entry of [questions] and of every
    [subparts] array is an object: every subpart is awarded its maximum; a
    question without subparts is awarded its own maximum and a question
    with subparts the sum of its subparts' maxima; [total_score] is the
    sum of what the questions then count for; each remarks field gets the
    note.  When some entry is no object, the rewrite stops at the first
    one: the questions and subparts before it are rewritten as above, the
    question it stops at keeps its marks and remarks, what follows is as
    it was, and so are the record's [total_score], [max_score] and
    [remarks]. *)
Theorem solution_record_rewrite :
  forall (num : Type) (N : JsNumber num)
         (first : GradedRecord num) (rest : list (option (GradedRecord num))),
    exists first' : GradedRecord num,
      apply_solution_key true (Some (Some first :: rest)) =
        Some (Some first' :: rest) /\
      (let name := trim (match gr_student_name first with
                         | Some (c :: s) => c :: s
                         | _ => lit "Unknown Student"
                         end) in
       gr_student_name first' =
         Some (match name with
               | [] => []
               | _ :: _ => name ++ lit " " ++ name
               end)) /\
      gr_roll_number first' = gr_roll_number first /\
      match gr_questions first with
      | Some qs =>
          exists qs',
            gr_questions first' = Some qs' /\
            if all_objects qs then
              Forall2 question_forced qs qs' /\
              gr_total_score first' = Some (sum_list (map awarded qs')) /\
              gr_remarks first' = add_note (gr_remarks first) paper_note
            else
              questions_cut qs qs' /\
              gr_total_score first' = gr_total_score first /\
              gr_max_score first' = gr_max_score first /\
              gr_remarks first' = gr_remarks first
      | None =>
          gr_questions first' = None /\
          gr_total_score first' = Some num_zero /\
          gr_remarks first' = add_note (gr_remarks first) paper_note
      end.
Proof.
  intros num N first rest.
  exists (left_as (forceSolutionFullMarks_record first)).
  split.
  { cbn [apply_solution_key forceSolutionFullMarks].
    destruct (forceSolutionFullMarks_record first); reflexivity. }
  unfold forceSolutionFullMarks_record.
  destruct (gr_questions first) as [qs|].
  - pose proof (force_questions_spec qs num_zero) as H.
    destruct (force_questions num_zero qs) as [[qs'|qs'] s];
      cbn [within left_as gr_student_name gr_roll_number gr_questions
           gr_total_score gr_max_score gr_remarks].
    + destruct H as (H1 & H2 & H3).
      split; [f_equal; apply doubled_name|]. split; [reflexivity|].
      exists qs'. split; [reflexivity|]. rewrite H1.
      split; [exact H2|]. split; [|reflexivity].
      unfold sum_list. now rewrite H3.
    + destruct H as (H1 & H2).
      split; [f_equal; apply doubled_name|]. split; [reflexivity|].
      exists qs'. split; [reflexivity|]. rewrite H1.
      split; [exact H2|]. repeat split.
  - cbn [left_as gr_student_name gr_roll_number gr_questions
         gr_total_score gr_max_score gr_remarks].
    split; [f_equal; apply doubled_name|]. repeat split.
Qed.

(** C10, as stated, fails on a question whose maximum differs from the sum
    of its subparts' maxima: the question is awarded the sum (7), not its
    [max_marks] (10). *)
Lemma solution_record_counterexample :
  let sp := fun m : float =>
              Some (mkGradedSubpart None (Some 1%float) (Some m) None) in
  let q := Some (mkGradedQuestion (Some 1%float) (Some 2%float)
                   (Some 10%float) None None
                   (Some [sp 3%float; sp 4%float])) in
  let first := mkGradedRecord (Some (lit "Ali")) None (Some 2%float)
                 (Some 10%float) (Some [q]) None in
  exists first' q',
    apply_solution_key true (Some [Some first]) = Some [Some first'] /\
    gr_questions first' = Some [Some q'] /\
    gq_marks q' = Some 7%float /\ gq_max_marks q' = Some 10%float /\
    gq_marks q' <> gq_max_marks q'.
Proof.
  cbv zeta. eexists _, _. split; [vm_compute; reflexivity|].
  split; [reflexivity|]. split; [reflexivity|]. split; [reflexivity|].
  cbn [gq_marks gq_max_marks]. intros H.
  apply (f_equal (fun x => match x with
                           | Some v => PrimFloat.eqb v 7
                           | None => false
                           end)) in H.
  vm_compute in H. discriminate H.
Qed.

(** Falsiness on the doubles: [0], [-0] and [NaN], and no other number. *)
Example double_falsy :
  num_falsy 0%float = true /\ num_falsy (- 0)%float = true /\
  num_falsy nan = true /\ num_falsy 1%float = false /\
  num_falsy infinity = false /\
  or_zero (- 0)%float = 0%float /\ num0 (Some nan) = 0%float /\
  num0 (@None float) = 0%float.
Proof. repeat split; vm_compute; reflexivity. Qed.

(** The rewrite cut short, on doubles: the second question is [null].  The
    name is doubled and the first question forced; the third question and
    the record's totals and remarks are as they were, and this is the
    record that is stored. *)
Example solution_record_cut_short :
  let q := fun m : float =>
             Some (mkGradedQuestion None (Some 0%float) (Some m) None None None) in
  let first := mkGradedRecord (Some (lit "Ali")) None (Some 1%float) None
                 (Some [q 5%float; None; q 3%float]) None in
  let left :=
    mkGradedRecord (Some (lit "Ali Ali")) None (Some 1%float) None
      (Some [Some (mkGradedQuestion None (Some 5%float) (Some 5%float) None
                     (Some question_note) None);
             None; q 3%float]) None in
  forceSolutionFullMarks (Some first) = Interrupted (Some left) /\
  apply_solution_key true (Some [Some first]) = Some [Some left].
Proof. split; vm_compute; reflexivity. Qed.


(** * Further properties of the code around the claims *)

(** ** The cascade in every mode *)

(** X1.  In every mode the handler runs a short-circuit cascade over the
    mode's own engine list, which Tesseract ends: the engines invoked are
    an initial segment of that list and none is invoked twice; an engine
    that throws a value whose message can be read counts as an empty text;
    when no engine invoked throws [null] or [undefined], the text handed on
    is the first meaningful one or else the text of Tesseract; an engine
    that throws [null] or [undefined] is the last one invoked, and the
    cascade ends with the [TypeError] that the [catch] of its closure
    raises. *)
Theorem cascade_in_every_mode :
  forall (w : world) (engine : jsstring) (st : server_state),
    let c := CURRENT_OCR_CTX st in
    let r := adapter_result w c in
    let order := mode_order engine in
    exists ran : list engine_id,
      snd (run_engine w engine st) =
        mkState c (calls st ++ ran) (extracted_text st) /\
      (exists k, (1 <= k)%nat /\ ran = firstn k order) /\
      NoDup ran /\
      last order PdfParse = Tesseract /\
      (forall e msg, engine_run w e c = Throws msg -> r e = []) /\
      ((forall e, In e ran -> rejection w c e = None) ->
       fst (run_engine w engine st) =
       Returns (first_meaningful_or_last r order Tesseract)) /\
      (forall e v, In e ran -> engine_run w e c = ThrowsNullish v ->
         last ran e = e /\
         fst (run_engine w engine st) = Throws (cannot_read_message v)).
Proof.
  intros w engine st c r order.
  exists (cascade_ran r (rejection w c) order).
  pose proof (run_engine_mode w engine st) as Hrun. cbv zeta in Hrun.
  fold c r order in Hrun.
  assert (Hnd : NoDup order).
  { unfold order. pose proof (mode_order_cases engine) as H. simpl in H.
    repeat destruct H as [H|H]; try contradiction; rewrite <- H;
      repeat (constructor; [simpl; intuition discriminate|]); constructor. }
  assert (Hne : order <> []).
  { unfold order. pose proof (mode_order_cases engine) as H. simpl in H.
    repeat destruct H as [H|H]; try contradiction; rewrite <- H; discriminate. }
  destruct (cascade_ran_prefix r (rejection w c) order) as [k [Hk Hk1]].
  split; [rewrite Hrun; reflexivity|].
  split; [exists k; auto|].
  split.
  { rewrite Hk. rewrite <- (firstn_skipn k order) in Hnd.
    now apply NoDup_app_remove_r in Hnd. }
  split.
  { unfold order. pose proof (mode_order_cases engine) as H. simpl in H.
    repeat destruct H as [H|H]; try contradiction; rewrite <- H; reflexivity. }
  split.
  { intros e msg He. unfold r, adapter_result. rewrite He. reflexivity. }
  split.
  - intros Hnone. apply first_rejection_none in Hnone.
    rewrite Hrun. unfold cascade_result. now rewrite Hnone.
  - intros e v Hin He.
    assert (Hrej : rejection w c e = Some v)
      by (unfold rejection; now rewrite He).
    destruct (cascade_ran_rejection r (rejection w c) order e v Hin Hrej)
      as [Hlast Hfirst].
    split; [exact Hlast|].
    rewrite Hrun. unfold cascade_result. now rewrite Hfirst.
Qed.

(** ** What a request stores and answers *)

(** X2.  A success answer is backed by the store: whenever the handler
    answers 200 with a text, that very text is in [extracted_text], it is
    made of printable ASCII characters and line feeds only, cleaning it
    again changes nothing, and the naming context is neutral. *)
Theorem success_response_is_stored :
  forall (w : world) (engine : jsstring) (st st' : server_state)
         (text : jsstring),
    process_quiz w engine st = (Json200 text, st') ->
    extracted_text st' = JValue text /\
    Forall (fun c => is_safe c = true) text /\
    cleanExtractedText text = text /\
    CURRENT_OCR_CTX st' = neutral_ctx /\
    update_error w = None /\ unlink_temp w = Returns tt.
Proof.
  intros w engine st st' text H.
  destruct (reaches_populate w) eqn:Hreach.
  - unfold reaches_populate in Hreach.
    destruct (quiz_lookup w) as [quiz|] eqn:Hq; [|discriminate].
    destruct (write_temp w) as [[]|e|v] eqn:Hw; try discriminate.
    destruct (handler_after_cascade w engine st quiz Hq Hreach Hw)
      as (_ & Hp).
    cbv zeta in Hp. rewrite Hp in H.
    destruct (first_rejection _ _) as [v|]; [discriminate|].
    destruct (update_error w) as [e|]; [discriminate|].
    destruct (unlink_temp w) as [[]|e|v]; try discriminate.
    injection H as <- <-. cbn [extracted_text CURRENT_OCR_CTX].
    repeat split; auto.
    + apply cleanExtractedText_safe.
    + rewrite !cleanExtractedText_is_stripGarbage. apply stripGarbage_idem.
  - destruct (handler_early_exit w engine st Hreach) as [_ Hno].
    rewrite H in Hno. exfalso. apply (Hno text). reflexivity.
Qed.

Lemma success_response_is_stored_witness :
  let quiz := mkQuiz (JValue (lit "Quiz 1")) JNull (JValue 1) (JValue false) None in
  let w := mkWorld (Some quiz) true (Returns tt)
                   (fun _ _ => Returns (lit "  Q1:  42 ")) None (Returns tt) in
  let st := mkState initial_ctx [] JNull in
  extracted_text (snd (process_quiz w (lit "tesseract") st)) = JValue (lit "Q1: 42").
Proof.
  intros quiz w st.
  destruct (success_response_is_stored w (lit "tesseract") st
              (mkState neutral_ctx [Tesseract] (JValue (lit "Q1: 42")))
              (lit "Q1: 42") eq_refl) as (H & _).
  exact H.
Defined.

(** X3.  A request that fails before the cascade -- unknown quiz, failed
    download, temporary file not written -- costs no OCR call and changes
    nothing: no engine is invoked, the stored text and the naming context
    stay as they were, and the answer is not a success.  A failed update
    of the quiz row leaves the stored text as it was as well. *)
Theorem failed_request_stores_nothing :
  forall (w : world) (engine : jsstring) (st : server_state),
    reaches_populate w = false \/ update_error w <> None ->
    let res := process_quiz w engine st in
    extracted_text (snd res) = extracted_text st /\
    (forall text, fst res <> Json200 text) /\
    (reaches_populate w = false -> snd res = st).
Proof.
  intros w engine st H res.
  destruct (reaches_populate w) eqn:Hreach.
  - destruct H as [H|H]; [discriminate|].
    unfold reaches_populate in Hreach.
    destruct (quiz_lookup w) as [quiz|] eqn:Hq; [|discriminate].
    destruct (write_temp w) as [[]|e|v] eqn:Hw; try discriminate.
    destruct (handler_after_cascade w engine st quiz Hq Hreach Hw)
      as (_ & Hp).
    cbv zeta in Hp. unfold res. rewrite Hp.
    destruct (first_rejection _ _) as [v|].
    + split; [reflexivity|]. split; [intros text; discriminate|discriminate].
    + destruct (update_error w) as [e|]; [|congruence].
      split; [reflexivity|]. split; [intros text; discriminate|discriminate].
  - destruct (handler_early_exit w engine st Hreach) as [Hst Hno].
    unfold res. rewrite Hst. auto.
Qed.

Lemma failed_request_stores_nothing_witness :
  let w := mkWorld None true (Returns tt) (fun _ _ => Returns (lit "text")) None
                   (Returns tt) in
  let st := mkState initial_ctx [] (JValue (lit "earlier text")) in
  process_quiz w (lit "auto") st = (Json404, st).
Proof.
  intros w st.
  destruct (failed_request_stores_nothing w (lit "auto") st (or_introl eq_refl))
    as (_ & _ & H).
  specialize (H eq_refl). cbv zeta in H.
  destruct (process_quiz w (lit "auto") st) as [resp st'] eqn:E.
  simpl in H. subst st'. vm_compute in E. injection E as <-. reflexivity.
Defined.

(** ** Sanitising and the meaningfulness test *)

Lemma alnum_safe_not_space (c : ascii) :
  is_alnum c = true -> is_safe c = true /\ is_space c = false.
Proof.
  destruct c as [[] [] [] [] [] [] [] []]; vm_compute; intros H;
    try discriminate; split; reflexivity.
Qed.

Section AlnumCount.

Lemma alnum_keep_safe (s : jsstring) :
  keep_only is_alnum (keep_only is_safe s) = keep_only is_alnum s.
Proof.
  unfold keep_only. induction s as [|c s IH]; simpl; [reflexivity|].
  destruct (is_safe c) eqn:Es; simpl; rewrite IH; [reflexivity|].
  destruct (is_alnum c) eqn:Ea; [|reflexivity].
  apply alnum_safe_not_space in Ea. destruct Ea. congruence.
Qed.

Lemma alnum_spaces (run : jsstring) :
  Forall (fun c => is_space c = true) run -> keep_only is_alnum run = [].
Proof.
  unfold keep_only. induction 1 as [|c run Hc Hr IH]; simpl; [reflexivity|].
  destruct (is_alnum c) eqn:Ea; [|exact IH].
  apply alnum_safe_not_space in Ea. destruct Ea. congruence.
Qed.

Lemma alnum_dropWhile (s : jsstring) : keep_only is_alnum (dropWhile is_space s) = keep_only is_alnum s.
Proof.
  unfold keep_only. induction s as [|c s IH]; simpl; [reflexivity|].
  destruct (is_space c) eqn:Es; [|reflexivity].
  rewrite IH. destruct (is_alnum c) eqn:Ea; [|reflexivity].
  apply alnum_safe_not_space in Ea. destruct Ea. congruence.
Qed.

Lemma alnum_trim (s : jsstring) : keep_only is_alnum (trim s) = keep_only is_alnum s.
Proof.
  unfold trim, dropWhileEnd, keep_only.
  rewrite filter_rev. fold (keep_only is_alnum (dropWhile is_space (rev (dropWhile is_space s)))).
  rewrite alnum_dropWhile. unfold keep_only.
  rewrite filter_rev, rev_involutive. apply alnum_dropWhile.
Qed.

Lemma alnum_collapse (k : nat) (rep s : jsstring) :
  keep_only is_alnum rep = [] ->
  forall run, Forall (fun c => is_space c = true) run ->
              keep_only is_alnum (replace_runs_from is_space k rep run s) = keep_only is_alnum s.
Proof.
  intros Hrep.
  assert (Hflush : forall run, Forall (fun c => is_space c = true) run ->
                               keep_only is_alnum (flush_run k rep run) = []).
  { intros run Hrun. unfold flush_run.
    destruct (k <=? List.length run)%nat; [exact Hrep|now apply alnum_spaces]. }
  induction s as [|c s IH]; intros run Hrun; simpl.
  - now apply Hflush.
  - destruct (is_space c) eqn:Es.
    + rewrite IH by (apply Forall_app; auto).
      unfold keep_only. simpl.
      destruct (is_alnum c) eqn:Ea; [|reflexivity].
      apply alnum_safe_not_space in Ea. destruct Ea. congruence.
    + unfold keep_only in *. rewrite filter_app, (Hflush run Hrun).
      simpl. now rewrite (IH [] (Forall_nil _)).
Qed.

Lemma alnum_stripGarbage (s : jsstring) : keep_only is_alnum (stripGarbage s) = keep_only is_alnum s.
Proof.
  unfold stripGarbage. rewrite alnum_trim. unfold replace_runs.
  rewrite alnum_collapse by (reflexivity || constructor).
  apply alnum_keep_safe.
Qed.

End AlnumCount.

(** X4.  Sanitising never changes the verdict of the meaningfulness test:
    the alphanumeric characters of a text all survive [stripGarbage] and
    [cleanExtractedText], so a cascade result that passed the test is
    stored as a text that passes it, and one that failed stays failed. *)
Theorem sanitising_keeps_meaningfulness :
  forall s : jsstring,
    keep_only is_alnum (stripGarbage s) = keep_only is_alnum s /\
    isMeaningful (stripGarbage s) = isMeaningful s /\
    isMeaningful (cleanExtractedText s) = isMeaningful s.
Proof.
  intros s.
  assert (H : keep_only is_alnum (stripGarbage s) = keep_only is_alnum s)
    by apply alnum_stripGarbage.
  split; [exact H|].
  split.
  - unfold isMeaningful. now rewrite H.
  - rewrite cleanExtractedText_is_stripGarbage. unfold isMeaningful. now rewrite H.
Qed.

(** X5.  Text that is meaningful stays meaningful inside any longer text:
    what is put before or after it cannot take the verdict back. *)
Theorem meaningful_inside_longer_text :
  forall before s after : jsstring,
    isMeaningful s = true -> isMeaningful (before ++ s ++ after) = true.
Proof.
  intros before s after H. unfold isMeaningful, keep_only in *.
  rewrite !filter_app, !length_app.
  apply Nat.leb_le in H. apply Nat.leb_le. lia.
Qed.

Lemma meaningful_inside_longer_text_witness :
  isMeaningful (lit "-- " ++ lit "abcdefghijklmnopqrstuvwxyz0123" ++ lit " --") = true.
Proof.
  apply (meaningful_inside_longer_text (lit "-- ")
           (lit "abcdefghijklmnopqrstuvwxyz0123") (lit " --")).
  reflexivity.
Defined.

(** X6.  A sanitised text is in normal form: only printable ASCII
    characters and line feeds, no whitespace at either end, no two
    whitespace characters side by side; sanitising it again leaves it as
    it is. *)
Theorem stripGarbage_normal_form :
  forall s : jsstring,
    let out := stripGarbage s in
    Forall (fun c => is_safe c = true) out /\
    dropWhile is_space out = out /\
    dropWhileEnd is_space out = out /\
    no_adjacent is_space out /\
    stripGarbage out = out.
Proof.
  intros s out.
  split; [apply stripGarbage_safe|].
  split; [apply trim_fixed|].
  split; [apply trim_fixed|].
  split.
  - unfold out, stripGarbage. apply no_adjacent_trim, collapse_no_adjacent.
    constructor.
  - apply stripGarbage_idem.
Qed.

(** ** Slugs and sentinel names *)

Lemma slug_char_facts (c : ascii) :
  is_slug_char c = true -> lower_char c = c /\ is_space c = false.
Proof.
  destruct c as [[] [] [] [] [] [] [] []]; vm_compute; intros H;
    try discriminate; split; reflexivity.
Qed.

Lemma dropWhile_none (p : ascii -> bool) (s : jsstring) :
  Forall (fun c => p c = false) s -> dropWhile p s = s.
Proof. destruct 1 as [|c s Hc Hs]; simpl; [reflexivity|now rewrite Hc]. Qed.

Lemma dropWhileEnd_none (p : ascii -> bool) (s : jsstring) :
  Forall (fun c => p c = false) s -> dropWhileEnd p s = s.
Proof.
  intros H. unfold dropWhileEnd.
  rewrite dropWhile_none by now apply Forall_rev.
  apply rev_involutive.
Qed.

Lemma replace_runs_none (p : ascii -> bool) (k : nat) (rep s : jsstring) :
  (1 <= k)%nat -> Forall (fun c => p c = false) s -> replace_runs p k rep s = s.
Proof.
  intros Hk. unfold replace_runs.
  assert (Hnil : flush_run k rep [] = []).
  { unfold flush_run. destruct (Nat.leb_spec k (@List.length ascii [])); auto.
    simpl in *. lia. }
  induction 1 as [|c s Hc Hs IH]; simpl; [exact Hnil|].
  now rewrite Hc, Hnil, IH.
Qed.

(** X7.  A slug holds only characters of [[a-z0-9_-]], and slugging a slug
    gives the same slug back. *)
Theorem slugify_idempotent :
  forall s : jsstring,
    Forall (fun c => is_slug_char c = true) (slugify s) /\
    slugify (slugify s) = slugify s.
Proof.
  intros s. pose proof (slugify_chars s) as Hc. split; [exact Hc|].
  set (t := slugify s) in *.
  assert (Hns : Forall (fun c => is_space c = false) t).
  { eapply Forall_impl; [|exact Hc]. intros c H. now apply slug_char_facts. }
  assert (Hlow : toLowerCase t = t).
  { unfold toLowerCase. clear Hns. induction Hc as [|c t Hc Ht IH]; simpl;
      [reflexivity|]. f_equal; [now apply slug_char_facts|exact IH]. }
  unfold slugify at 1. rewrite Hlow. unfold trim.
  rewrite (dropWhile_none is_space t Hns), (dropWhileEnd_none is_space t Hns).
  rewrite replace_runs_none by (auto; lia).
  now apply keep_only_all.
Qed.

Lemma dropWhileEnd_last (p : ascii -> bool) (s : jsstring) :
  match rev (dropWhileEnd p s) with
  | [] => True
  | c :: _ => p c = false
  end.
Proof.
  unfold dropWhileEnd. rewrite rev_involutive.
  induction (rev s) as [|c r IH]; simpl; [exact I|].
  destruct (p c) eqn:E; [exact IH|exact E].
Qed.

(** X8.  Whatever the title and the section are, both sentinel names are
    single tokens over [[a-z0-9_-]] that begin with "solution_paper" and
    "unknown", and neither ends in an underscore. *)
Theorem sentinel_names_are_tokens :
  forall ctx : OcrNamingContext,
    Forall (fun c => is_slug_char c = true) (solutionName ctx) /\
    Forall (fun c => is_slug_char c = true) (unknownName ctx) /\
    startsWith (lit "solution_paper") (solutionName ctx) = true /\
    startsWith (lit "unknown") (unknownName ctx) = true /\
    last (solutionName ctx) LF <> ascii_of_N 95 /\
    last (unknownName ctx) LF <> ascii_of_N 95.
Proof.
  intros ctx.
  set (core := name_core (slugify (str_or (quizTitle ctx) []))
                         (slugify (str_or (section ctx) []))).
  assert (Hcore : Forall (fun c => is_slug_char c = true) core).
  { unfold core, name_core. apply Forall_app. split; [apply slugify_chars|].
    destruct (slugify (str_or (section ctx) [])) as [|c r] eqn:E;
      [constructor|].
    apply Forall_app. split; [repeat constructor|].
    rewrite <- E. apply slugify_chars. }
  assert (Hstrip : forall pre,
             Forall (fun c => is_slug_char c = true) pre ->
             Forall (fun c => is_slug_char c = true)
                    (strip_underscores (pre ++ core))).
  { intros pre Hpre. unfold strip_underscores.
    apply Forall_dropWhileEnd, Forall_dropWhile, Forall_app. auto. }
  assert (Hlast : forall s, last (strip_underscores s) LF <> ascii_of_N 95).
  { intros s. unfold strip_underscores.
    pose proof (dropWhileEnd_last is_underscore (dropWhile is_underscore s)) as H.
    destruct (rev (dropWhileEnd is_underscore (dropWhile is_underscore s)))
      as [|c r] eqn:E.
    - apply (f_equal (@rev ascii)) in E. rewrite rev_involutive in E.
      rewrite E. simpl. discriminate.
    - apply (f_equal (@rev ascii)) in E. rewrite rev_involutive in E.
      rewrite E. simpl. rewrite last_last. intros ->. discriminate. }
  assert (Hstart : forall pre x rest,
             is_underscore x = false ->
             dropWhile is_underscore (pre ++ [x]) = pre ++ [x] ->
             startsWith (pre ++ [x]) (strip_underscores ((pre ++ [x]) ++ rest)) = true).
  { intros pre x rest Hx Hd. unfold strip_underscores.
    rewrite dropWhile_app_stop, Hd
      by (rewrite existsb_app; simpl; rewrite Hx; apply orb_true_r).
    rewrite <- app_assoc. simpl.
    rewrite dropWhileEnd_app_stop by (simpl; now rewrite Hx).
    rewrite dropWhileEnd_cons by exact Hx.
    change (pre ++ x :: dropWhileEnd is_underscore rest)
      with (pre ++ [x] ++ dropWhileEnd is_underscore rest).
    rewrite app_assoc. apply startsWith_app. }
  split; [apply Hstrip; repeat constructor|].
  split; [apply Hstrip; repeat constructor|].
  split.
  { unfold solutionName. fold core.
    change (lit "solution_paper_" ++ core)
      with ((lit "solution_pape" ++ [ascii_of_N 114]) ++ lit "_" ++ core).
    apply (Hstart (lit "solution_pape") (ascii_of_N 114)); reflexivity. }
  split.
  { unfold unknownName. fold core.
    change (lit "unknown_" ++ core)
      with ((lit "unknow" ++ [ascii_of_N 110]) ++ lit "_" ++ core).
    apply (Hstart (lit "unknow") (ascii_of_N 110)); reflexivity. }
  split; apply Hlast.
Qed.

(** ** Block starts across the OCR prompts and the two builders *)

Import OcrPrompt GreenGraded SBAWDraw.

(** The entries of the block mapping, one by one. *)
Lemma build_mapped_In (pageCount p : Z) (graded : list (option StudentGraded))
    (e : mapped_entry) :
  0 <= pageCount -> 1 <= p ->
  In e (build_mapped pageCount p graded) ->
  exists i : nat,
    (i < List.length graded)%nat /\
    Z.of_nat i < pageCount / p /\
    e = mkMapped (Z.of_nat i) (Z.of_nat i * p)
                 (nullish_or (nth i graded None) empty_student).
Proof.
  intros Hpc Hp Hin. unfold build_mapped in Hin.
  apply in_map_iff in Hin. destruct Hin as (i & <- & Hi).
  apply in_seq in Hi. exists i.
  pose proof (Z.div_pos pageCount p Hpc ltac:(lia)).
  repeat split; lia.
Qed.

Lemma block_start_in_range (pageCount p i : Z) :
  0 <= pageCount -> 1 <= p -> 0 <= i < pageCount / p ->
  0 <= i * p < pageCount.
Proof.
  intros Hpc Hp Hi.
  pose proof (Z.mul_div_le pageCount p ltac:(lia)). nia.
Qed.

Lemma pagesPerStudent_positive (quiz : Quiz) :
  1 <= Z.max 1 (num_or (no_of_pages quiz) 1).
Proof. lia. Qed.

(** X9.  The OCR prompts and the pack selection agree on where blocks
    start: every representative page that [selectFromFormattedAndBuild]
    maps is a page of the document on which the vision OCR step, run under
    the context written for the same quiz, asks for the Name/Roll header;
    and every page below the mapped roster on which the header is asked
    for is the representative page of a mapped entry. *)
Theorem header_pages_are_block_starts :
  forall (quiz : Quiz) (pageCount : Z),
    0 <= pageCount ->
    let ctx := populated_ctx quiz in
    let sel := selectFromFormattedAndBuild quiz pageCount in
    let p := Z.max 1 (num_or (no_of_pages quiz) 1) in
    (forall e, In e (mapped sel) ->
       0 <= pageIndex e < pageCount /\
       isFirstInStudentBlock ctx (pageIndex e) = true) /\
    (forall idx,
       0 <= idx < Z.of_nat (List.length (mapped sel)) * p ->
       isFirstInStudentBlock ctx idx = true ->
       exists e, In e (mapped sel) /\ pageIndex e = idx).
Proof.
  intros quiz pageCount Hpc ctx sel p.
  assert (Hp : 1 <= p) by apply pagesPerStudent_positive.
  assert (Hctx : Z.max 1 (pagesPerStudent ctx) = p).
  { unfold ctx, populated_ctx. cbn [pagesPerStudent]. fold p. lia. }
  split.
  - intros e He. unfold sel in He. rewrite select_uses_build_mapped in He.
    apply build_mapped_In in He; auto.
    destruct He as (i & _ & Hi & ->). cbn [pageIndex].
    split; [apply block_start_in_range; lia|].
    unfold isFirstInStudentBlock. rewrite Hctx.
    rewrite Z.mod_mul by lia. reflexivity.
  - intros idx Hidx Hfirst.
    unfold isFirstInStudentBlock in Hfirst. rewrite Hctx in Hfirst.
    apply Z.eqb_eq in Hfirst.
    assert (Hdiv : idx = idx / p * p).
    { pose proof (Z.div_mod idx p ltac:(lia)). lia. }
    assert (Hi : 0 <= idx / p < Z.of_nat (List.length (mapped sel))).
    { split; [apply Z.div_pos; lia|].
      apply Z.div_lt_upper_bound; lia. }
    destruct (nth_error (mapped sel) (Z.to_nat (idx / p))) as [e|] eqn:E.
    + exists e. split; [eapply nth_error_In; exact E|].
      unfold sel in E. rewrite select_uses_build_mapped in E.
      unfold build_mapped in E. rewrite nth_error_map in E.
      destruct (nth_error (seq 0 _) (Z.to_nat (idx / p))) as [k|] eqn:Ek;
        [|discriminate].
      assert (Hk : k = Z.to_nat (idx / p)).
      { assert (Hlen : (Z.to_nat (idx / p) < List.length (seq 0
                  (Z.to_nat (Z.min (Z.of_nat (List.length
                     (nullish_or (graded_json quiz) [])))
                     (pageCount / Z.max 1 (num_or (no_of_pages quiz) 1))))))%nat).
        { apply nth_error_Some. congruence. }
        rewrite length_seq in Hlen.
        apply nth_error_nth with (d := O) in Ek.
        rewrite seq_nth in Ek by exact Hlen. lia. }
      subst k. simpl in E. injection E as <-. cbn [pageIndex].
      rewrite Z2Nat.id by lia. fold p. lia.
    + apply nth_error_None in E. lia.
Qed.

Lemma header_pages_are_block_starts_witness :
  let quiz := mkQuiz (JValue (lit "Quiz 1")) JNull (JValue 2) (JValue true)
                     (Some (repeat (Some empty_student) 3)) in
  0 <= 7 /\
  map (isFirstInStudentBlock (populated_ctx quiz))
      (map pageIndex (mapped (selectFromFormattedAndBuild quiz 7))) =
  [true; true; true].
Proof.
  intros quiz. split; [lia|].
  destruct (header_pages_are_block_starts quiz 7 ltac:(lia)) as [H _].
  assert (Hm : map pageIndex (mapped (selectFromFormattedAndBuild quiz 7)) =
               [0; 2; 4]) by reflexivity.
  rewrite Hm. simpl map.
  assert (H0 := proj2 (H (mkMapped 0 0 empty_student) (or_introl eq_refl))).
  assert (H2 := proj2 (H (mkMapped 1 2 empty_student)
                         (or_intror (or_introl eq_refl)))).
  assert (H4 := proj2 (H (mkMapped 2 4 empty_student)
                         (or_intror (or_intror (or_introl eq_refl))))).
  cbn [pageIndex] in H0, H2, H4. now rewrite H0, H2, H4.
Defined.

Lemma or_empty_nullish (x : option jsstring) : or_empty x = nullish_or x [].
Proof. destruct x as [[|c s]|]; reflexivity. Qed.

(** The two drawing paths build the same object from a record. *)
Lemma green_student_sbab (g : StudentGraded) : green_student g = sbab_student g.
Proof.
  unfold green_student, sbab_student. now rewrite !or_empty_nullish.
Qed.

Lemma range_from_nth_error (c len i : Z) :
  0 <= i < len ->
  nth_error (range_from c len) (Z.to_nat i) = Some (c + i).
Proof.
  intros Hi. unfold range_from.
  rewrite nth_error_map.
  assert (Hn : nth_error (seq 0 (Z.to_nat len)) (Z.to_nat i) = Some (Z.to_nat i)).
  { rewrite nth_error_nth' with (d := O) by (rewrite length_seq; lia).
    rewrite seq_nth by lia. reflexivity. }
  rewrite Hn. simpl. f_equal. lia.
Qed.

Lemma green_page_at (quiz : Quiz) (pageCount idx : Z) :
  0 <= idx < pageCount ->
  nth_error (buildGreenMergedPdf quiz pageCount) (Z.to_nat idx) =
  Some (mkOutPage idx
          (let p := Z.max 1 (num_or (no_of_pages quiz) 1) in
           if idx mod p =? 0 then
             Some (green_student
                     (nullish_or
                        (nullish_or
                           (js_nth (nullish_or (graded_json quiz) []) (idx / p))
                           None)
                        empty_student))
           else None)).
Proof.
  intros Hidx. unfold buildGreenMergedPdf.
  rewrite nth_error_map, range_from_nth_error by exact Hidx. reflexivity.
Qed.

Lemma js_nth_of_nat {A} (l : list (option A)) (i : nat) :
  nullish_or (js_nth l (Z.of_nat i)) None = nth i l None.
Proof.
  unfold js_nth. destruct (Z.ltb_spec (Z.of_nat i) 0); [lia|].
  rewrite Nat2Z.id. revert i H.
  induction l as [|x l IH]; intros [|i] H; simpl; auto.
  apply IH. lia.
Qed.

(** X10.  The full-roster builder and the pack builder stay consistent:
    for every entry that the pack selection maps, the page of the merged
    document with that entry's page number is the copy of that source page
    and carries the annotation of the same student object that the pack
    builder draws for the entry. *)
Theorem green_and_pack_agree :
  forall (quiz : Quiz) (pageCount : Z) (e : mapped_entry),
    0 <= pageCount ->
    In e (mapped (selectFromFormattedAndBuild quiz pageCount)) ->
    nth_error (buildGreenMergedPdf quiz pageCount) (Z.to_nat (pageIndex e)) =
    Some (mkOutPage (pageIndex e) (Some (sbab_student (student e)))).
Proof.
  intros quiz pageCount e Hpc He.
  rewrite select_uses_build_mapped in He.
  apply build_mapped_In in He; [|exact Hpc|apply pagesPerStudent_positive].
  destruct He as (i & Hlen & Hi & ->). cbn [pageIndex student].
  set (p := Z.max 1 (num_or (no_of_pages quiz) 1)) in *.
  assert (Hp : 1 <= p) by apply pagesPerStudent_positive.
  rewrite green_page_at by (apply block_start_in_range; lia).
  cbv zeta. fold p.
  rewrite Z.mod_mul, Z.div_mul by lia. cbn [Z.eqb].
  rewrite js_nth_of_nat, green_student_sbab. reflexivity.
Qed.

Lemma green_and_pack_agree_witness :
  let s := fun n => mkStudent (Some (lit "Ali")) None (Some n) (Some 10) None None None in
  let quiz := mkQuiz JNull JNull (JValue 2) (JValue false)
                     (Some [Some (s 4); Some (s 9)]) in
  0 <= 5 /\
  nth_error (buildGreenMergedPdf quiz 5) 2 =
  Some (mkOutPage 2 (Some (mkSummary (lit "Ali") [] 9 10 [] []))).
Proof.
  intros s quiz. split; [lia|].
  exact (green_and_pack_agree quiz 5 (mkMapped 1 2 (s 9)) ltac:(lia)
           (or_intror (or_introl eq_refl))).
Defined.

Lemma ceil_div (n p : Z) :
  1 <= p -> 0 <= n ->
  (n + p - 1) / p = n / p + (if n mod p =? 0 then 0 else 1).
Proof.
  intros Hp Hn.
  pose proof (Z.div_mod n p ltac:(lia)) as Hdm.
  pose proof (Z.mod_pos_bound n p ltac:(lia)) as Hr.
  replace (n + p - 1) with (n / p * p + (n mod p + p - 1)) by lia.
  rewrite Z.div_add_l by lia. f_equal.
  destruct (Z.eqb_spec (n mod p) 0) as [E|E].
  - rewrite E. apply Z.div_small. lia.
  - replace (n mod p + p - 1) with (1 * p + (n mod p - 1)) by lia.
    rewrite Z.div_add_l, Z.div_small by lia. reflexivity.
Qed.

Lemma iota_S (n : nat) : iota (Z.of_nat (S n)) = iota (Z.of_nat n) ++ [Z.of_nat n].
Proof.
  unfold iota. rewrite !Nat2Z.id, seq_S, map_app. reflexivity.
Qed.

(** The multiples of [p] below [n] are [0, p, 2p, ...], one for every
    started block. *)
Lemma block_starts_below (p : Z) (n : nat) :
  1 <= p ->
  filter (fun i => i mod p =? 0) (iota (Z.of_nat n)) =
  map (fun j => j * p) (iota ((Z.of_nat n + p - 1) / p)).
Proof.
  intros Hp. induction n as [|n IH].
  - simpl. rewrite Z.div_small by lia. reflexivity.
  - rewrite iota_S, filter_app, IH. cbn [filter].
    rewrite !ceil_div by lia.
    pose proof (Z.div_mod (Z.of_nat n) p ltac:(lia)) as Hdm.
    pose proof (Z.mod_pos_bound (Z.of_nat n) p ltac:(lia)) as Hr.
    pose proof (Z.div_pos (Z.of_nat n) p ltac:(lia) ltac:(lia)) as Hq.
    assert (Hnext : Z.of_nat (S n) / p +
                    (if Z.of_nat (S n) mod p =? 0 then 0 else 1) =
                    Z.of_nat n / p + 1).
    { rewrite <- ceil_div by lia.
      replace (Z.of_nat (S n) + p - 1) with (1 * p + Z.of_nat n) by lia.
      rewrite Z.div_add_l by lia. lia. }
    rewrite Hnext.
    destruct (Z.eqb_spec (Z.of_nat n mod p) 0) as [E|E].
    + rewrite Z.add_0_r.
      replace (Z.of_nat n / p + 1) with (Z.of_nat (S (Z.to_nat (Z.of_nat n / p))))
        by lia.
      rewrite iota_S, map_app, Z2Nat.id by lia. cbn [map].
      do 2 f_equal. lia.
    + rewrite app_nil_r. reflexivity.
Qed.

(** X11.  The full-roster builder copies every page of the source exactly
    once, in order; it annotates the first page of every started block,
    [0, p, 2p, ...], also of a last block that is cut short; and a block
    beyond the graded roster is annotated with the empty student (no name,
    0 of 0 marks) rather than left out. *)
Theorem green_copies_every_page :
  forall (quiz : Quiz) (pageCount : Z),
    0 <= pageCount ->
    let out := buildGreenMergedPdf quiz pageCount in
    let p := Z.max 1 (num_or (no_of_pages quiz) 1) in
    let graded := nullish_or (graded_json quiz) [] in
    map src_page out = iota pageCount /\
    map src_page (filter annotated out) =
      map (fun j => j * p) (iota ((pageCount + p - 1) / p)) /\
    (forall idx,
       0 <= idx < pageCount -> idx mod p = 0 ->
       Z.of_nat (List.length graded) <= idx / p ->
       nth_error out (Z.to_nat idx) =
       Some (mkOutPage idx (Some (green_student empty_student)))).
Proof.
  intros quiz pageCount Hpc out p graded.
  assert (Hp : 1 <= p) by apply pagesPerStudent_positive.
  split; [|split].
  - unfold out, buildGreenMergedPdf. rewrite map_map. cbn [src_page].
    rewrite map_id. apply range_from_0.
  - unfold out, buildGreenMergedPdf. fold p.
    rewrite filter_map_swap, map_map. cbn [src_page]. rewrite map_id.
    rewrite range_from_0.
    rewrite (filter_ext _ (fun i => i mod p =? 0)).
    + replace pageCount with (Z.of_nat (Z.to_nat pageCount)) by lia.
      apply block_starts_below. exact Hp.
    + intros i. unfold annotated. cbn [annotation].
      destruct (i mod p =? 0); reflexivity.
  - intros idx Hidx Hmod Hbeyond.
    unfold out. rewrite green_page_at by exact Hidx. cbv zeta. fold p graded.
    rewrite Hmod. cbn [Z.eqb].
    assert (Hnone : js_nth graded (idx / p) = None).
    { unfold js_nth. destruct (Z.ltb_spec (idx / p) 0); [reflexivity|].
      apply nth_error_None. lia. }
    rewrite Hnone. reflexivity.
Qed.

Lemma green_copies_every_page_witness :
  let quiz := mkQuiz JNull JNull (JValue 2) JNull (Some [Some empty_student]) in
  0 <= 5 /\
  map src_page (filter annotated (buildGreenMergedPdf quiz 5)) = [0; 2; 4].
Proof.
  intros quiz. split; [lia|].
  destruct (green_copies_every_page quiz 5 ltac:(lia)) as (_ & H & _).
  rewrite H. reflexivity.
Defined.

(** ** More on [normalizeIndices] and [mapPagesToStudents] *)

Lemma filter_map_valid_In (pageCount : Z) (l : list pageval) (i : Z) :
  In i (filter_map (valid_index pageCount) (map to_number l)) <->
  In (PInt i) l /\ 0 <= i < pageCount.
Proof.
  induction l as [|v l IH]; simpl; [tauto|].
  destruct v as [n| |]; simpl.
  - destruct (Z.leb_spec 0 n), (Z.ltb_spec n pageCount); simpl; rewrite IH.
    + split.
      * intros [->|H1]; [split; [now left|lia]|tauto].
      * intros [[H1|H1] H2]; [injection H1 as ->; now left|tauto].
    + split; [tauto|].
      intros [[H1|H1] H2]; [injection H1 as ->; lia|tauto].
    + split; [tauto|].
      intros [[H1|H1] H2]; [injection H1 as ->; lia|tauto].
    + split; [tauto|].
      intros [[H1|H1] H2]; [injection H1 as ->; lia|tauto].
  - rewrite IH. split; [tauto|]. intros [[H|H] H']; [discriminate|tauto].
  - rewrite IH. split; [tauto|]. intros [[H|H] H']; [discriminate|tauto].
Qed.

Lemma set_from_In (l : list Z) :
  forall seen x, In x (set_from seen l) <-> In x l /\ ~ In x seen.
Proof.
  induction l as [|a l IH]; intros seen x; simpl; [tauto|].
  destruct (existsb (Z.eqb a) seen) eqn:E.
  - rewrite IH. split; [tauto|]. intros [[->|H] Hn]; [|tauto].
    apply existsb_exists in E. destruct E as (y & Hy & Heq).
    apply Z.eqb_eq in Heq. subst y. contradiction.
  - simpl. rewrite IH. simpl.
    destruct (Z.eq_dec a x) as [->|Hne].
    + split; [|tauto]. intros _. split; [tauto|].
      intros Hs.
      assert (existsb (Z.eqb x) seen = true).
      { apply existsb_exists. exists x. split; [exact Hs|apply Z.eqb_refl]. }
      congruence.
    + tauto.
Qed.

Lemma set_from_nodup_id (l : list Z) :
  forall seen, NoDup l -> (forall x, In x l -> ~ In x seen) ->
               set_from seen l = l.
Proof.
  induction l as [|a l IH]; intros seen ND Hs; simpl; [reflexivity|].
  inversion ND as [|? ? Hnin ND']; subst.
  destruct (existsb (Z.eqb a) seen) eqn:E.
  - apply existsb_exists in E. destruct E as (y & Hy & Heq).
    apply Z.eqb_eq in Heq. subst y. exfalso. apply (Hs a); simpl; auto.
  - f_equal. apply IH; [exact ND'|].
    intros x Hx [<-|Hin]; [contradiction|]. apply (Hs x); simpl; auto.
Qed.

Lemma js_sort_sorted_id (l : list Z) :
  StronglySorted Z.lt l -> js_sort (fun a b => a - b) l = l.
Proof.
  induction 1 as [|x l Hs IH Hx]; [reflexivity|].
  unfold js_sort in *. simpl. rewrite IH.
  destruct l as [|y l']; [reflexivity|]. simpl.
  inversion Hx; subst. destruct (Z.leb_spec (x - y) 0); [reflexivity|lia].
Qed.

Lemma filter_map_valid_id (pageCount : Z) (l : list Z) :
  Forall (fun i => 0 <= i < pageCount) l ->
  filter_map (valid_index pageCount) (map to_number (map PInt l)) = l.
Proof.
  induction 1 as [|i l Hi Hl IH]; simpl; [reflexivity|].
  destruct (Z.leb_spec 0 i), (Z.ltb_spec i pageCount); try lia.
  simpl. now f_equal.
Qed.

Lemma strict_sorted_NoDup (l : list Z) : StronglySorted Z.lt l -> NoDup l.
Proof.
  induction 1 as [|x l Hs IH Hx]; constructor; [|exact IH].
  intros Hin. rewrite Forall_forall in Hx. specialize (Hx x Hin). lia.
Qed.

(** A page list that is already ascending and in range is kept as it is. *)
Lemma normalizeIndices_sorted_id (pageCount : Z) (l : list Z) :
  StronglySorted Z.lt l ->
  Forall (fun i => 0 <= i < pageCount) l ->
  normalizeIndices (map PInt l) pageCount = l.
Proof.
  intros Hs Hr. unfold normalizeIndices.
  rewrite filter_map_valid_id by exact Hr.
  rewrite set_from_nodup_id by (auto using strict_sorted_NoDup).
  now apply js_sort_sorted_id.
Qed.

(** X12.  [normalizeIndices] keeps exactly the integer entries of its
    argument that lie in [[0, pageCount)] -- it neither invents an index
    nor loses one, whatever else the array holds -- and normalising its
    result again changes nothing. *)
Theorem normalizeIndices_exact :
  forall (indices : list pageval) (pageCount : Z),
    (forall i, In i (normalizeIndices indices pageCount) <->
               In (PInt i) indices /\ 0 <= i < pageCount) /\
    normalizeIndices (map PInt (normalizeIndices indices pageCount)) pageCount =
    normalizeIndices indices pageCount.
Proof.
  intros indices pageCount. split.
  - intros i. unfold normalizeIndices.
    assert (Hperm := js_sort_perm (fun a b => a - b)
              (set_from [] (filter_map (valid_index pageCount)
                                       (map to_number indices)))).
    split.
    + intros H. apply (Permutation_in _ Hperm) in H.
      apply set_from_In in H. destruct H as [H _].
      now apply filter_map_valid_In in H.
    + intros H. apply (Permutation_in _ (Permutation_sym Hperm)).
      apply set_from_In. split; [|tauto].
      now apply filter_map_valid_In.
  - destruct (normalizeIndices_ok indices pageCount) as (_ & Hs & Hr).
    now apply normalizeIndices_sorted_id.
Qed.

Lemma with_pages_erase (s : StudentGraded) (l : list Z) :
  with_pages (with_pages s l) [] = with_pages s [].
Proof. reflexivity. Qed.

Lemma map_map_from {A B C} (g : B -> C) (f : A -> nat -> B) (h : A -> C)
    (l : list A) :
  (forall x i, g (f x i) = h x) ->
  forall i, map g (map_from f i l) = map h l.
Proof.
  intros Hf. induction l as [|x l IH]; intros i; simpl; [reflexivity|].
  now rewrite Hf, IH.
Qed.

Lemma map_assign_remaining {C} (g : StudentGraded -> C)
    (totalPages : Z) (split : list (list Z)) (remainingPages : list Z) :
  (forall s l, g (with_pages s l) = g s) ->
  forall rest j cursor,
    map g (assign_remaining rest j split remainingPages cursor totalPages) =
    map g rest.
Proof.
  intros Hg. induction rest as [|s rest IH]; intros j cursor; simpl;
    [reflexivity|].
  now rewrite Hg, IH.
Qed.

(** X13.  [mapPagesToStudents] returns the students it was given, in the
    same order and with every field other than [page_indices] as it was:
    in each of its branches the result has one record per input record and
    differs from the input in the page lists only. *)
Theorem mapPagesToStudents_keeps_roster :
  forall (pageCount : Z) (students : list StudentGraded)
         (page_texts : option (list jsstring)),
    map (fun s => with_pages s [])
        (mapPagesToStudents pageCount students page_texts) =
    map (fun s => with_pages s []) students /\
    List.length (mapPagesToStudents pageCount students page_texts) =
    List.length students.
Proof.
  intros pageCount students page_texts.
  assert (H : map (fun s => with_pages s [])
                  (mapPagesToStudents pageCount students page_texts) =
              map (fun s => with_pages s []) students).
  { unfold mapPagesToStudents.
    destruct (Nat.eqb_spec (List.length students) 0) as [E|E].
    { destruct students; [reflexivity|discriminate]. }
    destruct (forallb provided students).
    { rewrite map_map. apply map_ext. intros s. apply with_pages_erase. }
    destruct (1 <=? _)%nat.
    - destruct (_ =? _)%nat.
      + apply map_map_from. intros; apply with_pages_erase.
      + set (m := Nat.min _ _).
        destruct (Nat.ltb_spec m (List.length students)) as [Hm|Hm].
        * rewrite map_app.
          unfold map_indexed.
          rewrite (map_map_from _ _ (fun s => with_pages s []))
            by (intros; apply with_pages_erase).
          rewrite map_assign_remaining by (intros; apply with_pages_erase).
          rewrite <- map_app. now rewrite firstn_skipn.
        * unfold map_indexed.
          rewrite (map_map_from _ _ (fun s => with_pages s []))
            by (intros; apply with_pages_erase).
          rewrite firstn_all2; [reflexivity|].
          unfold m in *. lia.
    - apply map_map_from. intros; apply with_pages_erase. }
  split; [exact H|].
  apply (f_equal (@List.length _)) in H. now rewrite !length_map in H.
Qed.

(** ** The even-split branch of [mapPagesToStudents] *)

Lemma range_from_sorted (len : nat) :
  forall c, StronglySorted Z.lt (range_from c (Z.of_nat len)).
Proof.
  unfold range_from. rewrite Nat2Z.id.
  assert (H : forall s c,
             StronglySorted Z.lt (map (fun k => c + Z.of_nat k) (seq s len)) /\
             Forall (fun x => c + Z.of_nat s <= x)
                    (map (fun k => c + Z.of_nat k) (seq s len))).
  { induction len as [|len IH]; intros s c; simpl.
    - split; constructor.
    - destruct (IH (S s) c) as [Hs Hf]. split.
      + constructor; [exact Hs|].
        eapply Forall_impl; [|exact Hf]. simpl. intros; lia.
      + constructor; [lia|].
        eapply Forall_impl; [|exact Hf]. simpl. intros; lia. }
  intros c. apply H.
Qed.

Lemma range_from_sorted_Z (c len : Z) : StronglySorted Z.lt (range_from c len).
Proof.
  destruct (Z.le_gt_cases 0 len) as [H|H].
  - rewrite <- (Z2Nat.id len H). apply range_from_sorted.
  - unfold range_from. replace (Z.to_nat len) with O by lia. constructor.
Qed.

Lemma evenSplit_loop_sorted (k : nat) :
  forall base remainder cursor,
    Forall (StronglySorted Z.lt) (evenSplit_loop k base remainder cursor).
Proof.
  induction k as [|k IH]; intros; simpl; constructor; auto.
  apply range_from_sorted_Z.
Qed.

Lemma Forall_repeat {A} (P : A -> Prop) (x : A) (n : nat) :
  P x -> Forall P (repeat x n).
Proof. intros H. induction n; simpl; constructor; auto. Qed.

Lemma in_iota (n x : Z) : In x (iota n) <-> 0 <= x < n.
Proof.
  unfold iota. rewrite in_map_iff. split.
  - intros (k & <- & Hk). apply in_seq in Hk. lia.
  - intros H. exists (Z.to_nat x). split; [lia|]. apply in_seq. lia.
Qed.

(** Every slice of an even split is ascending and inside the document. *)
Lemma evenSplit_slices (pageCount n : Z) :
  0 <= pageCount -> 0 < n ->
  Forall (fun l => StronglySorted Z.lt l /\
                   Forall (fun i => 0 <= i < pageCount) l)
         (evenSplit pageCount n).
Proof.
  intros Hp Hn. unfold evenSplit.
  destruct (Z.leb_spec n 0); [lia|]. cbn [orb].
  destruct (Z.leb_spec pageCount 0).
  { apply Forall_repeat. split; constructor. }
  set (base := pageCount / n).
  assert (Hbase : 0 <= base) by (apply Z.div_pos; lia).
  assert (Hrem : 0 <= pageCount - base * n < n).
  { unfold base. pose proof (Z.mod_pos_bound pageCount n Hn) as Hm.
    rewrite Z.mod_eq in Hm by lia. lia. }
  destruct (evenSplit_loop_spec (Z.to_nat n) base (pageCount - base * n) 0
              Hbase ltac:(lia)) as (_ & Hcat & _).
  assert (Hs := evenSplit_loop_sorted (Z.to_nat n) base (pageCount - base * n) 0).
  rewrite Forall_forall in *. intros l Hl. split; [auto|].
  apply Forall_forall. intros x Hx.
  assert (Hin : In x (List.concat
                        (evenSplit_loop (Z.to_nat n) base
                                        (pageCount - base * n) 0))).
  { apply in_concat. eauto. }
  rewrite Hcat, range_from_0 in Hin. apply in_iota in Hin. lia.
Qed.

Lemma map_from_shift {A B} (f : A -> nat -> B) (l : list A) :
  forall i, map_from f (S i) l = map_from (fun x j => f x (S j)) i l.
Proof.
  induction l as [|x l IH]; intros i; simpl; [reflexivity|]. now rewrite IH.
Qed.

Lemma map_indexed_nth {A B C} (g : A -> B -> C) (d : B) (l : list A) :
  forall split, List.length split = List.length l ->
    map_indexed (fun s i => g s (nth i split d)) l =
    map (fun p => g (fst p) (snd p)) (combine l split).
Proof.
  unfold map_indexed.
  induction l as [|x l IH]; intros [|a split] Hlen; simpl in *;
    try reflexivity; try discriminate.
  f_equal. rewrite map_from_shift. simpl. apply IH. lia.
Qed.

Lemma to_int32_small (x : Z) : 0 <= x < 2 ^ 31 -> Z.max 0 (to_int32 x) = x.
Proof.
  intros Hx. unfold to_int32. rewrite Z.mod_small by lia. lia.
Qed.

Lemma evenSplit_length (pageCount n : Z) :
  0 <= pageCount -> 0 < n ->
  List.length (evenSplit pageCount n) = Z.to_nat n.
Proof.
  intros Hp Hn. unfold evenSplit. destruct (_ || _).
  - rewrite repeat_length. lia.
  - set (base := pageCount / n).
    assert (Hbase : 0 <= base) by (apply Z.div_pos; lia).
    assert (Hrem : 0 <= pageCount - base * n).
    { unfold base. pose proof (Z.mod_pos_bound pageCount n Hn) as Hm.
      rewrite Z.mod_eq in Hm by lia. lia. }
    now destruct (evenSplit_loop_spec (Z.to_nat n) base (pageCount - base * n) 0
                    Hbase Hrem) as (Hlen & _).
Qed.

Lemma evenSplit_concat (pageCount n : Z) :
  0 <= pageCount -> 0 < n ->
  List.concat (evenSplit pageCount n) = iota pageCount.
Proof.
  intros Hp Hn. unfold evenSplit.
  destruct (Z.leb_spec n 0); [lia|]. cbn [orb].
  destruct (Z.leb_spec pageCount 0).
  { replace pageCount with 0 by lia.
    induction (Z.to_nat (Z.max 0 n)); simpl; auto. }
  set (base := pageCount / n).
  assert (Hbase : 0 <= base) by (apply Z.div_pos; lia).
  assert (Hrem : 0 <= pageCount - base * n < n).
  { unfold base. pose proof (Z.mod_pos_bound pageCount n Hn) as Hm.
    rewrite Z.mod_eq in Hm by lia. lia. }
  destruct (evenSplit_loop_spec (Z.to_nat n) base (pageCount - base * n) 0
              Hbase ltac:(lia)) as (_ & Hcat & _).
  rewrite Hcat, range_from_0. f_equal. lia.
Qed.

Lemma page_numbers_ints (l : list Z) : page_numbers (map PInt l) = l.
Proof. induction l; simpl; [reflexivity|]. unfold page_numbers in *. simpl. now f_equal. Qed.

(** In the even-split branch the slices pass through [normalizeIndices]
    unchanged. *)
Lemma even_branch_pages (pageCount : Z) (students : list StudentGraded)
    (page_texts : option (list jsstring)) :
  0 <= pageCount < 2 ^ 31 ->
  students <> [] ->
  forallb provided students = false ->
  inferByPageTexts page_texts (Z.of_nat (List.length students)) = [] ->
  map page_indices (mapPagesToStudents pageCount students page_texts) =
  map (fun l => Some (map PInt l))
      (evenSplit pageCount (Z.of_nat (List.length students))).
Proof.
  intros Hp Hne Hprov Hinf. unfold mapPagesToStudents.
  destruct (Nat.eqb_spec (List.length students) 0) as [E|E].
  { destruct students; [congruence|discriminate]. }
  rewrite Hprov, Hinf. cbn [List.length Nat.leb].
  rewrite to_int32_small by exact Hp.
  set (n := Z.of_nat (List.length students)).
  assert (Hn : 0 < n) by (unfold n; lia).
  assert (Hlen := evenSplit_length pageCount n ltac:(lia) Hn).
  assert (Hsl := evenSplit_slices pageCount n ltac:(lia) Hn).
  rewrite (map_indexed_nth
             (fun s l => with_pages s (normalizeIndices (map PInt l) pageCount)))
    by (rewrite Hlen; unfold n; lia).
  assert (Hlen' : List.length (evenSplit pageCount n) = List.length students)
    by (rewrite Hlen; unfold n; lia).
  clear Hlen E Hne Hprov Hinf. revert Hlen' Hsl.
  generalize (evenSplit pageCount n) as split.
  clear Hn. clear n.
  induction students as [|s students IH]; intros [|a split] Hlen Hsl;
    simpl in *; try reflexivity; try discriminate.
  inversion Hsl as [|? ? [Ha1 Ha2] Hsl']; subst.
  rewrite normalizeIndices_sorted_id by assumption.
  f_equal. apply IH; [lia|exact Hsl'].
Qed.

Lemma concat_page_numbers (l : list StudentGraded) (split : list (list Z)) :
  map page_indices l = map (fun l => Some (map PInt l)) split ->
  List.concat (map (fun s => page_numbers (nullish_or (page_indices s) [])) l) =
  List.concat split.
Proof.
  revert split. induction l as [|s l IH]; intros [|a split] H; simpl in *;
    try reflexivity; try discriminate.
  injection H as Hs Hl. rewrite Hs. simpl. rewrite page_numbers_ints.
  f_equal. now apply IH.
Qed.

(** X14.  When some student lacks page indices and no header is found on
    any page, [mapPagesToStudents] hands out the even split as it is: the
    page lists are the slices of [evenSplit], so, read in student order,
    they are the pages [0 .. pageCount-1], each page given to exactly one
    student. *)
Theorem even_split_mode_covers_document :
  forall (pageCount : Z) (students : list StudentGraded)
         (page_texts : option (list jsstring)),
    0 <= pageCount < 2 ^ 31 ->
    students <> [] ->
    forallb provided students = false ->
    inferByPageTexts page_texts (Z.of_nat (List.length students)) = [] ->
    let mapped := mapPagesToStudents pageCount students page_texts in
    map page_indices mapped =
      map (fun l => Some (map PInt l))
          (evenSplit pageCount (Z.of_nat (List.length students))) /\
    List.concat
      (map (fun s => page_numbers (nullish_or (page_indices s) [])) mapped) =
    iota pageCount.
Proof.
  intros pageCount students page_texts Hp Hne Hprov Hinf mapped.
  assert (H := even_branch_pages pageCount students page_texts
                 Hp Hne Hprov Hinf).
  split; [exact H|].
  unfold mapped. rewrite (concat_page_numbers _ _ H).
  apply evenSplit_concat; [lia|].
  destruct students; [congruence|simpl; lia].
Qed.

Lemma even_split_mode_covers_document_witness :
  List.concat
    (map (fun s => page_numbers (nullish_or (page_indices s) []))
         (mapPagesToStudents 7
            [empty_student; empty_student; empty_student] None)) =
  iota 7.
Proof.
  apply (even_split_mode_covers_document 7
           [empty_student; empty_student; empty_student] None);
    [lia|discriminate|reflexivity|reflexivity].
Defined.

(** ** The builder that maps pages with [mapPagesToStudents] *)

Lemma filter_in_range_id (pageCount : Z) (l : list Z) :
  Forall (fun i => 0 <= i < pageCount) l ->
  filter (fun i => (0 <=? i) && (i <? pageCount)) l = l.
Proof.
  induction 1 as [|i l Hi Hl IH]; simpl; [reflexivity|].
  destruct (Z.leb_spec 0 i), (Z.ltb_spec i pageCount); try lia.
  simpl. now f_equal.
Qed.

Lemma section_of_clean_list (pageCount : Z) (l : list Z) :
  StronglySorted Z.lt l ->
  Forall (fun i => 0 <= i < pageCount) l ->
  js_sort (fun a b => a - b)
          (filter (fun i => (0 <=? i) && (i <? pageCount)) (set_from [] l)) = l.
Proof.
  intros Hs Hr.
  rewrite set_from_nodup_id by (auto using strict_sorted_NoDup).
  rewrite filter_in_range_id by exact Hr.
  now apply js_sort_sorted_id.
Qed.

Lemma iota_range (n : Z) : Forall (fun i => 0 <= i < n) (iota n).
Proof. apply Forall_forall. intros x. apply in_iota. Qed.

(** The section of a mapped student: its page list, or the whole document
    when the list is empty. *)
Lemma section_pages_mapped (pageCount : Z) (s : StudentGraded) (l : list Z) :
  page_indices s = Some (map PInt l) ->
  StronglySorted Z.lt l ->
  Forall (fun i => 0 <= i < pageCount) l ->
  section_pages pageCount s =
  match l with
  | [] => iota pageCount
  | _ :: _ => l
  end.
Proof.
  intros Hpi Hs Hr. unfold section_pages. rewrite Hpi.
  destruct l as [|a l]; cbn [map].
  - rewrite section_of_clean_list.
    + apply range_from_0.
    + apply range_from_sorted_Z.
    + rewrite range_from_0. apply iota_range.
  - change (PInt a :: map PInt l) with (map PInt (a :: l)).
    rewrite page_numbers_ints. now apply section_of_clean_list.
Qed.

Lemma sections_of_mapped (pageCount : Z) (mapped : list StudentGraded) :
  forall split,
    map page_indices mapped = map (fun l => Some (map PInt l)) split ->
    Forall (fun l => StronglySorted Z.lt l /\
                     Forall (fun i => 0 <= i < pageCount) l) split ->
    map (section_pages pageCount) mapped =
    map (fun l => match l with
                  | [] => iota pageCount
                  | _ :: _ => l
                  end) split.
Proof.
  induction mapped as [|s mapped IH]; intros [|a split] H Hsl; simpl in *;
    try reflexivity; try discriminate.
  injection H as Hs Hm. inversion Hsl as [|? ? [Ha1 Ha2] Hsl']; subst.
  rewrite (section_pages_mapped pageCount s a Hs Ha1 Ha2).
  f_equal. now apply IH.
Qed.

Lemma evenSplit_loop_base0 (k : nat) :
  forall r c, 0 <= r ->
    evenSplit_loop k 0 r c =
    map (fun j => [c + Z.of_nat j]) (seq 0 (Z.to_nat (Z.min r (Z.of_nat k)))) ++
    repeat [] (k - Z.to_nat (Z.min r (Z.of_nat k))).
Proof.
  induction k as [|k IH]; intros r c Hr.
  { replace (Z.to_nat (Z.min r (Z.of_nat 0))) with O by lia. reflexivity. }
  cbn [evenSplit_loop].
  destruct (Z.ltb_spec 0 r) as [Hpos|Hzero].
  - rewrite IH by lia.
    replace (Z.to_nat (Z.min r (Z.of_nat (S k))))
      with (S (Z.to_nat (Z.min (r - 1) (Z.of_nat k)))) by lia.
    cbn [seq map app Nat.sub]. f_equal.
    rewrite <- seq_shift, map_map. f_equal.
    apply map_ext. intros j. f_equal. lia.
  - assert (r = 0) by lia. subst r.
    rewrite IH by lia.
    replace (Z.to_nat (Z.min 0 (Z.of_nat (S k)))) with O by lia.
    replace (Z.to_nat (Z.min 0 (Z.of_nat k))) with O by lia.
    cbn [seq map app]. rewrite !Nat.sub_0_r. reflexivity.
Qed.

Lemma filter_all {A} (f : A -> bool) (l : list A) :
  Forall (fun x => f x = true) l -> filter f l = l.
Proof.
  induction 1 as [|x l Hx Hl IH]; simpl; [reflexivity|].
  now rewrite Hx, IH.
Qed.

(** X15.  The merged document of the builder that calls
    [mapPagesToStudents], in the even-split case (some student without page
    indices, no header found): with at most as many students as pages the
    sections are the slices of the even split, so the document is the
    original, page by page and in order; with more students than pages the
    first [pageCount] students get one page each and every further student,
    whose page list is empty, gets a copy of the whole document. *)
Theorem green_mapped_even_split :
  forall (pageCount : Z) (students : list StudentGraded)
         (page_texts : option (list jsstring)),
    0 < pageCount < 2 ^ 31 ->
    students <> [] ->
    forallb provided students = false ->
    inferByPageTexts page_texts (Z.of_nat (List.length students)) = [] ->
    let n := Z.of_nat (List.length students) in
    let doc := buildGreenMergedPdf_mapped pageCount students page_texts in
    (n <= pageCount ->
       doc = evenSplit pageCount n /\ List.concat doc = iota pageCount) /\
    (pageCount < n ->
       doc = map (fun i => [i]) (iota pageCount) ++
             repeat (iota pageCount) (Z.to_nat (n - pageCount))).
Proof.
  intros pageCount students page_texts Hp Hne Hprov Hinf n doc.
  assert (Hn : 0 < n) by (unfold n; destruct students; [congruence|simpl; lia]).
  assert (Hpages := even_branch_pages pageCount students page_texts
                      ltac:(lia) Hne Hprov Hinf).
  fold n in Hpages.
  assert (Hsl := evenSplit_slices pageCount n ltac:(lia) Hn).
  assert (Hsec := sections_of_mapped pageCount _ _ Hpages Hsl).
  assert (Hiota : iota pageCount <> []).
  { unfold iota. destruct (Z.to_nat pageCount) eqn:E; [lia|discriminate]. }
  unfold doc, buildGreenMergedPdf_mapped. rewrite Hsec. clear Hsec Hpages.
  split.
  - intros Hle.
    assert (Hfull : Forall (fun l : list Z => l <> []) (evenSplit pageCount n)).
    { apply Forall_nth. intros i d Hi.
      rewrite (evenSplit_length pageCount n ltac:(lia) Hn) in Hi.
      rewrite (nth_indep _ d []) by
        (rewrite (evenSplit_length pageCount n ltac:(lia) Hn); exact Hi).
      unfold evenSplit.
      destruct (Z.leb_spec n 0); [lia|].
      destruct (Z.leb_spec pageCount 0); [lia|]. cbn [orb].
      set (base := pageCount / n).
      assert (Hbase : 1 <= base).
      { unfold base. apply Z.div_le_lower_bound; lia. }
      assert (Hrem : 0 <= pageCount - base * n).
      { unfold base. pose proof (Z.mod_pos_bound pageCount n Hn) as Hm.
        rewrite Z.mod_eq in Hm by lia. lia. }
      destruct (evenSplit_loop_spec (Z.to_nat n) base (pageCount - base * n) 0
                  ltac:(lia) Hrem) as (_ & _ & Hsz).
      specialize (Hsz i Hi). intros Hnil. rewrite Hnil in Hsz. simpl in Hsz.
      destruct (Z.of_nat i <? pageCount - base * n); lia. }
    assert (Hid : map (fun l => match l with
                                | [] => iota pageCount
                                | _ :: _ => l
                                end) (evenSplit pageCount n) =
                  evenSplit pageCount n).
    { clear Hsl. induction Hfull as [|l r Hl Hr IH]; simpl; [reflexivity|].
      rewrite IH. destruct l; [congruence|reflexivity]. }
    rewrite Hid.
    rewrite filter_all.
    + split; [reflexivity|]. apply evenSplit_concat; lia.
    + eapply Forall_impl; [|exact Hfull]. intros [|a l] Hl; [congruence|reflexivity].
  - intros Hlt. unfold evenSplit.
    destruct (Z.leb_spec n 0); [lia|].
    destruct (Z.leb_spec pageCount 0); [lia|]. cbn [orb].
    rewrite (Z.div_small pageCount n) by lia.
    rewrite evenSplit_loop_base0 by lia.
    replace (Z.to_nat (Z.min (pageCount - 0 * n) (Z.of_nat (Z.to_nat n))))
      with (Z.to_nat pageCount) by lia.
    replace (Z.to_nat n - Z.to_nat pageCount)%nat
      with (Z.to_nat (n - pageCount)) by lia.
    rewrite map_app, filter_app. f_equal.
    + unfold iota. rewrite !map_map. cbn beta iota.
      rewrite filter_all; [reflexivity|].
      apply Forall_forall. intros x Hx. apply in_map_iff in Hx.
      now destruct Hx as (j & <- & _).
    + generalize (Z.to_nat (n - pageCount)) as m.
      induction m as [|m IH]; simpl; [reflexivity|].
      destruct (iota pageCount) eqn:E; [congruence|]. simpl.
      now rewrite IH.
Qed.

Lemma green_mapped_even_split_witness :
  buildGreenMergedPdf_mapped 2
    [empty_student; empty_student; empty_student] None =
  [[0]; [1]; [0; 1]].
Proof.
  destruct (green_mapped_even_split 2
              [empty_student; empty_student; empty_student] None
              ltac:(lia) ltac:(discriminate) eq_refl eq_refl) as [_ H].
  rewrite H by (simpl; lia). reflexivity.
Defined.

(** ** Header inference in general *)

Lemma in_range_from (c len x : Z) :
  In x (range_from c len) <-> c <= x < c + len.
Proof.
  unfold range_from. rewrite in_map_iff. split.
  - intros (k & <- & Hk). apply in_seq in Hk. lia.
  - intros H. exists (Z.to_nat (x - c)). split; [lia|]. apply in_seq. lia.
Qed.

Lemma range_from_cons (c len : Z) :
  0 < len -> range_from c len = c :: range_from (c + 1) (len - 1).
Proof.
  intros H.
  replace len with (1 + (len - 1)) at 1 by lia.
  rewrite <- range_from_app by lia.
  unfold range_from at 1. simpl. f_equal. lia.
Qed.

Lemma find_starts_skip (pre rest : list jsstring) :
  Forall (fun x => has_header x = false) pre ->
  forall i, find_starts i (pre ++ rest) =
            find_starts (i + Z.of_nat (List.length pre)) rest.
Proof.
  induction 1 as [|x pre Hx Hpre IH]; intros i; simpl.
  - f_equal. lia.
  - rewrite Hx, IH. f_equal. lia.
Qed.

Lemma build_ranges_sorted (starts : list Z) (total : Z) :
  Forall (StronglySorted Z.lt) (build_ranges starts total).
Proof.
  induction starts as [|s rest IH]; simpl; constructor; auto.
  apply range_from_sorted_Z.
Qed.

Section Blocks.

Variable hdr : Z -> bool.

(** The ranges built from a header at [s] followed by the headers found in
    [post], whose first page is [j]. *)
Lemma build_ranges_spec (post : list jsstring) :
  forall s j total,
    s < j -> total = j + Z.of_nat (List.length post) ->
    hdr s = true ->
    (forall p, s < p < j -> hdr p = false) ->
    (forall k, (k < List.length post)%nat ->
               hdr (j + Z.of_nat k) = has_header (nth k post [])) ->
    let blocks := build_ranges (s :: find_starts j post) total in
    List.length blocks = S (List.length (filter has_header post)) /\
    List.concat blocks = range_from s (total - s) /\
    Forall (fun blk => exists s' rest,
                blk = s' :: rest /\ hdr s' = true /\
                Forall (fun p => hdr p = false) rest) blocks.
Proof.
  assert (Hblock : forall s j, s < j -> hdr s = true ->
             (forall p, s < p < j -> hdr p = false) ->
             exists s' rest, range_from s (Z.max 0 (j - s)) = s' :: rest /\
                             hdr s' = true /\
                             Forall (fun p => hdr p = false) rest).
  { intros s j Hlt Hs Hgap. exists s, (range_from (s + 1) (j - s - 1)).
    split; [|split; [exact Hs|]].
    - replace (Z.max 0 (j - s)) with (j - s) by lia.
      apply range_from_cons. lia.
    - apply Forall_forall. intros p Hp. apply in_range_from in Hp.
      apply Hgap. lia. }
  induction post as [|t' post IH]; intros s j total Hlt Htot Hs Hgap Hpost.
  - cbn [find_starts build_ranges List.length filter List.concat] in *.
    replace total with j by lia.
    split; [reflexivity|]. split.
    + rewrite app_nil_r. f_equal. lia.
    + constructor; [|constructor]. now apply Hblock.
  - assert (Hj : hdr j = has_header t').
    { specialize (Hpost O ltac:(simpl; lia)). simpl in Hpost.
      now rewrite Z.add_0_r in Hpost. }
    assert (Hpost' : forall k, (k < List.length post)%nat ->
                hdr (j + 1 + Z.of_nat k) = has_header (nth k post [])).
    { intros k Hk. specialize (Hpost (S k) ltac:(simpl; lia)).
      cbn [nth] in Hpost. rewrite <- Hpost. f_equal. lia. }
    assert (Htot' : total = j + 1 + Z.of_nat (List.length post))
      by (simpl List.length in Htot; lia).
    cbn [find_starts filter].
    destruct (has_header t') eqn:Ht.
    + destruct (IH j (j + 1) total ltac:(lia) Htot' Hj ltac:(intros; lia) Hpost')
        as (Hlen & Hcat & Hall).
      change (build_ranges (s :: j :: find_starts (j + 1) post) total)
        with (range_from s (Z.max 0 (j - s)) ::
              build_ranges (j :: find_starts (j + 1) post) total).
      cbn [List.length List.concat].
      split; [now rewrite Hlen|]. split.
      * rewrite Hcat.
        replace (Z.max 0 (j - s)) with (j - s) by lia.
        replace j with (s + (j - s)) at 2 by lia.
        rewrite range_from_app by lia. f_equal. lia.
      * constructor; [now apply Hblock|exact Hall].
    + apply (IH s (j + 1) total ltac:(lia) Htot' Hs); [|exact Hpost'].
      intros p Hp. destruct (Z.eq_dec p j) as [->|Hne]; [exact Hj|].
      apply Hgap. lia.
Qed.

End Blocks.

Lemma header_page_app (pre post : list jsstring) (t : jsstring) :
  header_page (pre ++ t :: post) (Z.of_nat (List.length pre)) = has_header t /\
  forall k, (k < List.length post)%nat ->
    header_page (pre ++ t :: post) (Z.of_nat (List.length pre) + 1 + Z.of_nat k) =
    has_header (nth k post []).
Proof.
  unfold header_page, js_nth. split.
  - destruct (Z.ltb_spec (Z.of_nat (List.length pre)) 0); [lia|].
    rewrite Nat2Z.id, nth_error_app2, Nat.sub_diag by lia. reflexivity.
  - intros k Hk.
    destruct (Z.ltb_spec (Z.of_nat (List.length pre) + 1 + Z.of_nat k) 0); [lia|].
    replace (Z.to_nat (Z.of_nat (List.length pre) + 1 + Z.of_nat k))
      with (List.length pre + S k)%nat by lia.
    rewrite nth_error_app2 by lia.
    replace (List.length pre + S k - List.length pre)%nat with (S k) by lia.
    cbn [nth_error].
    now rewrite (nth_error_nth' post [] Hk).
Qed.

(** The blocks inferred from texts whose first header page is page
    [length pre]. *)
Lemma infer_blocks_spec (pre post : list jsstring) (t : jsstring)
    (expectedStudents : Z) :
  expectedStudents <> 0 ->
  Forall (fun x => has_header x = false) pre ->
  has_header t = true ->
  let texts := pre ++ t :: post in
  let blocks := inferByPageTexts (Some texts) expectedStudents in
  List.length blocks = List.length (filter has_header texts) /\
  List.concat blocks =
    range_from (Z.of_nat (List.length pre)) (Z.of_nat (S (List.length post))) /\
  Forall (fun blk => exists s rest,
              blk = s :: rest /\ header_page texts s = true /\
              Forall (fun p => header_page texts p = false) rest) blocks.
Proof.
  intros He Hpre Ht texts blocks.
  destruct (header_page_app pre post t) as [H0 Hk]. fold texts in H0, Hk.
  assert (Hstarts : find_starts 0 texts =
                    Z.of_nat (List.length pre) ::
                    find_starts (Z.of_nat (List.length pre) + 1) post).
  { unfold texts. rewrite find_starts_skip by exact Hpre.
    cbn [find_starts]. rewrite Ht. reflexivity. }
  assert (Hlen : Z.of_nat (List.length texts) =
                 Z.of_nat (List.length pre) + 1 + Z.of_nat (List.length post)).
  { unfold texts. rewrite length_app. simpl. lia. }
  destruct (build_ranges_spec (header_page texts) post
              (Z.of_nat (List.length pre)) (Z.of_nat (List.length pre) + 1)
              (Z.of_nat (List.length texts))
              ltac:(lia) Hlen ltac:(now rewrite H0) ltac:(intros; lia) Hk)
    as (Hcount & Hcat & Hall).
  assert (Hblocks : blocks =
            build_ranges (Z.of_nat (List.length pre) ::
                          find_starts (Z.of_nat (List.length pre) + 1) post)
                         (Z.of_nat (List.length texts))).
  { unfold blocks, inferByPageTexts.
    destruct (Z.eqb_spec (Z.of_nat (List.length texts)) 0); [lia|].
    destruct (Z.eqb_spec expectedStudents 0); [contradiction|].
    cbn [orb]. rewrite Hstarts. reflexivity. }
  rewrite Hblocks. split; [|split; [|exact Hall]].
  - rewrite Hcount. unfold texts. rewrite filter_app. cbn [filter].
    rewrite Ht, length_app.
    replace (filter has_header pre) with (@nil jsstring); [reflexivity|].
    clear -Hpre. induction Hpre as [|x l Hx Hl IH]; simpl; [reflexivity|].
    now rewrite Hx.
  - rewrite Hcat. f_equal. lia.
Qed.

(** X16.  Header inference in general.  When the first page with a header
    is page [length pre], [inferByPageTexts] returns one block per header
    page; every block starts on a header page and holds no other header
    page; and the blocks, in order, are the pages from the first header
    page to the last page of the document, so the pages before the first
    header are in no block. *)
Theorem inferred_blocks_tile :
  forall (pre post : list jsstring) (t : jsstring) (expectedStudents : Z),
    expectedStudents <> 0 ->
    Forall (fun x => has_header x = false) pre ->
    has_header t = true ->
    let texts := pre ++ t :: post in
    let blocks := inferByPageTexts (Some texts) expectedStudents in
    List.length blocks = List.length (filter has_header texts) /\
    List.concat blocks =
      range_from (Z.of_nat (List.length pre)) (Z.of_nat (S (List.length post))) /\
    Forall (fun blk => exists s rest,
                blk = s :: rest /\ header_page texts s = true /\
                Forall (fun p => header_page texts p = false) rest) blocks.
Proof.
  intros pre post t expectedStudents He Hpre Ht.
  exact (infer_blocks_spec pre post t expectedStudents He Hpre Ht).
Qed.

Lemma inferred_blocks_tile_witness :
  let h := lit "Name: A" ++ [LF] ++ lit "Roll: 1" in
  let b := lit "Q1. 42" in
  inferByPageTexts (Some ([b] ++ h :: [b; h; b; b])) 2 = [[1; 2]; [3; 4; 5]] /\
  List.concat (inferByPageTexts (Some ([b] ++ h :: [b; h; b; b])) 2) =
  range_from 1 5.
Proof.
  intros h b. split; [reflexivity|].
  destruct (inferred_blocks_tile [b] [b; h; b; b] h 2 ltac:(lia)
              ltac:(repeat constructor) eq_refl) as (_ & H & _).
  exact H.
Defined.

Lemma map_indexed_clean (totalPages : Z) (students : list StudentGraded) :
  forall split,
    List.length split = List.length students ->
    Forall (fun l => StronglySorted Z.lt l /\
                     Forall (fun i => 0 <= i < totalPages) l) split ->
    map page_indices
        (map_indexed
           (fun s i => with_pages s
              (normalizeIndices (map PInt (nth i split [])) totalPages))
           students) =
    map (fun l => Some (map PInt l)) split.
Proof.
  intros split Hlen Hsl.
  rewrite (map_indexed_nth
             (fun s l => with_pages s (normalizeIndices (map PInt l) totalPages)))
    by exact Hlen.
  revert split Hlen Hsl.
  induction students as [|s students IH]; intros [|a split] Hlen Hsl;
    simpl in *; try reflexivity; try discriminate.
  inversion Hsl as [|? ? [Ha1 Ha2] Hsl']; subst.
  rewrite normalizeIndices_sorted_id by assumption.
  f_equal. apply IH; [lia|exact Hsl'].
Qed.

(** X17.  Header mode with as many header pages as students: student [i]
    receives block [i] of [inferByPageTexts] unchanged, so the page lists,
    in student order, are the pages from the first header page to the end
    of the texts; the pages before the first header page are given to
    nobody. *)
Theorem header_mode_assigns_blocks :
  forall (pageCount : Z) (students : list StudentGraded)
         (pre post : list jsstring) (t : jsstring),
    let texts := pre ++ t :: post in
    Z.of_nat (List.length texts) <= pageCount < 2 ^ 31 ->
    forallb provided students = false ->
    Forall (fun x => has_header x = false) pre ->
    has_header t = true ->
    List.length (filter has_header texts) = List.length students ->
    let mapped := mapPagesToStudents pageCount students (Some texts) in
    map page_indices mapped =
      map (fun l => Some (map PInt l))
          (inferByPageTexts (Some texts) (Z.of_nat (List.length students))) /\
    List.concat
      (map (fun s => page_numbers (nullish_or (page_indices s) [])) mapped) =
    range_from (Z.of_nat (List.length pre)) (Z.of_nat (S (List.length post))).
Proof.
  intros pageCount students pre post t texts Hp Hprov Hpre Ht Hcount mapped.
  assert (Hn : (0 < List.length students)%nat).
  { rewrite <- Hcount. unfold texts. rewrite filter_app, length_app.
    cbn [filter]. rewrite Ht. simpl. lia. }
  destruct (infer_blocks_spec pre post t (Z.of_nat (List.length students))
              ltac:(lia) Hpre Ht) as (Hlen & Hcat & _).
  fold texts in Hlen, Hcat.
  set (blocks := inferByPageTexts (Some texts) (Z.of_nat (List.length students)))
    in *.
  assert (Hclean : Forall (fun l => StronglySorted Z.lt l /\
                                    Forall (fun i => 0 <= i < pageCount) l)
                          blocks).
  { assert (Hs : Forall (StronglySorted Z.lt) blocks).
    { unfold blocks, inferByPageTexts. destruct (_ || _); [constructor|].
      destruct (find_starts 0 texts); [constructor|].
      apply build_ranges_sorted. }
    rewrite Forall_forall in *. intros l Hl. split; [auto|].
    apply Forall_forall. intros x Hx.
    assert (Hin : In x (List.concat blocks)) by (apply in_concat; eauto).
    rewrite Hcat in Hin. apply in_range_from in Hin.
    unfold texts in Hp. rewrite length_app in Hp. simpl in Hp. lia. }
  assert (Hpages : map page_indices mapped =
                   map (fun l => Some (map PInt l)) blocks).
  { unfold mapped, mapPagesToStudents.
    destruct (Nat.eqb_spec (List.length students) 0); [lia|].
    rewrite Hprov. fold blocks.
    destruct (Nat.leb_spec 1 (List.length blocks)); [|lia].
    destruct (Nat.eqb_spec (List.length blocks) (List.length students));
      [|lia].
    rewrite to_int32_small by lia.
    apply map_indexed_clean; [lia|exact Hclean]. }
  split; [exact Hpages|].
  rewrite (concat_page_numbers _ _ Hpages). exact Hcat.
Qed.

Lemma header_mode_assigns_blocks_witness :
  let h := lit "Name: A" ++ [LF] ++ lit "Roll: 1" in
  let b := lit "Q1. 42" in
  map page_indices
      (mapPagesToStudents 6 [empty_student; empty_student]
                          (Some ([b] ++ h :: [b; h; b; b]))) =
  [Some [PInt 1; PInt 2]; Some [PInt 3; PInt 4; PInt 5]].
Proof.
  intros h b.
  destruct (header_mode_assigns_blocks 6 [empty_student; empty_student]
              [b] [b; h; b; b] h ltac:(simpl; lia) eq_refl
              ltac:(repeat constructor) eq_refl eq_refl) as [H _].
  exact (eq_trans H eq_refl).
Defined.

(** ** The pack selection in general *)

Lemma sorted_last {A} (R : A -> A -> Prop) (l : list A) (a : A) :
  StronglySorted R (l ++ [a]) -> Forall (fun m => R m a) l.
Proof.
  induction l as [|x l IH]; simpl; intros H; [constructor|].
  inversion H as [|? ? Hs Hx]; subst. constructor; [|auto].
  rewrite Forall_forall in Hx. apply Hx, in_or_app. right. now left.
Qed.

(** What the three picks are on a pool that is not empty. *)
Lemma picks_of_pool (pool : list mapped_entry) :
  pool <> [] ->
  let sorted := rank pool in
  let len := Z.of_nat (List.length sorted) in
  exists b a l,
    page_at sorted 0 = Some (pageIndex b) /\
    page_at sorted (len / 2) = Some (pageIndex a) /\
    page_at sorted (len - 1) = Some (pageIndex l) /\
    In b pool /\ In a pool /\ In l pool /\
    (forall m, In m pool -> score l <= score m <= score b) /\
    hd_error (filter (fun m => score m =? score b) pool) = Some b.
Proof.
  intros Hne sorted len.
  destruct (rank_descending pool) as [Hperm Hsorted].
  assert (Hstable := fun v => rank_stable v pool).
  fold sorted in Hperm, Hsorted, Hstable.
  assert (Hlen : 0 < len).
  { unfold len. destruct sorted as [|x r] eqn:E; [|simpl; lia].
    apply Permutation_nil in Hperm. contradiction. }
  assert (Hin : forall m, In m sorted <-> In m pool).
  { intros m. split; intros H.
    - eapply Permutation_in; [exact Hperm|exact H].
    - eapply Permutation_in; [symmetry; exact Hperm|exact H]. }
  destruct sorted as [|b rest] eqn:Eb; [simpl in len; lia|].
  destruct (exists_last (l := b :: rest) ltac:(discriminate)) as (front & l & El).
  destruct (nth_error (b :: rest) (Z.to_nat (len / 2))) as [a|] eqn:Ea.
  2:{ apply nth_error_None in Ea.
      assert (len / 2 < len) by (apply Z.div_lt; lia).
      unfold len in *. lia. }
  exists b, a, l.
  assert (Hmid : 0 <= len / 2) by (apply Z.div_pos; lia).
  split; [reflexivity|]. split.
  { unfold page_at, js_nth. destruct (Z.ltb_spec (len / 2) 0); [lia|].
    now rewrite Ea. }
  split.
  { unfold page_at, js_nth. destruct (Z.ltb_spec (len - 1) 0); [lia|].
    replace (Z.to_nat (len - 1)) with (List.length front).
    - rewrite El, nth_error_app2, Nat.sub_diag by lia. reflexivity.
    - unfold len. rewrite El, length_app. simpl. lia. }
  split; [apply Hin; now left|].
  split; [apply Hin; eapply nth_error_In; exact Ea|].
  split; [apply Hin; rewrite El; apply in_or_app; right; now left|].
  split.
  - intros m Hm. apply Hin in Hm. split.
    + rewrite El in Hm, Hsorted. apply in_app_or in Hm.
      destruct Hm as [Hm|[<-|[]]]; [|lia].
      apply sorted_last in Hsorted. rewrite Forall_forall in Hsorted.
      now apply Hsorted.
    + destruct Hm as [<-|Hm]; [lia|].
      inversion Hsorted as [|? ? _ Hb]; subst.
      rewrite Forall_forall in Hb. now apply Hb.
  - rewrite <- Hstable. simpl. now rewrite Z.eqb_refl.
Qed.

(** X18.  The Best, Avg and Low pages in general.  Let the pool be the
    mapped entries without the solution page (all of them when the first
    paper is not a solution).  On a pool that is not empty, Best, Avg and
    Low are pages of pool entries, so none of them is the solution page;
    Best has the highest and Low the lowest score of the pool, and among
    the top scorers Best is the first in document order.  On an empty
    pool all three fall back to the first mapped page, or to 0. *)
Theorem selection_is_extremal :
  forall (quiz : Quiz) (pageCount : Z),
    let sel := selectFromFormattedAndBuild quiz pageCount in
    let pool := match solutionIdx sel with
                | Some sol => filter (fun m => negb (pageIndex m =? sol))
                                     (mapped sel)
                | None => mapped sel
                end in
    (pool <> [] ->
       exists b a l,
         In b pool /\ In a pool /\ In l pool /\
         bestIdx sel = pageIndex b /\ avgIdx sel = pageIndex a /\
         lowIdx sel = pageIndex l /\
         (forall m, In m pool -> score l <= score m <= score b) /\
         hd_error (filter (fun m => score m =? score b) pool) = Some b /\
         (forall sol, solutionIdx sel = Some sol ->
                      bestIdx sel <> sol /\ avgIdx sel <> sol /\
                      lowIdx sel <> sol)) /\
    (pool = [] ->
       let fallback := nullish_or (page_at (mapped sel) 0) 0 in
       bestIdx sel = fallback /\ avgIdx sel = fallback /\
       lowIdx sel = fallback).
Proof.
  intros quiz pageCount sel pool.
  assert (Hsel : sel =
            mkSelection (mapped sel) (solutionIdx sel)
              (nullish_or (page_at (rank pool) 0)
                 (nullish_or (page_at pool 0)
                    (nullish_or (page_at (mapped sel) 0) 0)))
              (nullish_or (page_at (rank pool)
                             (Z.of_nat (List.length (rank pool)) / 2))
                 (nullish_or (page_at pool 0)
                    (nullish_or (page_at (mapped sel) 0) 0)))
              (nullish_or (page_at (rank pool)
                             (Z.of_nat (List.length (rank pool)) - 1))
                 (nullish_or (page_at pool 0)
                    (nullish_or (page_at (mapped sel) 0) 0)))).
  { unfold pool, sel, selectFromFormattedAndBuild.
    cbn [solutionIdx mapped].
    destruct (not_false (read_first_paper_is_solution quiz)); reflexivity. }
  split.
  - intros Hne.
    destruct (picks_of_pool pool Hne) as (b & a & l & Hb & Ha & Hl & Ib & Ia & Il
                                          & Hext & Hfirst).
    exists b, a, l.
    assert (HB : bestIdx sel = pageIndex b).
    { rewrite Hsel. cbn [bestIdx]. now rewrite Hb. }
    assert (HA : avgIdx sel = pageIndex a).
    { rewrite Hsel. cbn [avgIdx]. now rewrite Ha. }
    assert (HL : lowIdx sel = pageIndex l).
    { rewrite Hsel. cbn [lowIdx]. now rewrite Hl. }
    repeat (split; [assumption|]).
    intros sol Hsol. rewrite HB, HA, HL.
    assert (Hout : forall m, In m pool -> pageIndex m <> sol).
    { intros m Hm. unfold pool in Hm. rewrite Hsol in Hm.
      apply filter_In in Hm. destruct Hm as [_ Hm].
      destruct (Z.eqb_spec (pageIndex m) sol); [discriminate|assumption]. }
    auto.
  - intros Hnil fallback. rewrite Hsel.
    cbn [bestIdx avgIdx lowIdx SBAW.mapped]. rewrite Hnil.
    repeat split; reflexivity.
Qed.

Lemma selection_is_extremal_witness :
  let st := fun n => Some (mkStudent None None (Some n) None None None None) in
  let quiz := mkQuiz JNull JNull (JValue 1) JUndefined
                     (Some [st 0; st 70; st 95; st 95; st 20]) in
  let sel := selectFromFormattedAndBuild quiz 5 in
  solutionIdx sel = Some 0 /\ bestIdx sel = 2 /\ lowIdx sel = 4 /\
  bestIdx sel <> 0.
Proof.
  intros st quiz sel.
  destruct (selection_is_extremal quiz 5) as [H _].
  destruct (H ltac:(discriminate))
    as (b & a & l & _ & _ & _ & _ & _ & _ & _ & _ & Hs).
  destruct (Hs 0 eq_refl) as (Hb & _).
  repeat split; try reflexivity. exact Hb.
Defined.

(** ** The order of the pack *)

Lemma selection_fields (quiz : Quiz) (pageCount : Z) :
  let sel := selectFromFormattedAndBuild quiz pageCount in
  let pool := match solutionIdx sel with
              | Some sol => filter (fun m => negb (pageIndex m =? sol))
                                   (mapped sel)
              | None => mapped sel
              end in
  let fallback := nullish_or (page_at pool 0)
                             (nullish_or (page_at (mapped sel) 0) 0) in
  solutionIdx sel =
    (if not_false (read_first_paper_is_solution quiz)
     then Some (pickSolutionIndex (mapped sel)) else None) /\
  bestIdx sel = nullish_or (page_at (rank pool) 0) fallback /\
  avgIdx sel =
    nullish_or (page_at (rank pool) (Z.of_nat (List.length (rank pool)) / 2))
               fallback /\
  lowIdx sel =
    nullish_or (page_at (rank pool) (Z.of_nat (List.length (rank pool)) - 1))
               fallback.
Proof.
  unfold selectFromFormattedAndBuild. cbn [solutionIdx mapped bestIdx avgIdx lowIdx].
  destruct (not_false (read_first_paper_is_solution quiz)); repeat split.
Qed.

Lemma student_of_page_in (mapped : list mapped_entry) (p : Z) :
  In p (map pageIndex mapped) ->
  exists m, In m mapped /\ pageIndex m = p /\
            student_of_page mapped p = Some (student m).
Proof.
  intros Hin. unfold student_of_page.
  destruct (find (fun m => pageIndex m =? p) mapped) as [m|] eqn:E.
  - apply find_some in E. destruct E as [Hm Hp]. apply Z.eqb_eq in Hp. eauto.
  - apply in_map_iff in Hin. destruct Hin as (m & Hp & Hm).
    apply (find_none _ _ E) in Hm. simpl in Hm.
    apply Z.eqb_neq in Hm. contradiction.
Qed.

Lemma pickSolutionIndex_in (mapped : list mapped_entry) :
  mapped <> [] -> In (pickSolutionIndex mapped) (map pageIndex mapped).
Proof.
  intros Hne. unfold pickSolutionIndex.
  destruct (find looks_like_solution mapped) as [cand|] eqn:E.
  - apply find_some in E. apply in_map. tauto.
  - destruct mapped as [|m r]; [contradiction|]. now left.
Qed.

(** Each of the three picks is the page of a mapped entry. *)
Lemma picks_in_mapped (quiz : Quiz) (pageCount : Z) :
  let sel := selectFromFormattedAndBuild quiz pageCount in
  mapped sel <> [] ->
  In (bestIdx sel) (map pageIndex (mapped sel)) /\
  In (avgIdx sel) (map pageIndex (mapped sel)) /\
  In (lowIdx sel) (map pageIndex (mapped sel)).
Proof.
  intros sel Hne.
  destruct (selection_fields quiz pageCount) as (_ & HB & HA & HL).
  fold sel in HB, HA, HL.
  set (pool := match solutionIdx sel with
               | Some sol => filter (fun m => negb (pageIndex m =? sol))
                                    (mapped sel)
               | None => mapped sel
               end) in *.
  assert (Hsub : forall m, In m pool -> In m (mapped sel)).
  { intros m. unfold pool. destruct (solutionIdx sel); [|auto].
    intros H. apply filter_In in H. tauto. }
  destruct pool as [|x pool'] eqn:Epool.
  - assert (Hf : In (nullish_or (page_at (mapped sel) 0) 0)
                    (map pageIndex (mapped sel))).
    { clear -Hne. revert Hne.
      destruct (mapped sel) as [|m r]; intros Hne; [contradiction|].
      now left. }
    rewrite HB, HA, HL. repeat split; exact Hf.
  - destruct (picks_of_pool (x :: pool') ltac:(discriminate))
      as (b & a & l & Hb & Ha & Hl & Ib & Ia & Il & _).
    rewrite HB, HA, HL, Hb, Ha, Hl. cbn [nullish_or].
    repeat split; apply in_map; auto.
Qed.

Lemma build_mapped_nil (pageCount pagesPerStudent : Z)
    (graded : list (option StudentGraded)) :
  0 <= pageCount -> 1 <= pagesPerStudent ->
  (build_mapped pageCount pagesPerStudent graded = [] <->
   graded = [] \/ pageCount < pagesPerStudent).
Proof.
  intros Hpc Hp. unfold build_mapped.
  set (u := Z.min _ _).
  assert (Hu : u <= 0 <-> graded = [] \/ pageCount < pagesPerStudent).
  { unfold u. split.
    - intros H. destruct graded as [|g graded]; [now left|right].
      destruct (Z.lt_ge_cases pageCount pagesPerStudent) as [|Hge]; [assumption|].
      assert (1 <= pageCount / pagesPerStudent)
        by (apply Z.div_le_lower_bound; lia).
      simpl List.length in H. lia.
    - intros [->|Hlt]; [simpl; lia|].
      rewrite (Z.div_small pageCount pagesPerStudent) by lia. lia. }
  rewrite <- Hu. split.
  - intros H. destruct (Z.to_nat u) eqn:E; [lia|discriminate].
  - intros H. replace (Z.to_nat u) with O by lia. reflexivity.
Qed.

(** X19.  The pack of [buildSBABSingle].  When no student block fits
    (no graded record, or fewer pages than one block) building the order
    fails, because the student of a missing entry is read.  Otherwise the
    order is Solution (only when the first paper is read as the solution),
    Best, Avg, Low, each on its selected page, and the student drawn on
    each page is the mapped student whose block starts on that page. *)
Theorem pack_order :
  forall (quiz : Quiz) (pageCount : Z),
    0 <= pageCount ->
    let sel := selectFromFormattedAndBuild quiz pageCount in
    let graded := nullish_or (graded_json quiz) [] in
    let p := Z.max 1 (num_or (no_of_pages quiz) 1) in
    (graded = [] \/ pageCount < p -> build_order sel = None) /\
    (graded <> [] -> p <= pageCount ->
       exists items,
         build_order sel = Some items /\
         map label items =
           (if not_false (read_first_paper_is_solution quiz)
            then [Solution] else []) ++ [Best; Avg; Low] /\
         map page items =
           match solutionIdx sel with
           | Some sol => [sol]
           | None => []
           end ++ [bestIdx sel; avgIdx sel; lowIdx sel] /\
         Forall (fun it => exists m, In m (mapped sel) /\
                                     pageIndex m = page it /\
                                     item_student it = student m) items).
Proof.
  intros quiz pageCount Hpc sel graded p.
  assert (Hp : 1 <= p) by (unfold p; lia).
  assert (Hnil := build_mapped_nil pageCount p graded Hpc Hp).
  assert (Hm : mapped sel = build_mapped pageCount p graded) by reflexivity.
  rewrite <- Hm in Hnil.
  split.
  - intros H. apply Hnil in H. unfold build_order. rewrite H.
    destruct (solutionIdx sel); reflexivity.
  - intros Hg Hfit.
    assert (Hne : mapped sel <> []).
    { intros H. apply Hnil in H. destruct H; [contradiction|lia]. }
    destruct (picks_in_mapped quiz pageCount Hne) as (HB & HA & HL).
    fold sel in HB, HA, HL.
    destruct (student_of_page_in _ _ HB) as (mb & Ib & Pb & Sb).
    destruct (student_of_page_in _ _ HA) as (ma & Ia & Pa & Sa).
    destruct (student_of_page_in _ _ HL) as (ml & Il & Pl & Sl).
    destruct (selection_fields quiz pageCount) as (Hsol & _).
    fold sel in Hsol.
    unfold build_order, item_for. rewrite Sb, Sa, Sl, Hsol.
    destruct (not_false (read_first_paper_is_solution quiz)).
    + destruct (student_of_page_in _ _ (pickSolutionIndex_in _ Hne))
        as (ms & Is & Ps & Ss).
      rewrite Ss. eexists. split; [reflexivity|].
      split; [reflexivity|]. split; [reflexivity|].
      repeat constructor; cbn [page item_student]; eauto.
    + eexists. split; [reflexivity|].
      split; [reflexivity|]. split; [reflexivity|].
      repeat constructor; cbn [page item_student]; eauto.
Qed.

Lemma pack_order_witness :
  let st := fun n => Some (mkStudent None None (Some n) None None None None) in
  let quiz := mkQuiz JNull JNull (JValue 2) JUndefined
                     (Some [st 0; st 70; st 95]) in
  (exists items,
     build_order (selectFromFormattedAndBuild quiz 6) = Some items /\
     map label items = [Solution; Best; Avg; Low]) /\
  build_order (selectFromFormattedAndBuild quiz 1) = None.
Proof.
  intros st quiz. split.
  - destruct (pack_order quiz 6 ltac:(lia)) as [_ H].
    destruct (H ltac:(discriminate) ltac:(simpl; lia)) as (items & H1 & H2 & _).
    exists items. split; [exact H1|exact H2].
  - destruct (pack_order quiz 1 ltac:(lia)) as [H _].
    apply H. right. simpl. lia.
Defined.

(** ** Totals of the forced solution record *)

Section SolutionTotals.
Context {num : Type} {N : JsNumber num}.






End SolutionTotals.


(** On doubles the two sums do differ.  With a first question of maximum
    0.1 and a second one whose subparts have the maxima 0.2 and 0.3, the
    new [total_score] is 0.1 + (0.2 + 0.3) = 0.6 and the new [max_score]
    is ((0.1 + 0.2) + 0.3) = 0.6000000000000001. *)
Example solution_totals_differ_by_rounding :
  let tenths := fun k : float => Some (k / 10)%float in
  let sp := fun k => Some (mkGradedSubpart None None (tenths k) None) in
  let q1 := Some (mkGradedQuestion None None (tenths 1%float) None None None) in
  let q2 := Some (mkGradedQuestion None None None None None
                    (Some [sp 2%float; sp 3%float])) in
  let first := mkGradedRecord None None None None (Some [q1; q2]) None in
  exists first' total full,
    forceSolutionFullMarks_record first = Finished first' /\
    gr_total_score first' = Some total /\
    gr_max_score first' = Some full /\
    total = (1 / 10 + (2 / 10 + 3 / 10))%float /\
    full = (1 / 10 + 2 / 10 + 3 / 10)%float /\
    PrimFloat.ltb total full = true.
Proof.
  cbv zeta. eexists _, _, _. split; [vm_compute; reflexivity|].
  split; [reflexivity|]. split; [reflexivity|].
  repeat split; vm_compute; reflexivity.
Qed.

(** ** The header the prompts ask for is the header the page mapper finds *)

Lemma includes_app (a b sub : jsstring) :
  includes (a ++ sub ++ b) sub = true.
Proof.
  induction a as [|c a IH]; simpl.
  - destruct (sub ++ b) eqn:E; simpl.
    + destruct sub; [reflexivity|discriminate].
    + rewrite <- E, startsWith_app. reflexivity.
  - rewrite IH. apply orb_true_r.
Qed.

Lemma startsWith_true (pre : jsstring) :
  forall s, startsWith pre s = true -> exists rest, s = pre ++ rest.
Proof.
  induction pre as [|a pre IH]; intros s H; [now exists s|].
  destruct s as [|b s]; [discriminate|]. simpl in H.
  apply andb_true_iff in H. destruct H as [Hab H].
  apply Ascii.eqb_eq in Hab. subst b.
  destruct (IH s H) as (rest & ->). now exists rest.
Qed.

Lemma includes_suffix (s a b : jsstring) :
  includes s (a ++ b) = true -> includes s b = true.
Proof.
  induction s as [|c s IH]; cbn [includes]; intros H;
    apply orb_true_iff in H; destruct H as [H|H]; try discriminate.
  - apply startsWith_true in H. destruct H as (rest & H).
    destruct a; destruct b; try discriminate. reflexivity.
  - apply startsWith_true in H. destruct H as (rest & H).
    change (includes (c :: s) b = true). rewrite H, <- app_assoc.
    apply includes_app.
  - apply orb_true_iff. right. now apply IH.
Qed.

Lemma toLowerCase_app (a b : jsstring) :
  toLowerCase (a ++ b) = toLowerCase a ++ toLowerCase b.
Proof. apply map_app. Qed.

(** X21.  A page text that holds the header the OCR prompts ask for,
    [Name: <name>], a newline, [Roll: <roll>], whatever the two values
    are and whatever precedes or follows, passes the header test of
    [inferByPageTexts]; the test ignores letter case and position, and a
    text without a colon never passes. *)
Theorem prompted_header_is_detected :
  forall (name roll before after : jsstring),
    has_header (before ++ header_lines name roll ++ after) = true /\
    has_header (toLowerCase (before ++ header_lines name roll ++ after)) = true /\
    (forall text, includes text (lit ":") = false -> has_header text = false).
Proof.
  intros name roll before after.
  assert (H : forall t, t = before ++ header_lines name roll ++ after \/
                        t = toLowerCase (before ++ header_lines name roll ++ after) ->
                        has_header t = true).
  { intros t Ht. unfold has_header.
    assert (Hl : toLowerCase t =
                 toLowerCase before ++ lit "name:" ++
                 (lit " " ++ toLowerCase name ++ [LF]) ++ lit "roll:" ++
                 (lit " " ++ toLowerCase roll ++ [LF] ++ lit "----" ++ [LF] ++
                  toLowerCase after)).
    { assert (Hidem : forall s, toLowerCase (toLowerCase s) = toLowerCase s).
      { intros s. unfold toLowerCase. rewrite map_map. apply map_ext.
        intros c. destruct c as [[] [] [] [] [] [] [] []]; reflexivity. }
      assert (Hbase : toLowerCase (before ++ header_lines name roll ++ after) =
                 toLowerCase before ++ lit "name:" ++
                 (lit " " ++ toLowerCase name ++ [LF]) ++ lit "roll:" ++
                 (lit " " ++ toLowerCase roll ++ [LF] ++ lit "----" ++ [LF] ++
                  toLowerCase after)).
      { unfold header_lines. rewrite !toLowerCase_app.
        change (toLowerCase (lit "Name: ")) with (lit "name:" ++ lit " ").
        change (toLowerCase (lit "Roll: ")) with (lit "roll:" ++ lit " ").
        change (toLowerCase [LF]) with [LF].
        change (toLowerCase (lit "----")) with (lit "----").
        rewrite <- !app_assoc. reflexivity. }
      destruct Ht as [->| ->]; [exact Hbase|]. now rewrite Hidem. }
    rewrite Hl. rewrite includes_app. cbn [andb].
    rewrite (app_assoc (toLowerCase before)).
    rewrite (app_assoc (toLowerCase before ++ lit "name:")).
    apply includes_app. }
  split; [apply H; now left|]. split; [apply H; now right|].
  intros text Hno. unfold has_header.
  assert (Hsub : forall s : jsstring,
             includes s (lit "name:") = true -> includes s (lit ":") = true).
  { intros s. apply (includes_suffix s (lit "name") (lit ":")). }
  destruct (includes (toLowerCase text) (lit "name:")) eqn:E; [|reflexivity].
  apply Hsub in E. exfalso.
  assert (Hcolon : forall s, includes (toLowerCase s) (lit ":") = includes s (lit ":")).
  { induction s as [|c s IHs]; [reflexivity|].
    cbn [toLowerCase map includes]. fold (toLowerCase s). rewrite IHs. f_equal.
    cbn. destruct c as [[] [] [] [] [] [] [] []]; reflexivity. }
  rewrite Hcolon in E. congruence.
Qed.

(** ** Wrapping remarks into lines *)

Lemma join_snoc (sep : jsstring) (g : list jsstring) (w : jsstring) :
  g <> [] -> join sep (g ++ [w]) = join sep g ++ sep ++ w.
Proof.
  induction g as [|x g IH]; intros Hne; [contradiction|].
  destruct g as [|y g]; [reflexivity|].
  change (join sep ((x :: y :: g) ++ [w]))
    with (x ++ sep ++ join sep ((y :: g) ++ [w])).
  rewrite IH by discriminate.
  change (join sep (x :: y :: g)) with (x ++ sep ++ join sep (y :: g)).
  now rewrite <- !app_assoc.
Qed.

Lemma join_nonempty (sep : jsstring) (g : list jsstring) :
  g <> [] -> Forall (fun w => w <> []) g -> join sep g <> [].
Proof.
  intros Hne Hall. destruct g as [|x g]; [contradiction|].
  inversion Hall as [|? ? Hx _]; subst.
  destruct x as [|c x]; [contradiction|].
  destruct g; simpl; discriminate.
Qed.

(** The pieces of a string that neither starts nor ends with white space
    are not empty and hold no white space. *)
Lemma split_go_words (s : jsstring) :
  forall skipping cur,
    (forall pre x, s = pre ++ [x] -> is_space x = false) ->
    (skipping = true -> s <> []) ->
    (skipping = false ->
       cur <> [] \/ exists c r, s = c :: r /\ is_space c = false) ->
    Forall (fun c => is_space c = false) cur ->
    Forall (fun w => w <> [] /\ Forall (fun c => is_space c = false) w)
           (split_go skipping cur s).
Proof.
  induction s as [|c r IH]; intros skipping cur Hend Hskip Hstart Hcur.
  - destruct skipping; [now specialize (Hskip eq_refl)|].
    destruct (Hstart eq_refl) as [Hc|(c & r & H & _)]; [|discriminate].
    repeat constructor; assumption.
  - assert (Hend' : forall pre x, r = pre ++ [x] -> is_space x = false).
    { intros pre x ->. apply (Hend (c :: pre) x). reflexivity. }
    cbn [split_go]. destruct (is_space c) eqn:Ec.
    + assert (Hr : r <> []).
      { intros ->. specialize (Hend [] c eq_refl). congruence. }
      destruct skipping.
      * apply IH; auto; try discriminate.
      * constructor.
        -- split; [|exact Hcur].
           destruct (Hstart eq_refl) as [Hc|(c' & r' & H & Hc')]; [exact Hc|].
           injection H as <- <-. congruence.
        -- apply IH; auto; try discriminate.
    + apply IH; auto.
      * discriminate.
      * intros _. left. destruct cur; discriminate.
      * apply Forall_app. split; [exact Hcur|]. repeat constructor. exact Ec.
Qed.

Lemma split_go_nonempty (s : jsstring) :
  forall skipping cur, split_go skipping cur s <> [].
Proof.
  induction s as [|c r IH]; intros skipping cur; cbn [split_go];
    [discriminate|].
  destruct (is_space c); [destruct skipping|]; try apply IH; discriminate.
Qed.

Lemma split_trimmed (s : jsstring) :
  trim s <> [] ->
  Forall (fun w => w <> [] /\ Forall (fun c => is_space c = false) w)
         (split_ws (trim s)).
Proof.
  intros Hne. destruct (trim_fixed s) as [Hd He].
  apply split_go_words; try discriminate; [| |constructor].
  - intros pre x Hx.
    pose proof (dropWhileEnd_last is_space (trim s)) as Hl.
    rewrite He, Hx, rev_app_distr in Hl. exact Hl.
  - intros _. right. destruct (trim s) as [|c r] eqn:E; [contradiction|].
    exists c, r. split; [reflexivity|].
    now apply dropWhile_fixed_head in Hd.
Qed.

Section Wrap.

Variable maxChars : Z.

Lemma wrap_greedy_extend (done : list (list jsstring)) (curg : list jsstring)
    (w : jsstring) :
  curg <> [] ->
  wrap_greedy maxChars (done ++ [curg]) ->
  wrap_greedy maxChars (done ++ [curg ++ [w]]).
Proof.
  intros Hne. induction done as [|g done IH]; intros H.
  - simpl. auto.
  - destruct H as [Hadj Hrest]. split; [|apply IH; exact Hrest].
    destruct done as [|g2 done]; [|exact Hadj].
    cbn [app] in *. destruct curg as [|w0 curg]; [contradiction|exact Hadj].
Qed.

Lemma wrap_greedy_break (done : list (list jsstring)) (curg : list jsstring)
    (w : jsstring) :
  maxChars < Z.of_nat (List.length (join space (curg ++ [w]))) ->
  wrap_greedy maxChars (done ++ [curg]) ->
  wrap_greedy maxChars ((done ++ [curg]) ++ [[w]]).
Proof.
  intros Hlong. induction done as [|g done IH]; intros H.
  - simpl. auto.
  - destruct H as [Hadj Hrest]. split; [|apply IH; exact Hrest].
    destruct done as [|g2 done]; exact Hadj.
Qed.

(** The loop from a state whose current line is not empty. *)
Lemma wrap_fold (ws : list jsstring) :
  forall (done : list (list jsstring)) (curg : list jsstring),
    curg <> [] ->
    Forall (fun w => w <> []) curg ->
    Forall (fun w => w <> []) ws ->
    Forall (fun g => g <> []) (done ++ [curg]) ->
    Forall (wrap_fits maxChars) (done ++ [curg]) ->
    wrap_greedy maxChars (done ++ [curg]) ->
    exists groups cur,
      fold_left (wrap_step maxChars) ws
                (map (join space) done, join space curg) =
        (map (join space) (removelast groups), cur) /\
      cur <> [] /\ groups <> [] /\
      cur = join space (last groups []) /\
      List.concat groups = List.concat (done ++ [curg]) ++ ws /\
      Forall (fun g => g <> []) groups /\
      Forall (wrap_fits maxChars) groups /\
      wrap_greedy maxChars groups.
Proof.
  induction ws as [|w ws IH]; intros done curg Hne Hcur Hws Hgs Hfit Hgr.
  - exists (done ++ [curg]), (join space curg).
    rewrite removelast_last, last_last, app_nil_r. cbn [fold_left].
    repeat split; auto.
    + now apply join_nonempty.
    + destruct done; discriminate.
  - inversion Hws as [|? ? Hw Hws']; subst.
    cbn [fold_left]. unfold wrap_step at 2.
    destruct (join space curg) as [|c0 j0] eqn:Ej.
    { exfalso. now apply (join_nonempty space curg). }
    rewrite <- Ej, <- join_snoc by exact Hne.
    destruct (Z.ltb_spec maxChars
                (Z.of_nat (List.length (join space (curg ++ [w])))))
      as [Hlong|Hshort].
    + destruct (IH (done ++ [curg]) [w]) as (groups & cur & H);
        try (repeat constructor; assumption); try discriminate.
      * apply Forall_app. split; [exact Hgs|].
        constructor; [discriminate|constructor].
      * apply Forall_app. split; [exact Hfit|].
        constructor; [now left|constructor].
      * now apply wrap_greedy_break.
      * exists groups, cur.
        rewrite map_app in H. cbn [map join] in H.
        destruct H as (H1 & H2 & H3 & H4 & H5 & H6).
        split; [exact H1|]. split; [exact H2|]. split; [exact H3|].
        split; [exact H4|]. split; [|exact H6].
        rewrite H5, concat_app. cbn [List.concat]. rewrite app_nil_r.
        now rewrite <- app_assoc.
    + destruct (IH done (curg ++ [w])) as (groups & cur & H).
      * destruct curg; discriminate.
      * apply Forall_app. split; [exact Hcur|].
        constructor; [exact Hw|constructor].
      * exact Hws'.
      * apply Forall_app in Hgs. destruct Hgs as [Hd _].
        apply Forall_app. split; [exact Hd|].
        constructor; [destruct curg; discriminate|constructor].
      * apply Forall_app in Hfit. destruct Hfit as [Hd _].
        apply Forall_app. split; [exact Hd|].
        constructor; [now right|constructor].
      * now apply wrap_greedy_extend.
      * exists groups, cur.
        destruct H as (H1 & H2 & H3 & H4 & H5 & H6).
        split; [exact H1|]. split; [exact H2|]. split; [exact H3|].
        split; [exact H4|]. split; [|exact H6].
        rewrite H5, !concat_app. cbn [List.concat]. rewrite !app_nil_r.
        now rewrite <- !app_assoc.
Qed.

(** The whole loop on words that are not empty. *)
Lemma wrap_words (w0 : jsstring) (ws : list jsstring) :
  Forall (fun w => w <> []) (w0 :: ws) ->
  exists groups,
    (let (out, cur) := fold_left (wrap_step maxChars) (w0 :: ws) ([], []) in
     match cur with
     | [] => out
     | _ :: _ => out ++ [cur]
     end) = map (join space) groups /\
    List.concat groups = w0 :: ws /\
    Forall (fun g => g <> []) groups /\
    Forall (wrap_fits maxChars) groups /\
    wrap_greedy maxChars groups.
Proof.
  intros Hall. inversion Hall as [|? ? Hw0 Hws]; subst.
  assert (Hfirst : wrap_step maxChars ([], []) w0 = ([], w0)).
  { unfold wrap_step. destruct (_ <? _); reflexivity. }
  cbn [fold_left]. rewrite Hfirst.
  destruct (wrap_fold ws [] [w0]) as (groups & cur & H).
  - discriminate.
  - constructor; [exact Hw0|constructor].
  - exact Hws.
  - constructor; [discriminate|constructor].
  - constructor; [now left|constructor].
  - simpl. auto.
  - destruct H as (H1 & H2 & H3 & H4 & H5 & H6).
    exists groups. cbn [map join] in H1. rewrite H1.
    split; [|split; [exact H5|exact H6]].
    destruct cur as [|c cur]; [contradiction|].
    rewrite H4, <- map_last.
    destruct (exists_last H3) as (front & g & ->).
    now rewrite removelast_last, last_last, map_app.
Qed.

End Wrap.

(** X22.  [wrapLines] of the page-mapping builder.  A text that is empty
    after trimming gives no line.  Otherwise the words (the pieces between
    runs of white space, none of them empty) are kept, in order and
    unbroken: the lines are the words of consecutive groups joined by one
    space; a line of more than one word is at most [maxChars] long, so only
    a single word longer than [maxChars] can overflow; and the grouping is
    greedy, each line but the first starting with a word that did not
    fit on the line before. *)
Theorem wrapLines_greedy :
  forall (text : option jsstring) (maxChars : Z),
    let t := trim (or_empty text) in
    let words := split_ws t in
    let lines := wrapLines text maxChars in
    (t = [] -> lines = []) /\
    (t <> [] ->
       Forall (fun w => w <> [] /\ Forall (fun c => is_space c = false) w)
              words /\
       exists groups,
         lines = map (join space) groups /\
         List.concat groups = words /\
         Forall (fun g => g <> []) groups /\
         Forall (wrap_fits maxChars) groups /\
         wrap_greedy maxChars groups).
Proof.
  intros text maxChars t words lines. split.
  - intros Ht. unfold lines, wrapLines. fold t. now rewrite Ht.
  - intros Ht.
    assert (Hwords := split_trimmed (or_empty text) Ht). fold t words in Hwords.
    split; [exact Hwords|].
    assert (Hne : Forall (fun w : jsstring => w <> []) words).
    { eapply Forall_impl; [|exact Hwords]. simpl. tauto. }
    destruct words as [|w0 ws] eqn:Ew.
    { exfalso. unfold words, split_ws in Ew.
      now apply (split_go_nonempty t false []). }
    destruct (wrap_words maxChars w0 ws Hne) as (groups & H1 & H2 & H3 & H4 & H5).
    exists groups. split; [|auto].
    unfold lines, wrapLines. fold t.
    destruct t as [|c r] eqn:Et; [contradiction|].
    fold words. rewrite Ew. exact H1.
Qed.

Lemma wrapLines_greedy_witness :
  exists groups,
    wrapLines (Some (lit "  good work  but show all steps ")) 12 =
      map (join space) groups /\
    List.concat groups =
      [lit "good"; lit "work"; lit "but"; lit "show"; lit "all"; lit "steps"].
Proof.
  destruct (wrapLines_greedy (Some (lit "  good work  but show all steps ")) 12)
    as [_ H].
  destruct (H ltac:(discriminate)) as (_ & groups & Hl & Hc & _).
  exists groups. split; [exact Hl|exact Hc].
Defined.

(** ** Fewer header pages than students: the spillover *)

Lemma filter_map_ext {A B} (f g : A -> option B) (l : list A) :
  (forall a, f a = g a) -> filter_map f l = filter_map g l.
Proof.
  intros H. induction l as [|a l IH]; simpl; [reflexivity|].
  now rewrite H, IH.
Qed.

Lemma filter_map_map {A B C} (f : B -> option C) (g : A -> B) (l : list A) :
  filter_map f (map g l) = filter_map (fun a => f (g a)) l.
Proof.
  induction l as [|a l IH]; simpl; [reflexivity|]. now rewrite IH.
Qed.

Lemma prefix_of_list {A} (rem : list A) :
  forall len, (len <= List.length rem)%nat ->
    filter_map (fun k => nth_error rem k) (seq 0 len) = firstn len rem.
Proof.
  induction rem as [|x rem IH]; intros len Hle.
  - simpl in Hle. assert (len = O) by lia. subst. reflexivity.
  - destruct len as [|len]; [reflexivity|].
    cbn [seq]. rewrite <- seq_shift.
    cbn [JsArray.filter_map nth_error firstn]. f_equal.
    rewrite filter_map_map. apply IH. simpl in Hle. lia.
Qed.

Lemma chunk_of_list {A} (rem : list A) (cursor len : nat) :
  (cursor + len <= List.length rem)%nat ->
  filter_map (fun k => nth_error rem (cursor + k)) (seq 0 len) =
  firstn len (skipn cursor rem).
Proof.
  intros Hle.
  rewrite (filter_map_ext _ (fun k => nth_error (skipn cursor rem) k))
    by (intros k; symmetry; apply nth_error_skipn).
  apply prefix_of_list. rewrite length_skipn. lia.
Qed.

Lemma in_firstn {A} (x : A) (n : nat) (l : list A) :
  In x (firstn n l) -> In x l.
Proof.
  intros H. rewrite <- (firstn_skipn n l). apply in_or_app. now left.
Qed.

Lemma in_skipn {A} (x : A) (n : nat) (l : list A) :
  In x (skipn n l) -> In x l.
Proof.
  intros H. rewrite <- (firstn_skipn n l). apply in_or_app. now right.
Qed.

Lemma sorted_skipn (l : list Z) (n : nat) :
  StronglySorted Z.lt l -> StronglySorted Z.lt (skipn n l).
Proof.
  revert l. induction n as [|n IH]; intros l H; [exact H|].
  destruct l as [|x l]; [constructor|]. simpl. apply IH.
  now inversion H.
Qed.

Lemma sorted_firstn (l : list Z) (n : nat) :
  StronglySorted Z.lt l -> StronglySorted Z.lt (firstn n l).
Proof.
  revert l. induction n as [|n IH]; intros l H; [constructor|].
  destruct l as [|x l]; [constructor|]. simpl.
  inversion H as [|? ? Hs Hx]; subst. constructor; [now apply IH|].
  rewrite Forall_forall in *. intros y Hy. apply Hx.
  eapply in_firstn. exact Hy.
Qed.

Lemma Forall_chunk {A} (P : A -> Prop) (l : list A) (c n : nat) :
  Forall P l -> Forall P (firstn n (skipn c l)).
Proof.
  intros H. rewrite Forall_forall in *. intros x Hx. apply H.
  eapply in_skipn, in_firstn. exact Hx.
Qed.

(** The second loop hands out the uncovered pages in consecutive chunks. *)
Lemma assign_remaining_chunks (totalPages : Z) (rem : list Z) :
  StronglySorted Z.lt rem ->
  Forall (fun i => 0 <= i < totalPages) rem ->
  forall (rest : list StudentGraded) (todo done : list (list Z)) (cursor : nat),
    List.length rest = List.length todo ->
    (cursor + List.length (List.concat todo) = List.length rem)%nat ->
    List.concat
      (map (fun s => page_numbers (nullish_or (page_indices s) []))
           (assign_remaining rest (List.length done) (done ++ todo) rem cursor
                             totalPages)) =
    skipn cursor rem.
Proof.
  intros Hs Hr.
  induction rest as [|s rest IH]; intros [|a todo] done cursor Hlen Hsum;
    try discriminate.
  - simpl in *. rewrite skipn_all2 by lia. reflexivity.
  - cbn [assign_remaining map List.concat].
    rewrite app_nth2, Nat.sub_diag by lia. cbn [nth].
    cbn [List.concat] in Hsum. rewrite length_app in Hsum.
    rewrite chunk_of_list by lia.
    rewrite normalizeIndices_sorted_id
      by (try apply sorted_firstn; try apply sorted_skipn;
          try apply Forall_chunk; assumption).
    cbn [with_pages page_indices nullish_or]. rewrite page_numbers_ints.
    replace (S (List.length done)) with (List.length (done ++ [a]))
      by (rewrite length_app; simpl; lia).
    replace (done ++ a :: todo) with ((done ++ [a]) ++ todo)
      by (now rewrite <- app_assoc).
    rewrite IH by (simpl in Hlen; lia).
    rewrite <- (firstn_skipn (List.length a) (skipn cursor rem)) at 2.
    f_equal. rewrite skipn_skipn. f_equal. lia.
Qed.

Lemma filter_none {A} (f : A -> bool) (l : list A) :
  Forall (fun x => f x = false) l -> filter f l = [].
Proof.
  induction 1 as [|x l Hx Hl IH]; simpl; [reflexivity|]. now rewrite Hx.
Qed.

Lemma in_blocks (blocks : list (list Z)) (p : Z) :
  existsb (fun blk => existsb (Z.eqb p) blk) blocks = true <->
  In p (List.concat blocks).
Proof.
  rewrite existsb_exists, in_concat. split.
  - intros (blk & Hb & Hp). apply existsb_exists in Hp.
    destruct Hp as (y & Hy & Heq). apply Z.eqb_eq in Heq. subst y. eauto.
  - intros (blk & Hb & Hp). exists blk. split; [exact Hb|].
    apply existsb_exists. exists p. split; [exact Hp|apply Z.eqb_refl].
Qed.

(** The pages outside the blocks when the blocks are the pages [[a, b)]. *)
Lemma uncovered_pages (blocks : list (list Z)) (a b total : Z) :
  0 <= a <= b -> b <= total ->
  List.concat blocks = range_from a (b - a) ->
  filter (fun p => negb (existsb (fun blk => existsb (Z.eqb p) blk) blocks))
         (range_from 0 total) =
  range_from 0 a ++ range_from b (total - b).
Proof.
  intros Ha Hb Hcat.
  assert (Hin : forall p,
             existsb (fun blk => existsb (Z.eqb p) blk) blocks = true <->
             a <= p < b).
  { intros p. rewrite in_blocks, Hcat, in_range_from. lia. }
  replace total with (a + ((b - a) + (total - b))) at 1 by lia.
  rewrite <- range_from_app by lia.
  rewrite <- range_from_app by lia.
  replace (0 + a + (b - a)) with b by lia. rewrite Z.add_0_l.
  rewrite !filter_app. rewrite (filter_none _ (range_from a (b - a))).
  - rewrite !filter_all; [reflexivity| |].
    + apply Forall_forall. intros p Hp. apply in_range_from in Hp.
      destruct (existsb _ blocks) eqn:E; [|reflexivity].
      apply Hin in E. lia.
    + apply Forall_forall. intros p Hp. apply in_range_from in Hp.
      destruct (existsb _ blocks) eqn:E; [|reflexivity].
      apply Hin in E. lia.
  - apply Forall_forall. intros p Hp. apply in_range_from in Hp.
    destruct (existsb _ blocks) eqn:E; [reflexivity|].
    assert (Hp' : a <= p < b) by lia. apply Hin in Hp'. congruence.
Qed.

Lemma sorted_two_ranges (a b len : Z) :
  0 <= a <= b ->
  StronglySorted Z.lt (range_from 0 a ++ range_from b len).
Proof.
  intros Hab.
  assert (H : forall l1 l2 : list Z,
             StronglySorted Z.lt l1 -> StronglySorted Z.lt l2 ->
             (forall x y, In x l1 -> In y l2 -> x < y) ->
             StronglySorted Z.lt (l1 ++ l2)).
  { induction l1 as [|x l1 IH]; intros l2 H1 H2 Hlt; [exact H2|].
    inversion H1 as [|? ? Hs Hx]; subst. simpl. constructor.
    - apply IH; auto. intros; apply Hlt; simpl; auto.
    - apply Forall_app. split; [exact Hx|].
      apply Forall_forall. intros y Hy. apply Hlt; simpl; auto. }
  apply H; try apply range_from_sorted_Z.
  intros x y Hx Hy. apply in_range_from in Hx, Hy. lia.
Qed.

(** X23.  Fewer header pages than students.  The first students, one per
    header page, receive the header blocks; the others share, in order and
    in consecutive chunks, exactly the pages that no block holds: the
    pages before the first header page and the pages beyond the texts.
    So every page of the document is given to exactly one student. *)
Theorem spillover_covers_document :
  forall (pageCount : Z) (students : list StudentGraded)
         (pre post : list jsstring) (t : jsstring),
    let texts := pre ++ t :: post in
    let k := List.length (filter has_header texts) in
    Z.of_nat (List.length texts) <= pageCount < 2 ^ 31 ->
    forallb provided students = false ->
    Forall (fun x => has_header x = false) pre ->
    has_header t = true ->
    (k < List.length students)%nat ->
    let mapped := mapPagesToStudents pageCount students (Some texts) in
    let pages := fun s => page_numbers (nullish_or (page_indices s) []) in
    map page_indices (firstn k mapped) =
      map (fun l => Some (map PInt l))
          (inferByPageTexts (Some texts) (Z.of_nat (List.length students))) /\
    List.concat (map pages (skipn k mapped)) =
      range_from 0 (Z.of_nat (List.length pre)) ++
      range_from (Z.of_nat (List.length texts))
                 (pageCount - Z.of_nat (List.length texts)) /\
    Permutation (List.concat (map pages mapped)) (iota pageCount).
Proof.
  intros pageCount students pre post t texts k Hp Hprov Hpre Ht Hk mapped pages.
  subst pages.
  set (n := List.length students) in *.
  destruct (infer_blocks_spec pre post t (Z.of_nat n) ltac:(lia) Hpre Ht)
    as (Hlen & Hcat & _).
  fold texts in Hlen, Hcat. fold k in Hlen.
  set (blocks := inferByPageTexts (Some texts) (Z.of_nat n)) in *.
  assert (Htexts : Z.of_nat (List.length texts) =
                   Z.of_nat (List.length pre) + Z.of_nat (S (List.length post))).
  { unfold texts. rewrite length_app. simpl. lia. }
  assert (Hk1 : (1 <= k)%nat).
  { unfold k, texts. rewrite filter_app, length_app. cbn [filter].
    rewrite Ht. simpl. lia. }
  assert (Hclean : Forall (fun l => StronglySorted Z.lt l /\
                                    Forall (fun i => 0 <= i < pageCount) l)
                          blocks).
  { assert (Hs : Forall (StronglySorted Z.lt) blocks).
    { unfold blocks, inferByPageTexts. destruct (_ || _); [constructor|].
      destruct (find_starts 0 texts); [constructor|].
      apply build_ranges_sorted. }
    rewrite Forall_forall in *. intros l Hl. split; [auto|].
    apply Forall_forall. intros x Hx.
    assert (Hin : In x (List.concat blocks)) by (apply in_concat; eauto).
    rewrite Hcat in Hin. apply in_range_from in Hin. lia. }
  set (rem := range_from 0 (Z.of_nat (List.length pre)) ++
              range_from (Z.of_nat (List.length texts))
                         (pageCount - Z.of_nat (List.length texts))).
  assert (Hrem : filter (fun p => negb (existsb (fun blk => existsb (Z.eqb p) blk)
                                                blocks))
                        (range_from 0 pageCount) = rem).
  { apply uncovered_pages; [lia|lia|]. rewrite Hcat. f_equal. lia. }
  assert (Hrem_sorted : StronglySorted Z.lt rem)
    by (apply sorted_two_ranges; lia).
  assert (Hrem_range : Forall (fun i => 0 <= i < pageCount) rem).
  { apply Forall_forall. intros x Hx. apply in_app_or in Hx.
    destruct Hx as [Hx|Hx]; apply in_range_from in Hx; lia. }
  set (split := evenSplit (Z.of_nat (List.length rem)) (Z.of_nat (n - k))).
  assert (Hsplit_len : List.length split = (n - k)%nat).
  { unfold split. rewrite evenSplit_length by lia. lia. }
  assert (Hsplit_cat : List.length (List.concat split) = List.length rem).
  { unfold split. rewrite evenSplit_concat by lia.
    unfold iota. rewrite length_map, length_seq. lia. }
  assert (Hmapped : mapped =
            map_indexed
              (fun s i => with_pages s
                 (normalizeIndices (map PInt (nth i blocks [])) pageCount))
              (firstn k students) ++
            assign_remaining (skipn k students) 0 split rem 0 pageCount).
  { unfold mapped, mapPagesToStudents. fold n.
    destruct (Nat.eqb_spec n 0); [lia|].
    rewrite Hprov. fold blocks. rewrite Hlen.
    destruct (Nat.leb_spec 1 k); [|lia].
    destruct (Nat.eqb_spec k n); [lia|].
    rewrite (Nat.min_r n k) by lia.
    destruct (Nat.ltb_spec k n); [|lia].
    rewrite to_int32_small by lia. rewrite Hrem. reflexivity. }
  assert (Hout : List.length
                   (map_indexed
                      (fun s i => with_pages s
                         (normalizeIndices (map PInt (nth i blocks [])) pageCount))
                      (firstn k students)) = k).
  { unfold map_indexed.
    assert (Hmf : forall {A B} (f : A -> nat -> B) l i,
               List.length (map_from f i l) = List.length l).
    { intros A B f l. induction l as [|x l IHl]; intros i; simpl; auto. }
    rewrite Hmf, length_firstn. fold n. lia. }
  assert (Hfirst : map page_indices (firstn k mapped) =
                   map (fun l => Some (map PInt l)) blocks).
  { rewrite Hmapped, firstn_app, Hout, Nat.sub_diag. cbn [firstn].
    rewrite app_nil_r, <- Hout at 1. rewrite firstn_all.
    apply map_indexed_clean; [|exact Hclean].
    rewrite Hlen, length_firstn. fold n. lia. }
  assert (Hrest : List.concat
                    (map (fun s => page_numbers (nullish_or (page_indices s) []))
                         (skipn k mapped)) = rem).
  { rewrite Hmapped, skipn_app, Hout, Nat.sub_diag. cbn [skipn].
    rewrite <- Hout at 1. rewrite skipn_all. cbn [app].
    apply (assign_remaining_chunks pageCount rem Hrem_sorted Hrem_range
             (skipn k students) split [] 0%nat).
    - rewrite length_skipn. fold n. lia.
    - lia. }
  split; [exact Hfirst|]. split; [exact Hrest|].
  rewrite <- (firstn_skipn k mapped), map_app, concat_app, Hrest.
  rewrite (concat_page_numbers _ _ Hfirst), Hcat.
  assert (Hall : iota pageCount =
                 range_from 0 (Z.of_nat (List.length pre)) ++
                 range_from (Z.of_nat (List.length pre))
                            (Z.of_nat (S (List.length post))) ++
                 range_from (Z.of_nat (List.length texts))
                            (pageCount - Z.of_nat (List.length texts))).
  { rewrite <- range_from_0. rewrite Htexts.
    rewrite (range_from_app (Z.of_nat (List.length pre))) by lia.
    rewrite <- (Z.add_0_l (Z.of_nat (List.length pre))) at 2.
    rewrite range_from_app by lia. f_equal. lia. }
  rewrite Hall. unfold rem. rewrite !app_assoc.
  apply Permutation_app_tail, Permutation_app_comm.
Qed.

Lemma spillover_covers_document_witness :
  let h := lit "Name: A" ++ [LF] ++ lit "Roll: 1" in
  let b := lit "Q1. 42" in
  map page_indices
      (mapPagesToStudents 7
         [empty_student; empty_student; empty_student]
         (Some ([b; b] ++ h :: [b; b]))) =
  [Some [PInt 2; PInt 3; PInt 4]; Some [PInt 0; PInt 1]; Some [PInt 5; PInt 6]] /\
  Permutation
    (List.concat
       (map (fun s => page_numbers (nullish_or (page_indices s) []))
            (mapPagesToStudents 7
               [empty_student; empty_student; empty_student]
               (Some ([b; b] ++ h :: [b; b])))))
    (iota 7).
Proof.
  intros h b. split; [reflexivity|].
  destruct (spillover_covers_document 7
              [empty_student; empty_student; empty_student]
              [b; b] [b; b] h ltac:(simpl; lia) eq_refl
              ltac:(repeat constructor) eq_refl ltac:(simpl; lia))
    as (_ & _ & H).
  exact H.
Defined.

(** ** More header pages than students *)

Lemma map_indexed_clean_prefix (totalPages : Z) (students : list StudentGraded) :
  forall split,
    (List.length students <= List.length split)%nat ->
    Forall (fun l => StronglySorted Z.lt l /\
                     Forall (fun i => 0 <= i < totalPages) l) split ->
    map page_indices
        (map_indexed
           (fun s i => with_pages s
              (normalizeIndices (map PInt (nth i split [])) totalPages))
           students) =
    map (fun l => Some (map PInt l)) (firstn (List.length students) split).
Proof.
  unfold map_indexed.
  induction students as [|s students IH]; intros split Hlen Hsl;
    [reflexivity|].
  destruct split as [|a split]; [simpl in Hlen; lia|].
  inversion Hsl as [|? ? [Ha1 Ha2] Hsl']; subst.
  cbn [map_from map List.length firstn nth with_pages page_indices].
  rewrite normalizeIndices_sorted_id by assumption. f_equal.
  rewrite map_from_shift. cbn [nth].
  apply IH; [simpl in Hlen; lia|exact Hsl'].
Qed.

Lemma NoDup_range_from (c len : Z) : NoDup (range_from c len).
Proof. apply strict_sorted_NoDup, range_from_sorted_Z. Qed.

Lemma NoDup_app_disjoint {A} (l1 l2 : list A) (x : A) :
  NoDup (l1 ++ l2) -> In x l1 -> In x l2 -> False.
Proof.
  induction l1 as [|a l1 IH]; simpl; intros H H1 H2; [contradiction|].
  inversion H as [|? ? Hnin Hnd]; subst.
  destruct H1 as [->|H1]; [|now apply IH].
  apply Hnin, in_or_app. now right.
Qed.

(** X24.  More header pages than students.  The students receive the
    first blocks, one each and unchanged; the later blocks are given to
    nobody, so no page of a later block is in any student's list. *)
Theorem surplus_blocks_are_dropped :
  forall (pageCount : Z) (students : list StudentGraded)
         (pre post : list jsstring) (t : jsstring),
    let texts := pre ++ t :: post in
    let n := List.length students in
    Z.of_nat (List.length texts) <= pageCount < 2 ^ 31 ->
    students <> [] ->
    forallb provided students = false ->
    Forall (fun x => has_header x = false) pre ->
    has_header t = true ->
    (n < List.length (filter has_header texts))%nat ->
    let blocks := inferByPageTexts (Some texts) (Z.of_nat n) in
    let mapped := mapPagesToStudents pageCount students (Some texts) in
    map page_indices mapped =
      map (fun l => Some (map PInt l)) (firstn n blocks) /\
    (forall p s, In p (List.concat (skipn n blocks)) -> In s mapped ->
                 ~ In p (page_numbers (nullish_or (page_indices s) []))).
Proof.
  intros pageCount students pre post t texts n Hp Hne Hprov Hpre Ht Hk
         blocks mapped.
  assert (Hn : (0 < n)%nat).
  { unfold n. destruct students; [congruence|simpl; lia]. }
  destruct (infer_blocks_spec pre post t (Z.of_nat n) ltac:(lia) Hpre Ht)
    as (Hlen & Hcat & _).
  fold texts blocks in Hlen, Hcat.
  assert (Htexts : Z.of_nat (List.length texts) =
                   Z.of_nat (List.length pre) + Z.of_nat (S (List.length post))).
  { unfold texts. rewrite length_app. simpl. lia. }
  assert (Hclean : Forall (fun l => StronglySorted Z.lt l /\
                                    Forall (fun i => 0 <= i < pageCount) l)
                          blocks).
  { assert (Hs : Forall (StronglySorted Z.lt) blocks).
    { unfold blocks, inferByPageTexts. destruct (_ || _); [constructor|].
      destruct (find_starts 0 texts); [constructor|].
      apply build_ranges_sorted. }
    rewrite Forall_forall in *. intros l Hl. split; [auto|].
    apply Forall_forall. intros x Hx.
    assert (Hin : In x (List.concat blocks)) by (apply in_concat; eauto).
    rewrite Hcat in Hin. apply in_range_from in Hin. lia. }
  assert (Hpages : map page_indices mapped =
                   map (fun l => Some (map PInt l)) (firstn n blocks)).
  { unfold mapped, mapPagesToStudents. fold n.
    destruct (Nat.eqb_spec n 0); [lia|].
    rewrite Hprov. fold blocks. rewrite Hlen.
    destruct (Nat.leb_spec 1 (List.length (filter has_header texts))); [|lia].
    destruct (Nat.eqb_spec (List.length (filter has_header texts)) n); [lia|].
    rewrite (Nat.min_l n) by lia.
    destruct (Nat.ltb_spec n n); [lia|].
    rewrite to_int32_small by lia.
    replace (firstn n students) with students
      by (symmetry; apply firstn_all).
    apply map_indexed_clean_prefix; [fold n; lia|exact Hclean]. }
  split; [exact Hpages|].
  intros p s Hp_later Hs Hp_s.
  assert (Hin : In p (List.concat
                        (map (fun s => page_numbers
                                         (nullish_or (page_indices s) []))
                             mapped))).
  { apply in_concat. eexists. split; [|exact Hp_s].
    apply in_map_iff. eauto. }
  rewrite (concat_page_numbers _ _ Hpages) in Hin.
  apply (NoDup_app_disjoint (List.concat (firstn n blocks))
                            (List.concat (skipn n blocks)) p);
    [|exact Hin|exact Hp_later].
  rewrite <- concat_app, firstn_skipn, Hcat. apply NoDup_range_from.
Qed.

Lemma surplus_blocks_are_dropped_witness :
  let h := lit "Name: A" ++ [LF] ++ lit "Roll: 1" in
  let b := lit "Q1. 42" in
  map page_indices
      (mapPagesToStudents 4 [empty_student] (Some ([] ++ h :: [b; h; b]))) =
  [Some [PInt 0; PInt 1]].
Proof.
  intros h b.
  destruct (surplus_blocks_are_dropped 4 [empty_student] [] [b; h; b] h
              ltac:(simpl; lia) ltac:(discriminate) eq_refl
              ltac:(constructor) eq_refl ltac:(simpl; lia)) as [H _].
  exact (eq_trans H eq_refl).
Defined.

(** ** The CSV export can be read back *)

Import GraderCsv.

Lemma is_dquote_eq (c : ascii) : is_dquote c = true -> c = dquote.
Proof.
  destruct c as [[] [] [] [] [] [] [] []]; vm_compute; intros H;
    try discriminate; reflexivity.
Qed.

(** What is left to read after a field: nothing, or a separator. *)
Lemma csv_read_closed (mode : csv_mode) (cur : jsstring) (row : list jsstring)
    (rows : list (list jsstring)) (rest : jsstring) :
  mode <> Quoted ->
  match rest with
  | [] => True
  | c :: _ => is_comma c = true \/ is_newline c = true
  end ->
  csv_read mode cur row rows rest = csv_read Bare cur row rows rest.
Proof.
  intros Hm Hrest. destruct rest as [|c r]; [reflexivity|].
  destruct mode; try contradiction; cbn [csv_read];
    destruct Hrest as [H|H]; rewrite H; try reflexivity;
    destruct (is_comma c); reflexivity.
Qed.

Lemma csv_read_plain (t : jsstring) :
  forall mode cur row rows rest,
    mode = AtStart \/ mode = Bare ->
    Forall (fun c => (is_dquote c || is_comma c || is_newline c) = false) t ->
    match rest with
    | [] => True
    | c :: _ => is_comma c = true \/ is_newline c = true
    end ->
    csv_read mode cur row rows (t ++ rest) =
    csv_read Bare (cur ++ t) row rows rest.
Proof.
  induction t as [|c t IH]; intros mode cur row rows rest Hm Ht Hrest.
  - rewrite app_nil_r. cbn [app]. apply csv_read_closed; [|exact Hrest].
    destruct Hm as [-> | ->]; discriminate.
  - inversion Ht as [|? ? Hc Ht']; subst.
    apply orb_false_iff in Hc. destruct Hc as [Hc Hn].
    apply orb_false_iff in Hc. destruct Hc as [Hq Hcm].
    cbn [app csv_read].
    assert (Hstep : csv_read mode cur row rows (c :: t ++ rest) =
                    csv_read Bare (cur ++ [c]) row rows (t ++ rest)).
    { destruct Hm as [-> | ->]; cbn [csv_read]; now rewrite Hcm, Hn, Hq. }
    cbn [csv_read] in Hstep. rewrite Hstep.
    rewrite (IH Bare) by auto. now rewrite <- app_assoc.
Qed.

Lemma csv_read_quoted (t : jsstring) :
  forall cur row rows rest,
    csv_read Quoted cur row rows
      (flat_map (fun c => if is_dquote c then [dquote; dquote] else [c]) t ++
       dquote :: rest) =
    csv_read QuoteSeen (cur ++ t) row rows rest.
Proof.
  induction t as [|c t IH]; intros cur row rows rest.
  - rewrite app_nil_r. reflexivity.
  - cbn [flat_map]. destruct (is_dquote c) eqn:Hq.
    + apply is_dquote_eq in Hq. subst c.
      cbn [app]. change (csv_read Quoted cur row rows (dquote :: dquote :: ?x))
        with (csv_read Quoted (cur ++ [dquote]) row rows x).
      rewrite IH. now rewrite <- app_assoc.
    + cbn [app csv_read]. rewrite Hq, IH. now rewrite <- app_assoc.
Qed.

(** Reading one escaped field. *)
Lemma csv_read_field (f : option jsstring) (row : list jsstring)
    (rows : list (list jsstring)) (rest : jsstring) :
  match rest with
  | [] => True
  | c :: _ => is_comma c = true \/ is_newline c = true
  end ->
  csv_read AtStart [] row rows (csvEscape f ++ rest) =
  csv_read Bare (nullish_or f []) row rows rest.
Proof.
  intros Hrest. unfold csvEscape. cbv zeta.
  destruct (existsb _ (nullish_or f [])) eqn:E.
  - cbn [app]. change (csv_read AtStart [] row rows (dquote :: ?x))
      with (csv_read Quoted [] row rows x).
    rewrite <- app_assoc. cbn [app]. rewrite csv_read_quoted. cbn [app].
    apply csv_read_closed; [discriminate|exact Hrest].
  - rewrite csv_read_plain; [reflexivity|now left| |exact Hrest].
    apply Forall_forall. intros c Hc.
    destruct (is_dquote c || is_comma c || is_newline c) eqn:Ec; [|reflexivity].
    assert (existsb (fun c => is_dquote c || is_comma c || is_newline c)
                    (nullish_or f []) = true).
    { apply existsb_exists. eauto. }
    congruence.
Qed.

(** Reading one line of escaped fields, up to the end or a line feed. *)
Lemma csv_read_line (fields : list (option jsstring)) :
  fields <> [] ->
  forall row rows rest,
    match rest with
    | [] => True
    | c :: _ => is_newline c = true
    end ->
    csv_read AtStart [] row rows
             (join (lit ",") (map csvEscape fields) ++ rest) =
    match rest with
    | [] => rows ++ [row ++ map (fun f => nullish_or f []) fields]
    | _ :: r =>
        csv_read AtStart [] []
                 (rows ++ [row ++ map (fun f => nullish_or f []) fields]) r
    end.
Proof.
  induction fields as [|f fields IH]; intros Hne row rows rest Hrest;
    [contradiction|].
  destruct fields as [|f2 fields].
  - cbn [map join]. rewrite csv_read_field.
    + destruct rest as [|c r]; [reflexivity|].
      cbn [csv_read]. rewrite Hrest.
      destruct (is_comma c) eqn:Ec; [|reflexivity].
      exfalso. revert Hrest Ec. clear.
      destruct c as [[] [] [] [] [] [] [] []]; vm_compute; congruence.
    + destruct rest; auto.
  - change (join (lit ",") (map csvEscape (f :: f2 :: fields)))
      with (csvEscape f ++ lit "," ++ join (lit ",") (map csvEscape (f2 :: fields))).
    rewrite <- !app_assoc.
    rewrite csv_read_field by (left; reflexivity).
    change (csv_read Bare (nullish_or f []) row rows (lit "," ++ ?x))
      with (csv_read AtStart [] (row ++ [nullish_or f []]) rows x).
    rewrite IH by (discriminate || exact Hrest).
    cbn [map]. rewrite <- !app_assoc. reflexivity.
Qed.

(** Reading a whole document of such lines. *)
Lemma csv_read_lines (lines : list (list (option jsstring))) :
  lines <> [] ->
  Forall (fun fields => fields <> []) lines ->
  forall rows,
    csv_read AtStart [] [] rows
             (join [LF] (map (fun fields => join (lit ",") (map csvEscape fields))
                             lines)) =
    rows ++ map (map (fun f => nullish_or f [])) lines.
Proof.
  induction lines as [|l lines IH]; intros Hne Hall rows; [contradiction|].
  inversion Hall as [|? ? Hl Hall']; subst.
  destruct lines as [|l2 lines].
  - cbn [map join].
    rewrite <- (app_nil_r (join (lit ",") (map csvEscape l))).
    rewrite csv_read_line by auto. reflexivity.
  - change (join [LF] (map (fun fields => join (lit ",") (map csvEscape fields))
                           (l :: l2 :: lines)))
      with (join (lit ",") (map csvEscape l) ++ [LF] ++
            join [LF] (map (fun fields => join (lit ",") (map csvEscape fields))
                           (l2 :: lines))).
    rewrite csv_read_line by (auto || reflexivity).
    cbn [app]. rewrite IH by (discriminate || assumption).
    cbn [map]. rewrite <- app_assoc. reflexivity.
Qed.

(** X25.  The exported CSV can be read back.  Read in the manner of
    RFC 4180, the content built by the export handler is the header
    record followed by one record of seven fields per grade row, and
    every field is the exported value itself, whatever commas, double
    quotes or line feeds it holds; a missing value is the empty field. *)
Theorem csv_export_round_trip :
  forall (quizId : jsstring) (created_at : option jsstring)
         (rows : list graded_fields),
    csv_parse (csvContent quizId created_at rows) =
    csv_header ::
    map (fun s =>
           [quizId; nullish_or created_at [];
            nullish_or (f_student_name s) []; nullish_or (f_roll_number s) [];
            nullish_or (f_total_score s) []; nullish_or (f_max_score s) [];
            nullish_or (f_remarks s) []])
        rows.
Proof.
  intros quizId created_at rows.
  unfold csv_parse, csvContent.
  set (fields := fun s : graded_fields =>
         [Some quizId; created_at; f_student_name s; f_roll_number s;
          f_total_score s; f_max_score s; f_remarks s]).
  assert (Hhead : join (lit ",") csv_header =
                  join (lit ",") (map csvEscape (map Some csv_header)))
    by reflexivity.
  assert (Hlines : join (lit ",") csv_header ::
                   map (csv_line quizId created_at) rows =
                   map (fun fields => join (lit ",") (map csvEscape fields))
                       (map Some csv_header :: map fields rows)).
  { cbn [map]. rewrite Hhead. f_equal. rewrite map_map. reflexivity. }
  rewrite Hlines, csv_read_lines.
  - cbn [app map]. f_equal. rewrite map_map. reflexivity.
  - discriminate.
  - constructor; [discriminate|].
    apply Forall_forall. intros l Hl. apply in_map_iff in Hl.
    destruct Hl as (s & <- & _). discriminate.
Qed.

(** ** Quiz identifiers *)

Import GraderText.

Lemma matches_Forall2 (pat : list (ascii -> bool)) :
  forall v, matches pat v = true -> Forall2 (fun cls c => cls c = true) pat v.
Proof.
  induction pat as [|cls pat IH]; intros [|c v] H; simpl in H;
    try discriminate; [constructor|].
  apply andb_true_iff in H. destruct H as [Hc H]. constructor; auto.
Qed.

Lemma uuid_classes :
  Forall (fun cls : ascii -> bool =>
            forall c, cls c = true ->
                      (is_hex c || is_dash c) = true /\
                      cls (lower_char c) = true)
         uuid_pattern.
Proof.
  assert (Hhex : forall c, is_hex c = true ->
                   (is_hex c || is_dash c) = true /\
                   is_hex (lower_char c) = true).
  { intros c. destruct c as [[] [] [] [] [] [] [] []]; vm_compute;
      intros H; try discriminate; split; reflexivity. }
  assert (Hdash : forall c, is_dash c = true ->
                    (is_hex c || is_dash c) = true /\
                    is_dash (lower_char c) = true).
  { intros c. destruct c as [[] [] [] [] [] [] [] []]; vm_compute;
      intros H; try discriminate; split; reflexivity. }
  assert (Hver : forall c, in_range 49 53 c = true ->
                   (is_hex c || is_dash c) = true /\
                   in_range 49 53 (lower_char c) = true).
  { intros c. destruct c as [[] [] [] [] [] [] [] []]; vm_compute;
      intros H; try discriminate; split; reflexivity. }
  assert (Hvar : forall c, is_variant c = true ->
                   (is_hex c || is_dash c) = true /\
                   is_variant (lower_char c) = true).
  { intros c. destruct c as [[] [] [] [] [] [] [] []]; vm_compute;
      intros H; try discriminate; split; reflexivity. }
  unfold uuid_pattern. cbn [repeat app].
  repeat (constructor;
          [first [exact Hhex | exact Hdash | exact Hver | exact Hvar]|]).
  constructor.
Qed.

(** X26.  An identifier accepted by [isUUID] has exactly 36 characters,
    all of them hexadecimal digits or dashes, with the dashes at positions
    8, 13, 18 and 23; so it holds no slash, dot or white space.  Its
    lower-case form is accepted as well. *)
Theorem isUUID_shape :
  forall v : jsstring,
    isUUID v = true ->
    List.length v = 36%nat /\
    Forall (fun c => (is_hex c || is_dash c) = true) v /\
    (forall i, In i [8; 13; 18; 23]%nat ->
               option_map is_dash (nth_error v i) = Some true) /\
    isUUID (toLowerCase v) = true.
Proof.
  intros v H. apply matches_Forall2 in H.
  assert (Hlen : List.length v = 36%nat).
  { apply Forall2_length in H. rewrite <- H. reflexivity. }
  pose proof uuid_classes as Hcls.
  assert (Hall : Forall (fun c => (is_hex c || is_dash c) = true) v /\
                 matches uuid_pattern (toLowerCase v) = true).
  { revert Hcls. clear Hlen. induction H as [|cls c pat v Hc H IH];
      intros Hcls; [split; [constructor|reflexivity]|].
    inversion Hcls as [|? ? Hcl Hcls']; subst.
    destruct (IH Hcls') as [IH1 IH2]. destruct (Hcl c Hc) as [H1 H2].
    split; [constructor; assumption|].
    cbn [toLowerCase map matches]. fold (toLowerCase v).
    now rewrite H2, IH2. }
  split; [exact Hlen|]. split; [apply Hall|]. split; [|apply Hall].
  intros i Hi.
  do 36 (destruct v as [|? v]; [discriminate|]).
  destruct v; [|discriminate].
  unfold uuid_pattern in H. cbn [repeat app] in H.
  repeat match goal with
         | H : Forall2 _ (_ :: _) (_ :: _) |- _ =>
             let Hh := fresh "Hh" in
             let Ht := fresh "Ht" in
             apply Forall2_cons_iff in H; destruct H as [Hh Ht]
         end.
  simpl in Hi.
  destruct Hi as [<-|[<-|[<-|[<-|[]]]]]; cbn [nth_error option_map];
    f_equal; assumption.
Qed.

Lemma isUUID_shape_witness :
  Forall (fun c => (is_hex c || is_dash c) = true)
         (lit "3F2504E0-4f89-41d3-9A0c-0305e82c3301") /\
  isUUID (toLowerCase (lit "3F2504E0-4f89-41d3-9A0c-0305e82c3301")) = true.
Proof.
  destruct (isUUID_shape (lit "3F2504E0-4f89-41d3-9A0c-0305e82c3301") eq_refl)
    as (_ & H1 & _ & H2).
  split; assumption.
Defined.

(** ** Code fences around the model's answer *)

Lemma dropWhile_all_app (p : ascii -> bool) (a b : jsstring) :
  Forall (fun c => p c = true) a -> dropWhile p (a ++ b) = dropWhile p b.
Proof.
  induction 1 as [|c a Hc Ha IH]; simpl; [reflexivity|]. now rewrite Hc.
Qed.

Lemma trim_snoc_space (s : jsstring) (c : ascii) :
  is_space c = true -> trim (s ++ [c]) = trim s.
Proof.
  intros Hc. induction s as [|d r IH].
  - unfold trim. simpl. now rewrite Hc.
  - destruct (is_space d) eqn:Ed.
    + unfold trim in *. simpl. rewrite Ed. exact IH.
    + unfold trim. simpl. rewrite Ed.
      change (d :: r ++ [c]) with ((d :: r) ++ [c]).
      unfold dropWhileEnd. rewrite rev_app_distr. simpl. now rewrite Hc.
Qed.

Lemma dropWhile_before_fence (body tail : jsstring) :
  dropWhile is_space (body ++ LF :: fence ++ tail) =
  dropWhile is_space (body ++ [LF]) ++ fence ++ tail.
Proof.
  induction body as [|c body IH]; [reflexivity|].
  cbn [app dropWhile]. destruct (is_space c); [exact IH|].
  cbn [app]. f_equal. rewrite <- app_assoc. reflexivity.
Qed.

Lemma strip_close_fence (d trail : jsstring) :
  Forall (fun c => is_space c = true) trail ->
  strip_close (d ++ fence ++ trail) = dropWhileEnd is_space d.
Proof.
  intros Ht. unfold strip_close. cbv zeta.
  rewrite !rev_app_distr.
  rewrite <- app_assoc.
  rewrite dropWhile_all_app by (now apply Forall_rev).
  change (rev fence) with fence.
  change (dropWhile is_space (fence ++ rev d)) with (fence ++ rev d).
  rewrite startsWith_app.
  change (skipn 3 (fence ++ rev d)) with (rev d).
  reflexivity.
Qed.

(** X27.  [stripCodeFences] unwraps a fenced answer: for every body, the
    text made of an opening fence, with or without the tag "json" in any
    letter case, a line feed, the body, a line feed and a closing fence,
    with any white space before and after, becomes the trimmed body.  A
    text that neither starts nor ends with a fence, white space apart, is
    only trimmed. *)
Theorem stripCodeFences_unwraps :
  forall (lead tag body trail : jsstring),
    Forall (fun c => is_space c = true) lead ->
    Forall (fun c => is_space c = true) trail ->
    tag = [] \/ toLowerCase tag = lit "json" ->
    stripCodeFences
      (lead ++ fence ++ tag ++ [LF] ++ body ++ [LF] ++ fence ++ trail) =
    trim body /\
    (forall s,
       startsWith fence (dropWhile is_space s) = false ->
       startsWith fence (dropWhile is_space (rev s)) = false ->
       stripCodeFences s = trim s).
Proof.
  intros lead tag body trail Hlead Htrail Htag. split.
  - assert (Hopen : strip_open
                      (lead ++ fence ++ tag ++ [LF] ++ body ++ [LF] ++
                       fence ++ trail) =
                    dropWhile is_space (body ++ [LF]) ++ fence ++ trail).
    { unfold strip_open. cbv zeta.
      rewrite dropWhile_all_app by exact Hlead.
      change (dropWhile is_space (fence ++ ?x)) with (fence ++ x).
      rewrite startsWith_app.
      change (skipn 3 (fence ++ ?x)) with x.
      destruct Htag as [->|Htag].
      - cbn [app]. change (toLowerCase (LF :: ?x)) with (LF :: toLowerCase x).
        cbn [startsWith]. change (Ascii.eqb "j" LF) with false. cbn [andb].
        cbn [dropWhile]. change (is_space LF) with true. cbn iota.
        apply dropWhile_before_fence.
      - destruct tag as [|a [|b [|c [|d [|e tag]]]]]; try discriminate.
        rewrite toLowerCase_app, Htag, startsWith_app.
        cbn [app skipn dropWhile]. change (is_space LF) with true. cbn iota.
        apply dropWhile_before_fence. }
    unfold stripCodeFences. rewrite Hopen.
    rewrite strip_close_fence by exact Htrail.
    fold (trim (body ++ [LF])). rewrite trim_idem.
    apply trim_snoc_space. reflexivity.
  - intros s H1 H2. unfold stripCodeFences, strip_open, strip_close. cbv zeta.
    rewrite H1, H2. reflexivity.
Qed.

Lemma stripCodeFences_unwraps_witness :
  stripCodeFences
    ([] ++ fence ++ lit "JSON" ++ [LF] ++ lit " [1, 2] " ++ [LF] ++ fence ++ [LF]) =
  lit "[1, 2]".
Proof.
  destruct (stripCodeFences_unwraps [] (lit "JSON") (lit " [1, 2] ") [LF]
              ltac:(constructor) ltac:(repeat constructor)
              ltac:(right; reflexivity)) as [H _].
  exact (eq_trans H eq_refl).
Defined.

(** ** The page-mapping builder in header mode *)

(** X28.  The merged document of the builder that calls
    [mapPagesToStudents], when the stored page texts hold as many header
    pages as there are students: the sections are the header blocks, so
    the document is the source from its first header page on, in order;
    the pages before the first header page are not in the merged
    document. *)
Theorem green_mapped_header_mode :
  forall (pageCount : Z) (students : list StudentGraded)
         (pre post : list jsstring) (t : jsstring),
    let texts := pre ++ t :: post in
    Z.of_nat (List.length texts) <= pageCount < 2 ^ 31 ->
    forallb provided students = false ->
    Forall (fun x => has_header x = false) pre ->
    has_header t = true ->
    List.length (filter has_header texts) = List.length students ->
    let doc := buildGreenMergedPdf_mapped pageCount students (Some texts) in
    doc = inferByPageTexts (Some texts) (Z.of_nat (List.length students)) /\
    List.concat doc =
      range_from (Z.of_nat (List.length pre)) (Z.of_nat (S (List.length post))) /\
    (forall p, 0 <= p < Z.of_nat (List.length pre) ->
               ~ In p (List.concat doc)).
Proof.
  intros pageCount students pre post t texts Hp Hprov Hpre Ht Hcount doc.
  assert (Hn : (0 < List.length students)%nat).
  { rewrite <- Hcount. unfold texts. rewrite filter_app, length_app.
    cbn [filter]. rewrite Ht. simpl. lia. }
  destruct (infer_blocks_spec pre post t (Z.of_nat (List.length students))
              ltac:(lia) Hpre Ht) as (Hlen & Hcat & Hblk).
  fold texts in Hlen, Hcat, Hblk.
  set (blocks := inferByPageTexts (Some texts) (Z.of_nat (List.length students)))
    in *.
  assert (Hclean : Forall (fun l => StronglySorted Z.lt l /\
                                    Forall (fun i => 0 <= i < pageCount) l)
                          blocks).
  { assert (Hs : Forall (StronglySorted Z.lt) blocks).
    { unfold blocks, inferByPageTexts. destruct (_ || _); [constructor|].
      destruct (find_starts 0 texts); [constructor|].
      apply build_ranges_sorted. }
    rewrite Forall_forall in *. intros l Hl. split; [auto|].
    apply Forall_forall. intros x Hx.
    assert (Hin : In x (List.concat blocks)) by (apply in_concat; eauto).
    rewrite Hcat in Hin. apply in_range_from in Hin.
    unfold texts in Hp. rewrite length_app in Hp. simpl in Hp. lia. }
  assert (Hpages : map page_indices
                       (mapPagesToStudents pageCount students (Some texts)) =
                   map (fun l => Some (map PInt l)) blocks).
  { unfold mapPagesToStudents.
    destruct (Nat.eqb_spec (List.length students) 0); [lia|].
    rewrite Hprov. fold blocks.
    destruct (Nat.leb_spec 1 (List.length blocks)); [|lia].
    destruct (Nat.eqb_spec (List.length blocks) (List.length students));
      [|lia].
    rewrite to_int32_small by lia.
    apply map_indexed_clean; [lia|exact Hclean]. }
  assert (Hdoc : doc = blocks).
  { unfold doc, buildGreenMergedPdf_mapped.
    rewrite (sections_of_mapped pageCount _ _ Hpages Hclean).
    clear Hpages Hclean Hlen Hcat.
    induction Hblk as [|blk r (s & rest & -> & _) Hr IH]; [reflexivity|].
    cbn [map filter List.length Nat.eqb negb]. now rewrite IH. }
  split; [exact Hdoc|]. rewrite Hdoc. split; [exact Hcat|].
  intros p Hp' Hin. rewrite Hcat in Hin. apply in_range_from in Hin. lia.
Qed.

Lemma green_mapped_header_mode_witness :
  let h := lit "Name: A" ++ [LF] ++ lit "Roll: 1" in
  let b := lit "Q1. 42" in
  buildGreenMergedPdf_mapped 6 [empty_student; empty_student]
                             (Some ([b] ++ h :: [b; h; b; b])) =
  [[1; 2]; [3; 4; 5]].
Proof.
  intros h b.
  destruct (green_mapped_header_mode 6 [empty_student; empty_student]
              [b] [b; h; b; b] h ltac:(simpl; lia) eq_refl
              ltac:(repeat constructor) eq_refl eq_refl) as [H _].
  exact (eq_trans H eq_refl).
Defined.
